(** * UltiPDF: a shallow embedding of the client-side glue code

    The development follows the JavaScript sources of the repository:
    the page-range parser of the application controller, the file-type
    checks and the merge/split helpers of [PDFUtils], the page operations of
    [OrganizeTools], the repair and image import operations, and the
    recent-activity list of [UI]; then the file intake and the thumbnails
    of the controller, the escaping helpers, and the operations of
    [OptimizeTools] and [SecurityTools] that copy pages or draw on them.

    Conventions of the embedding.
    - A JavaScript string is a [string] of 8-bit code units.
    - A JavaScript number that holds a page number or an index is a
      [number]: [NaN] or an integer.  Doubles are exact on integers up to
      2^53, which is the range the statements about parsing stay in.
    - The external PDF library is a collaborator: a loaded document is the
      list of its page objects, copying a page either gives the page or
      throws, and saving a document gives back a loadable file.
    - pdf.js is a second collaborator: what it makes of a file is the list
      of its pages, each of which gives its text items or makes pdf.js
      throw.  Drawing a text on a page and drawing a page as an image are
      taken as given: they return the new page or the image, or throw.
    - An asynchronous operation is a computation that records the calls made
      to the progress callback and to [console.warn] and ends by returning
      a value or by throwing.  The delays of [PDFUtils.sleep] between the
      iterations change none of this and are left out. *)

From Stdlib Require Import List ZArith QArith Qround Lia Bool Arith.
From Stdlib Require Import Ascii String.
From Stdlib Require Import Decimal DecimalString DecimalFacts DecimalPos DecimalN DecimalZ.
From Stdlib Require Import Sorting.Sorted Sorting.Permutation.
Import ListNotations.

#[local] Open Scope string_scope.
#[local] Open Scope Z_scope.

(** ** JavaScript numbers used as page numbers *)

Inductive number : Type :=
| NaN : number
| Int : Z -> number.

(** [SameValueZero], the equality of [Set] and of [Array.prototype.includes]:
    [NaN] is equal to itself. *)
Definition same_value_zero (a b : number) : bool :=
  match a, b with
  | NaN, NaN => true
  | Int x, Int y => Z.eqb x y
  | _, _ => false
  end.

(** [a <= b] of JavaScript: false as soon as one side is [NaN]. *)
Definition js_le (a b : number) : bool :=
  match a, b with
  | Int x, Int y => Z.leb x y
  | _, _ => false
  end.

Definition js_lt (a b : number) : bool :=
  match a, b with
  | Int x, Int y => Z.ltb x y
  | _, _ => false
  end.

Definition js_ge (a b : number) : bool := js_le b a.

(** [a - b]. *)
Definition js_sub (a b : number) : number :=
  match a, b with
  | Int x, Int y => Int (x - y)
  | _, _ => NaN
  end.

(** ** Strings: the primitives the parser calls *)

Module JSString.

(** White space of [String.prototype.trim] among the code units below 256:
    TAB, LF, VT, FF, CR, SP and NBSP. *)
Definition is_white_space (c : ascii) : bool :=
  let n := nat_of_ascii c in
  (Nat.eqb n 9 || Nat.eqb n 10 || Nat.eqb n 11 || Nat.eqb n 12
   || Nat.eqb n 13 || Nat.eqb n 32 || Nat.eqb n 160)%bool.

Fixpoint trimStart (s : string) : string :=
  match s with
  | EmptyString => EmptyString
  | String c s' => if is_white_space c then trimStart s' else s
  end.

(** [trimEnd] drops the trailing white space: a white-space unit is kept
    only when something that is kept follows it. *)
Fixpoint trimEnd (s : string) : string :=
  match s with
  | EmptyString => EmptyString
  | String c s' =>
      match trimEnd s' with
      | EmptyString => if is_white_space c then EmptyString else String c EmptyString
      | t => String c t
      end
  end.

Definition trim (s : string) : string := trimEnd (trimStart s).

(** [s.includes(c)] for a one-unit search string. *)
Fixpoint includes (c : ascii) (s : string) : bool :=
  match s with
  | EmptyString => false
  | String d s' => if Ascii.eqb d c then true else includes c s'
  end.

(** [s.split(c)] for a one-unit separator: the pieces between the
    separators, an empty string giving one empty piece. *)
Fixpoint split (sep : ascii) (s : string) : list string :=
  match s with
  | EmptyString => [EmptyString]
  | String c s' =>
      if Ascii.eqb c sep then EmptyString :: split sep s'
      else match split sep s' with
           | [] => [String c EmptyString]
           | p :: ps => String c p :: ps
           end
  end.

(** [s.endsWith(suffix)]. *)
Fixpoint endsWith (suffix s : string) : bool :=
  if String.eqb s suffix then true
  else match s with
       | EmptyString => false
       | String _ s' => endsWith suffix s'
       end.

(** [toLowerCase] on code units below 256: A-Z and the upper-case letters
    of Latin-1 (all of 192..222 but the multiplication sign 215). *)
Definition lower_unit (c : ascii) : ascii :=
  let n := nat_of_ascii c in
  if ((Nat.leb 65 n && Nat.leb n 90)
      || (Nat.leb 192 n && Nat.leb n 222 && negb (Nat.eqb n 215)))%bool
  then ascii_of_nat (n + 32) else c.

Fixpoint toLowerCase (s : string) : string :=
  match s with
  | EmptyString => EmptyString
  | String c s' => String (lower_unit c) (toLowerCase s')
  end.

(** The value of a digit in radix 10 or 16, when the unit is one. *)
Definition digit_value (radix : Z) (c : ascii) : option Z :=
  let n := Z.of_nat (nat_of_ascii c) in
  let v :=
    if (48 <=? n) && (n <=? 57) then Some (n - 48)
    else if (97 <=? n) && (n <=? 122) then Some (n - 87)
    else if (65 <=? n) && (n <=? 90) then Some (n - 55)
    else None in
  match v with
  | Some d => if d <? radix then Some d else None
  | None => None
  end.

(** The longest prefix of digits, read from the left; [seen] tells whether a
    digit was read. *)
Fixpoint parse_digits (radix : Z) (acc : Z) (seen : bool) (s : string) : option Z :=
  match s with
  | EmptyString => if seen then Some acc else None
  | String c s' =>
      match digit_value radix c with
      | Some d => parse_digits radix (radix * acc + d) true s'
      | None => if seen then Some acc else None
      end
  end.

(** [parseInt(s)] without a radix: leading white space is skipped, a sign
    is read, a [0x] or [0X] prefix selects radix 16, then the longest run of
    digits is read; [NaN] when there is no digit. *)
Definition strip_prefix (s : string) : Z * string :=
  match s with
  | String "0" (String "x" r) => (16, r)
  | String "0" (String "X" r) => (16, r)
  | _ => (10, s)
  end.

Definition magnitude (s : string) : option Z :=
  let '(radix, digits) := strip_prefix s in
  parse_digits radix 0 false digits.

Definition parseInt (s : string) : number :=
  let s1 := trimStart s in
  let '(negative, s2) :=
    match s1 with
    | String "-" r => (true, r)
    | String "+" r => (false, r)
    | _ => (false, s1)
    end in
  match magnitude s2 with
  | Some v => Int (if negative then - v else v)
  | None => NaN
  end.

(** [String(n)] for a page number. *)
Definition ToString (n : number) : string :=
  match n with
  | NaN => "NaN"
  | Int z => NilZero.string_of_int (Z.to_int z)
  end.

End JSString.

(** ** [Set] and [Array.prototype.sort] on numbers *)

Module JSSet.

(** A [Set] of numbers: its elements in insertion order. *)
Definition t := list number.

Definition has (x : number) (s : t) : bool := existsb (same_value_zero x) s.

Definition add (x : number) (s : t) : t := if has x s then s else (s ++ [x])%list.

Definition size (s : t) : Z := Z.of_nat (List.length s).

(** [new Set(array)]: the elements are added from the left. *)
Definition of_array (l : list number) : t := fold_left (fun s x => add x s) l [].

End JSSet.

(** [array.sort((a, b) => a - b)].  The comparator's result is read as
    "a goes first" when negative; a [NaN] result counts as zero.  The sort of
    the engines is stable, and so is this insertion sort.  On integers the
    comparator is consistent and the result is the one sorted arrangement;
    with a [NaN] among several elements the language leaves the order to the
    engine, and nothing is stated about it below. *)
Definition goes_after (a b : number) : bool :=
  match js_sub a b with
  | Int d => 0 <? d
  | NaN => false
  end.

Fixpoint sort_insert (x : number) (l : list number) : list number :=
  match l with
  | [] => [x]
  | y :: l' => if goes_after x y then y :: sort_insert x l' else x :: l
  end.

Definition sort_ascending (l : list number) : list number :=
  fold_right sort_insert [] l.

(** ** The page-range parser (application controller) *)

(** [for (let i = start; i <= end; i++) pages.add(i)], [count] iterations
    from [i]. *)
Fixpoint add_range (count : nat) (i : Z) (pages : JSSet.t) : JSSet.t :=
  match count with
  | O => pages
  | S k => add_range k (i + 1) (JSSet.add (Int i) pages)
  end.

(** The loop does not run when a bound is [NaN] or missing, or when
    [start > end]. *)
Definition for_range (start end_ : number) (pages : JSSet.t) : JSSet.t :=
  match start, end_ with
  | Int a, Int b => add_range (Z.to_nat (b - a + 1)) a pages
  | _, _ => pages
  end.

(** The body of [parts.forEach]. *)
Definition parse_part (pages : JSSet.t) (part : string) : JSSet.t :=
  let part := JSString.trim part in
  if JSString.includes "-" part then
    let bounds := map (fun n => JSString.parseInt (JSString.trim n))
                      (JSString.split "-" part) in
    for_range (nth 0 bounds NaN) (nth 1 bounds NaN) pages
  else
    JSSet.add (JSString.parseInt part) pages.

Definition parsePageRange (input : string) : list number :=
  let parts := JSString.split "," input in
  let pages := fold_left parse_part parts [] in
  sort_ascending pages.

(** ** Effects of an operation *)

(** The percent passed to the progress callback.  It is the exact value of
    the expression the code evaluates; the division of JavaScript gives an
    infinity or [NaN] on a zero divisor.  The floating-point operations are
    monotone and exact at 0 and 100, so a bound proved here holds for the
    rounded value too. *)
Inductive percent : Type :=
| Pct (q : Q)
| PctInfinity (negative : bool)
| PctNaN.

Module Percent.

(** [a / b] for two integers. *)
Definition ratio (a b : Z) : percent :=
  if b =? 0 then
    (if a =? 0 then PctNaN else PctInfinity (a <? 0))
  else Pct (inject_Z a / inject_Z b).

(** [p * k] and [c + p] for a constant [k > 0] and a constant [c]. *)
Definition times (p : percent) (k : Q) : percent :=
  match p with
  | Pct q => Pct (q * k)
  | other => other
  end.

Definition plus (c : Q) (p : percent) : percent :=
  match p with
  | Pct q => Pct (c + q)
  | other => other
  end.

(** The interval the callback expects. *)
Definition in_range (p : percent) : Prop :=
  match p with
  | Pct q => (0 <= q /\ q <= 100)%Q
  | _ => False
  end.

End Percent.

Inductive event : Type :=
| Progress (value : percent) (text : string)   (* progressCallback(value, text) *)
| Warning (arguments : list string).            (* console.warn(...arguments) *)

Inductive outcome (A : Type) : Type :=
| Returned (a : A)
| Thrown (message : string).

Arguments Returned {A} a.
Arguments Thrown {A} message.

(** An operation: the events it produced, in order, and how it ended. *)
Definition async (A : Type) : Type := (list event * outcome A)%type.

Module Async.

Definition ret {A} (a : A) : async A := ([], Returned a).

Definition throw {A} (message : string) : async A := ([], Thrown message).

Definition bind {A B} (m : async A) (k : A -> async B) : async B :=
  match m with
  | (log, Returned a) => let '(log', r) := k a in ((log ++ log')%list, r)
  | (log, Thrown e) => (log, Thrown e)
  end.

(** [try { m } catch (error) { handler(error.message) }]. *)
Definition try_catch {A} (m : async A) (handler : string -> async A) : async A :=
  match m with
  | (log, Returned a) => (log, Returned a)
  | (log, Thrown e) => let '(log', r) := handler e in ((log ++ log')%list, r)
  end.

Definition emit (e : event) : async unit := ([e], Returned tt).

(** [if (progressCallback) progressCallback(value, text)]; the flag tells
    whether a callback was passed. *)
Definition report (progressCallback : bool) (value : percent) (text : string) : async unit :=
  if progressCallback then emit (Progress value text) else ret tt.

Definition warn (arguments : list string) : async unit := emit (Warning arguments).

Definition events {A} (m : async A) : list event := fst m.
Definition result {A} (m : async A) : outcome A := snd m.

(** The percents an operation passed to its callback. *)
Definition percents {A} (m : async A) : list percent :=
  flat_map (fun e => match e with Progress v _ => [v] | Warning _ => [] end) (events m).

(** Every percent an operation passed to its callback lies in [0, 100]. *)
Definition progress_ok (e : event) : Prop :=
  match e with
  | Progress v _ => Percent.in_range v
  | Warning _ => True
  end.

Definition in_bounds {A} (m : async A) : Prop := Forall progress_ok (events m).

(** The argument lists an operation passed to [console.warn]. *)
Definition warnings {A} (m : async A) : list (list string) :=
  flat_map (fun e => match e with Warning a => [a] | Progress _ _ => [] end) (events m).

End Async.

Notation "x <- m ;; k" := (Async.bind m (fun x => k))
  (at level 61, m at next level, right associativity).
Notation "m ;;; k" := (Async.bind m (fun _ => k))
  (at level 61, right associativity).

(** [for (let i = start; i < start + count; i++) body], the state of the
    loop passed along. *)
Fixpoint for_loop {S : Type} (count : nat) (i : nat)
         (body : nat -> S -> async S) (s : S) : async S :=
  match count with
  | O => Async.ret s
  | Datatypes.S k => s' <- body i s ;; for_loop k (Datatypes.S i) body s'
  end.

(** [for (let i = count - 1; i >= 0; i--) body]. *)
Fixpoint for_down {S : Type} (count : nat)
         (body : nat -> S -> async S) (s : S) : async S :=
  match count with
  | O => Async.ret s
  | Datatypes.S k => s' <- body k s ;; for_down k body s'
  end.

(** [for (const x of l) body]. *)
Fixpoint for_of {A S : Type} (l : list A) (body : A -> S -> async S) (s : S) : async S :=
  match l with
  | [] => Async.ret s
  | x :: l' => s' <- body x s ;; for_of l' body s'
  end.

(** The decimal text of an integer inside a template literal. *)
Definition str (z : Z) : string := JSString.ToString (Int z).

(** [parseInt(n)] applied to a number: the number is first converted to a
    string. *)
Definition parseInt_number (n : number) : number :=
  JSString.parseInt (JSString.ToString n).

(** ** File-type validation ([PDFUtils]) *)

(** What the checks read of a [File]: its name and its declared type. *)
Record file : Type := mkFile {
  name : string;
  type : string
}.

Definition isValidPDF (f : file) : bool :=
  (String.eqb (type f) "application/pdf"
   || JSString.endsWith ".pdf" (JSString.toLowerCase (name f)))%bool.

Definition isValidImage (f : file) : bool :=
  existsb (String.eqb (type f)) ["image/jpeg"; "image/png"; "image/jpg"].

Definition isValidDoc (f : file) : bool :=
  let validTypes :=
    [ "application/vnd.openxmlformats-officedocument.wordprocessingml.document";
      "application/msword";
      "application/vnd.openxmlformats-officedocument.spreadsheetml.sheet";
      "application/vnd.ms-excel";
      "application/vnd.openxmlformats-officedocument.presentationml.presentation";
      "application/vnd.ms-powerpoint" ] in
  existsb (String.eqb (type f)) validTypes.

(** ** The PDF library, as the operations see it *)

Section Documents.

Context {Content Image : Type}.

(** What a page shows, and its [/Rotate] angle in degrees. *)
Record page : Type := mkPage {
  content : Content;
  rotation : Z
}.

(** A page object of a loaded document: the library reads it, or throws
    when it is accessed. *)
Inductive pageObject : Type :=
| Readable (p : page)
| Unreadable (message : string).

(** A document in memory: its page objects, in order. *)
Definition document : Type := list pageObject.

(** The bytes of a PDF file: [PDFDocument.load] gives a document or throws. *)
Inductive pdfFile : Type :=
| Parsed (pages : document)
| Malformed (message : string).

Definition load (f : pdfFile) : async document :=
  match f with
  | Parsed pages => Async.ret pages
  | Malformed message => Async.throw message
  end.

Definition create : document := [].

Definition getPageCount (doc : document) : nat := List.length doc.

Definition getPageIndices (doc : document) : list number :=
  map (fun i => Int (Z.of_nat i)) (seq 0 (List.length doc)).

(** [const [copiedPage] = await newPdf.copyPages(srcPdf, [index])]. *)
Definition copyPage (srcPdf : document) (index : number) : async page :=
  match index with
  | NaN => Async.throw "invalid page index"
  | Int z =>
      if z <? 0 then Async.throw "invalid page index"
      else match nth_error srcPdf (Z.to_nat z) with
           | Some (Readable p) => Async.ret p
           | Some (Unreadable message) => Async.throw message
           | None => Async.throw "invalid page index"
           end
  end.

(** [await newPdf.copyPages(srcPdf, indices)]. *)
Fixpoint copyPages (srcPdf : document) (indices : list number) : async (list page) :=
  match indices with
  | [] => Async.ret []
  | index :: rest =>
      p <- copyPage srcPdf index ;;
      ps <- copyPages srcPdf rest ;;
      Async.ret (p :: ps)
  end.

Definition addPage (doc : document) (p : page) : document := (doc ++ [Readable p])%list.

(** [page.getRotation().angle] and [page.setRotation(degrees(angle))] on
    page [i] of a document; the library stores the angle it is given. *)
Definition getRotation (doc : document) (i : nat) : async Z :=
  match nth_error doc i with
  | Some (Readable p) => Async.ret (rotation p)
  | Some (Unreadable message) => Async.throw message
  | None => Async.throw "undefined page"
  end.

Fixpoint setRotation (doc : document) (i : nat) (angle : Z) : async document :=
  match doc, i with
  | [], _ => Async.throw "undefined page"
  | Readable p :: rest, O =>
      Async.ret (Readable (mkPage (content p) angle) :: rest)
  | Unreadable message :: _, O => Async.throw message
  | o :: rest, Datatypes.S j =>
      rest' <- setRotation rest j angle ;; Async.ret (o :: rest')
  end.

Definition save (doc : document) : async pdfFile := Async.ret (Parsed doc).

(** *** [OrganizeTools] *)

Definition extract (f : pdfFile) (pageNumbers : list number)
           (progressCallback : bool) : async pdfFile :=
  srcPdf <- load f ;;
  let newPdf := create in
  let validPages :=
    sort_ascending
      (filter (fun n => js_ge n (Int 0) && js_lt n (Int (Z.of_nat (getPageCount srcPdf))))
              (map (fun n => js_sub (parseInt_number n) (Int 1)) pageNumbers)) in
  let total := Z.of_nat (List.length validPages) in
  newPdf <- for_loop (List.length validPages) 0 (fun i newPdf =>
      Async.report progressCallback
        (Percent.times (Percent.ratio (Z.of_nat i + 1) total) 100)
        ("Extracting page " ++ str (Z.of_nat i + 1) ++ " of " ++ str total) ;;;
      let pageIndex := nth i validPages NaN in
      copiedPage <- copyPage srcPdf pageIndex ;;
      Async.ret (addPage newPdf copiedPage)) newPdf ;;
  save newPdf.

Definition deletePages (f : pdfFile) (pageNumbersToDelete : list number)
           (progressCallback : bool) : async pdfFile :=
  srcPdf <- load f ;;
  let totalPages := getPageCount srcPdf in
  let newPdf := create in
  let deleteSet :=
    JSSet.of_array (map (fun n => js_sub (parseInt_number n) (Int 1)) pageNumbersToDelete) in
  let remaining := Z.of_nat totalPages - JSSet.size deleteSet in
  st <- for_loop totalPages 0 (fun i (st : Z * document) =>
      let '(processedCount, newPdf) := st in
      if negb (JSSet.has (Int (Z.of_nat i)) deleteSet) then
        processedCount <-
          (if progressCallback then
             let processedCount := processedCount + 1 in
             Async.report true
               (Percent.times (Percent.ratio processedCount remaining) 100)
               ("Processing page " ++ str processedCount ++ " of " ++ str remaining) ;;;
             Async.ret processedCount
           else Async.ret processedCount) ;;
        copiedPage <- copyPage srcPdf (Int (Z.of_nat i)) ;;
        Async.ret (processedCount, addPage newPdf copiedPage)
      else Async.ret st) (0, newPdf) ;;
  save (snd st).

Definition rotateAll (f : pdfFile) (rotationDegrees : Z)
           (progressCallback : bool) : async pdfFile :=
  pdfDoc <- load f ;;
  let count := List.length pdfDoc in
  pdfDoc <- for_loop count 0 (fun i pdfDoc =>
      Async.report progressCallback
        (Percent.times (Percent.ratio (Z.of_nat i + 1) (Z.of_nat count)) 100)
        ("Rotating page " ++ str (Z.of_nat i + 1) ++ " of " ++ str (Z.of_nat count)) ;;;
      currentRotation <- getRotation pdfDoc i ;;
      setRotation pdfDoc i (currentRotation + rotationDegrees)) pdfDoc ;;
  save pdfDoc.

Definition reverse (f : pdfFile) (progressCallback : bool) : async pdfFile :=
  srcPdf <- load f ;;
  let totalPages := getPageCount srcPdf in
  let total := Z.of_nat totalPages in
  newPdf <- for_down totalPages (fun i newPdf =>
      Async.report progressCallback
        (Percent.times (Percent.ratio (total - Z.of_nat i) total) 100)
        ("Processing page " ++ str (total - Z.of_nat i) ++ " of " ++ str total) ;;;
      copiedPage <- copyPage srcPdf (Int (Z.of_nat i)) ;;
      Async.ret (addPage newPdf copiedPage)) create ;;
  save newPdf.

(** *** [PDFUtils.mergePDFs] and [PDFUtils.splitPDF] *)

Definition mergePDFs (files : list pdfFile) (progressCallback : bool) : async pdfFile :=
  let count := Z.of_nat (List.length files) in
  st <- for_of files (fun f (st : Z * document) =>
      let '(processedFiles, mergedPdf) := st in
      let processedFiles := processedFiles + 1 in
      Async.report progressCallback
        (Percent.times (Percent.ratio processedFiles count) 100)
        ("Merging file " ++ str processedFiles ++ " of " ++ str count) ;;;
      pdf <- load f ;;
      copiedPages <- copyPages pdf (getPageIndices pdf) ;;
      Async.ret (processedFiles, fold_left addPage copiedPages mergedPdf)) (0, create) ;;
  save (snd st).

(** One element of the array [splitPDF] returns. *)
Record splitResult : Type := mkSplit {
  pageNumber : Z;
  blob : pdfFile;
  filename : string
}.

Definition splitPDF (f : pdfFile) (progressCallback : bool) : async (list splitResult) :=
  srcPdf <- load f ;;
  let pageCount := getPageCount srcPdf in
  for_loop pageCount 0 (fun i splitPDFs =>
      Async.report progressCallback
        (Percent.times (Percent.ratio (Z.of_nat i + 1) (Z.of_nat pageCount)) 100)
        ("Extracting page " ++ str (Z.of_nat i + 1) ++ " of " ++ str (Z.of_nat pageCount)) ;;;
      let newPdf := create in
      copiedPage <- copyPage srcPdf (Int (Z.of_nat i)) ;;
      let newPdf := addPage newPdf copiedPage in
      pdfBytes <- save newPdf ;;
      Async.ret (splitPDFs ++ [mkSplit (Z.of_nat i + 1) pdfBytes
                                       ("page_" ++ str (Z.of_nat i + 1) ++ ".pdf")])%list) [].

Definition merge := mergePDFs.
Definition split := splitPDF.

(** *** [OptimizeTools.repair] *)

Definition repair (f : pdfFile) (progressCallback : bool) : async pdfFile :=
  Async.try_catch
    (Async.report progressCallback (Pct 20) "Analyzing PDF structure..." ;;;
     srcPdf <- load f ;;
     Async.report progressCallback (Pct 50) "Recreating PDF structure..." ;;;
     let pageCount := getPageCount srcPdf in
     newPdf <- for_loop pageCount 0 (fun i newPdf =>
         Async.report progressCallback
           (Percent.plus 50
              (Percent.times (Percent.ratio (Z.of_nat i + 1) (Z.of_nat pageCount)) 50))
           ("Repairing page " ++ str (Z.of_nat i + 1) ++ " of " ++ str (Z.of_nat pageCount)) ;;;
         Async.try_catch
           (copiedPage <- copyPage srcPdf (Int (Z.of_nat i)) ;;
            Async.ret (addPage newPdf copiedPage))
           (fun pageError =>
              Async.warn ["Skipping corrupted page " ++ str (Z.of_nat i + 1) ++ ":"; pageError] ;;;
              Async.ret newPdf)) create ;;
     if Nat.eqb (getPageCount newPdf) 0
     then Async.throw "No valid pages found in PDF"
     else save newPdf)
    (fun message => Async.throw ("Repair failed: " ++ message)).

(** *** [ConvertToTools.imagesToPDF] *)

(** What the bytes of an image file decode to. *)
Inductive imageData : Type :=
| JpegData (image : Image)
| PngData (image : Image)
| Undecodable (message : string).

Record imageFile : Type := mkImageFile {
  image_name : string;
  image_type : string;
  image_data : imageData
}.

Definition embedJpg (data : imageData) : async Image :=
  match data with
  | JpegData image => Async.ret image
  | PngData _ => Async.throw "not a JPEG"
  | Undecodable message => Async.throw message
  end.

Definition embedPng (data : imageData) : async Image :=
  match data with
  | PngData image => Async.ret image
  | JpegData _ => Async.throw "not a PNG"
  | Undecodable message => Async.throw message
  end.

(** A new page of the size of the image, with the image drawn on it. *)
Variable image_page : Image -> Content.

Definition imagesToPDF (files : list imageFile) (progressCallback : bool) : async pdfFile :=
  let count := Z.of_nat (List.length files) in
  pdfDoc <- for_loop (List.length files) 0 (fun i pdfDoc =>
      Async.report progressCallback
        (Percent.times (Percent.ratio (Z.of_nat i + 1) count) 100)
        ("Adding image " ++ str (Z.of_nat i + 1) ++ " of " ++ str count) ;;;
      match nth_error files i with
      | None => Async.throw "undefined file"
      | Some f =>
          embedded <-
            Async.try_catch
              (if (String.eqb (image_type f) "image/jpeg"
                   || String.eqb (image_type f) "image/jpg")%bool then
                 image <- embedJpg (image_data f) ;; Async.ret (Some (Some image))
               else if String.eqb (image_type f) "image/png" then
                 image <- embedPng (image_data f) ;; Async.ret (Some (Some image))
               else Async.ret (Some None))
              (fun e =>
                 Async.warn ["Skipping invalid image:"; image_name f; e] ;;;
                 Async.ret None) ;;
          match embedded with
          | None => Async.ret pdfDoc                       (* continue *)
          | Some (Some image) => Async.ret (addPage pdfDoc (mkPage (image_page image) 0))
          | Some None => Async.ret pdfDoc                  (* image is undefined *)
          end
      end) create ;;
  save pdfDoc.

End Documents.

Arguments page : clear implicits.
Arguments pageObject : clear implicits.
Arguments document : clear implicits.
Arguments pdfFile : clear implicits.
Arguments splitResult : clear implicits.
Arguments imageData : clear implicits.
Arguments imageFile : clear implicits.

(** ** The recent-activity list ([UI]) *)

Section RecentFiles.

(** [PDFUtils.formatFileSize] computes with floating-point logarithms and
    [Date.prototype.toISOString] formats a date: both are taken as given. *)
Variable formatFileSize : Z -> string.
Variable toISOString : Z -> string.

Record entry : Type := mkEntry {
  id : Z;
  tool : string;
  entry_filename : string;
  fileSize : string;
  timestamp : string
}.

(** What [JSON.parse(localStorage.getItem('recentFiles') || '[]')] finds:
    no item (or an empty one), an array, or something [JSON.parse] or
    [unshift] throws on. *)
Inductive storedItem : Type :=
| NoItem
| StoredArray (entries : list entry)
| NotAnArray (message : string).

Definition parse_recent (item : storedItem) : async (list entry) :=
  match item with
  | NoItem => Async.ret []
  | StoredArray entries => Async.ret entries
  | NotAnArray message => Async.throw message
  end.

(** [localStorage.setItem] throws when the quota is exceeded. *)
Definition setItem (quota_ok : bool) (value : list entry) : async storedItem :=
  if quota_ok then Async.ret (StoredArray value)
  else Async.throw "QuotaExceededError".

(** [saveRecentFile] at time [now]; the result is the item in the storage
    afterwards.  The list is drawn again at the end by [renderRecentFiles],
    which catches its own exceptions and leaves the storage alone. *)
Definition saveRecentFile (toolName filename : string) (size : Z)
           (now : Z) (quota_ok : bool) (item : storedItem) : async storedItem :=
  Async.try_catch
    (recent <- parse_recent item ;;
     let newEntry := mkEntry now toolName filename (formatFileSize size) (toISOString now) in
     let recent := newEntry :: recent in
     let trimmed := firstn 10 recent in
     setItem quota_ok trimmed)
    (fun e =>
       Async.warn ["Could not save to localStorage:"; e] ;;;
       Async.ret item).

End RecentFiles.

(** ** Page-range expressions, as the specification reads them *)

(** A numeral is a sequence of decimal digits ([Decimal.uint]); its text is
    the digits and its value the number they denote. *)
Inductive token : Type :=
| Single (n : uint)
| Range (a b : uint).

Definition numeral_text (d : uint) : string := NilEmpty.string_of_uint d.

Definition numeral_value (d : uint) : Z := Z.of_N (N.of_uint d).

Definition token_text (t : token) : string :=
  match t with
  | Single n => numeral_text n
  | Range a b => numeral_text a ++ "-" ++ numeral_text b
  end.

(** The largest integer up to which every integer is a double. *)
Definition MAX_SAFE_INTEGER : Z := 9007199254740991.

Definition numeral_ok (d : uint) : Prop :=
  d <> Nil /\ numeral_value d <= MAX_SAFE_INTEGER.

Definition token_ok (t : token) : Prop :=
  match t with
  | Single n => numeral_ok n
  | Range a b => numeral_ok a /\ numeral_ok b
  end.

(** The page numbers a token denotes. *)
Definition denotes (t : token) (p : Z) : Prop :=
  match t with
  | Single n => p = numeral_value n
  | Range a b => numeral_value a <= p <= numeral_value b
  end.

Definition expression_text (tokens : list token) : string :=
  String.concat "," (map token_text tokens).

(** Every code unit of a string satisfies a test. *)
Fixpoint all_units (P : ascii -> bool) (s : string) : bool :=
  match s with
  | EmptyString => true
  | String c s' => P c && all_units P s'
  end.

Definition is_decimal_digit (c : ascii) : bool :=
  let n := nat_of_ascii c in (Nat.leb 48 n && Nat.leb n 57)%bool.

Definition digit_or_hyphen (c : ascii) : bool :=
  (is_decimal_digit c || Ascii.eqb c "-")%bool.

(** ** Pages of a document, as the specification reads them *)

(** The elements of [ps] at the indices [l], each passed to [g] with its
    index; an index outside the list gives nothing. *)
Definition pick_with {A B : Type} (g : nat -> A -> B) (ps : list A) (l : list nat) : list B :=
  flat_map (fun i => match nth_error ps i with Some p => [g i p] | None => [] end) l.

Definition pick {A : Type} (ps : list A) (l : list nat) : list A :=
  pick_with (fun _ p => p) ps l.

(** [g] applied to the elements of a list and their indices from [k]. *)
Fixpoint mapi_from {A B : Type} (g : nat -> A -> B) (k : nat) (ps : list A) : list B :=
  match ps with
  | [] => []
  | p :: ps' => g k p :: mapi_from g (S k) ps'
  end.

(** Page number [k] (counted from 1) occurs in a list of page numbers. *)
Definition listed (k : Z) (pageNumbers : list number) : bool :=
  existsb (same_value_zero (Int k)) pageNumbers.

(** The indices (from 0) of the requested page numbers that lie in a
    document of [count] pages, in the order of the request and with their
    repetitions. *)
Definition requested_indices (count : nat) (pageNumbers : list number) : list Z :=
  flat_map (fun n => match n with
                     | Int z => if (1 <=? z) && (z <=? Z.of_nat count) then [z - 1] else []
                     | NaN => []
                     end) pageNumbers.

(** The page numbers of a document of [count] pages that are listed. *)
Definition listed_pages (count : nat) (pageNumbers : list number) : list nat :=
  filter (fun i => listed (Z.of_nat i + 1) pageNumbers) (seq 0 count).

Definition unlisted_pages (count : nat) (pageNumbers : list number) : list nat :=
  filter (fun i => negb (listed (Z.of_nat i + 1) pageNumbers)) (seq 0 count).

(** Every page number of a list is a page of a document of [count] pages. *)
Definition pages_of_source (count : nat) (pageNumbers : list number) : Prop :=
  Forall (fun n => exists z, n = Int z /\ 1 <= z <= Z.of_nat count) pageNumbers.

(** A page turned by [delta] degrees more. *)
Definition rotate_page {Content : Type} (delta : Z) (p : page Content) : page Content :=
  mkPage (content p) (rotation p + delta).

(** The pages of a document that can be read, in order. *)
Definition readable_pages {Content : Type} (doc : document Content) : list (page Content) :=
  flat_map (fun o => match o with Readable p => [p] | Unreadable _ => [] end) doc.

(** A file whose pages are all readable. *)
Definition readable_file {Content : Type} (ps : list (page Content)) : pdfFile Content :=
  Parsed (map Readable ps).

(** Output [i] (from 0) of a split: page number [i + 1], a document with
    the one page, and the name [page_<i+1>.pdf]. *)
Definition split_output {Content : Type} (i : nat) (p : page Content) : splitResult Content :=
  mkSplit (Z.of_nat i + 1) (Parsed [Readable p])
          ("page_" ++ str (Z.of_nat i + 1) ++ ".pdf").

(** One iteration of the merge loop on a file that loads and copies. *)
Definition merge_step {Content : Type} (st : Z * document Content) (f : pdfFile Content)
  : Z * document Content :=
  (fst st + 1, (snd st ++ match f with Parsed d => d | Malformed _ => [] end)%list).

(** One iteration of the deletion loop on a readable document. *)
Definition delete_step {Content : Type} (ps : list (page Content))
           (pageNumbers : list number) (progressCallback : bool)
           (st : Z * document Content) (i : nat) : Z * document Content :=
  if negb (listed (Z.of_nat i + 1) pageNumbers)
  then ((if progressCallback then fst st + 1 else fst st),
        match nth_error ps i with
        | Some p => (snd st ++ [Readable p])%list
        | None => snd st
        end)
  else st.

(** The image [imagesToPDF] embeds for a file: the declared type selects
    the decoder, which has to accept the bytes. *)
Definition embeddable {Image : Type} (f : imageFile Image) : option Image :=
  if (String.eqb (image_type f) "image/jpeg" || String.eqb (image_type f) "image/jpg")%bool
  then match image_data f with JpegData image => Some image | _ => None end
  else if String.eqb (image_type f) "image/png"
  then match image_data f with PngData image => Some image | _ => None end
  else None.

(** The pages [imagesToPDF] makes of a list of files. *)
Definition image_pages {Content Image : Type} (image_page : Image -> Content)
           (files : list (imageFile Image)) : document Content :=
  flat_map (fun f => match embeddable f with
                     | Some image => [Readable (mkPage (image_page image) 0)]
                     | None => []
                     end) files.

(** One iteration of the repair loop: a readable page is added, another
    one is skipped. *)
Definition keep_readable {Content : Type} (s : document Content) (o : pageObject Content)
  : document Content :=
  match o with
  | Readable p => (s ++ [Readable p])%list
  | Unreadable _ => s
  end.

Definition repair_step {Content : Type} (doc s : document Content) (i : nat)
  : document Content :=
  match nth_error doc i with
  | Some o => keep_readable s o
  | None => s
  end.

(** One iteration of the image loop. *)
Definition image_step {Content Image : Type} (image_page : Image -> Content)
           (s : document Content) (f : imageFile Image) : document Content :=
  match embeddable f with
  | Some image => (s ++ [Readable (mkPage (image_page image) 0)])%list
  | None => s
  end.

(** Page [i] (from 0) of a document throws when it is accessed. *)
Definition unreadable_at {Content : Type} (doc : document Content) (i : nat) : Prop :=
  exists message, nth_error doc i = Some (Unreadable message).

(** The warning [repair] prints for page [i] (from 0). *)
Definition skipped_page_warning (i : nat) (message : string) : list string :=
  ["Skipping corrupted page " ++ str (Z.of_nat i + 1) ++ ":"; message].

(** ** The recent-activity list, as the specification reads it *)

(** One processed operation: what [app.process] passes to [saveRecentFile],
    and the time of the call. *)
Record operation : Type := mkOperation {
  op_tool : string;
  op_filename : string;
  op_size : Z;
  op_time : Z
}.

Definition entries_of (item : storedItem) : list entry :=
  match item with
  | StoredArray entries => entries
  | NoItem | NotAnArray _ => []
  end.

Section Recording.

Variable formatFileSize : Z -> string.
Variable toISOString : Z -> string.

Definition entry_of (op : operation) : entry :=
  mkEntry (op_time op) (op_tool op) (op_filename op)
          (formatFileSize (op_size op)) (toISOString (op_time op)).

(** The storage after [saveRecentFile] ran for one operation. *)
Definition record_operation (quota_ok : bool) (item : storedItem) (op : operation)
  : storedItem :=
  match Async.result (saveRecentFile formatFileSize toISOString
                        (op_tool op) (op_filename op) (op_size op) (op_time op)
                        quota_ok item) with
  | Returned item' => item'
  | Thrown _ => item
  end.

(** The storage after a sequence of operations, the first one first. *)
Definition record_operations (ops : list operation) (item : storedItem) : storedItem :=
  fold_left (record_operation true) ops item.

End Recording.

(** ** More of the application, as the specification reads it *)

(** A number that is not a negative integer. *)
Definition not_negative (n : number) : Prop :=
  match n with
  | Int z => 0 <= z
  | NaN => True
  end.

(** What holds of the set of pages while the parts are read. *)
Definition pages_ok (pages : JSSet.t) : Prop :=
  NoDup pages /\ Forall not_negative pages.

(** ** The application controller: tools and file intake *)

Module JSText.

(** [s.startsWith(prefix)] and [s.includes(sub)] for a search string of any
    length. *)
Fixpoint startsWith (prefix s : string) : bool :=
  match prefix, s with
  | EmptyString, _ => true
  | String _ _, EmptyString => false
  | String c prefix', String d s' => Ascii.eqb c d && startsWith prefix' s'
  end.

Fixpoint includes (sub s : string) : bool :=
  (startsWith sub s
   || match s with
      | EmptyString => false
      | String _ s' => includes sub s'
      end)%bool.

End JSText.

(** An entry of [app.toolDefs]; the icon and the description only feed the
    rendering of the cards and are left out. *)
Record toolDef : Type := mkTool {
  tool_id : string;
  tool_name : string;
  tool_category : string;
  tool_multiple : bool
}.

Definition toolDefs : list toolDef :=
  [ mkTool "merge" "Merge PDFs" "organize" true;
    mkTool "split" "Split PDF" "organize" false;
    mkTool "organize" "Organize Pages" "organize" false;
    mkTool "extract" "Extract Pages" "organize" false;
    mkTool "delete-pages" "Delete Pages" "organize" false;
    mkTool "rotate" "Rotate PDF" "organize" false;
    mkTool "reverse" "Reverse Pages" "organize" false;
    mkTool "compress" "Compress PDF" "optimize" false;
    mkTool "repair" "Repair PDF" "optimize" false;
    mkTool "optimize" "Optimize PDF" "optimize" false;
    mkTool "pdf-to-word" "PDF to Word" "convert" false;
    mkTool "pdf-to-excel" "PDF to Excel" "convert" false;
    mkTool "pdf-to-ppt" "PDF to PowerPoint" "convert" false;
    mkTool "pdf-to-jpg" "PDF to JPG" "convert" false;
    mkTool "pdf-to-png" "PDF to PNG" "convert" false;
    mkTool "pdf-to-text" "PDF to Text" "convert" false;
    mkTool "images-to-pdf" "Images to PDF" "convert" true;
    mkTool "word-to-pdf" "Word to PDF" "convert" false;
    mkTool "excel-to-pdf" "Excel to PDF" "convert" false;
    mkTool "ppt-to-pdf" "PowerPoint to PDF" "convert" false;
    mkTool "add-text" "Add Text" "edit" false;
    mkTool "add-image" "Add Image" "edit" false;
    mkTool "watermark" "Add Watermark" "security" false;
    mkTool "page-numbers" "Page Numbers" "edit" false;
    mkTool "header-footer" "Header/Footer" "edit" false;
    mkTool "protect" "Password Protect" "security" false;
    mkTool "unlock" "Unlock PDF" "security" false;
    mkTool "remove-metadata" "Remove Metadata" "security" false ].

(** [app.activeTool] and [app.files]. *)
Record appState : Type := mkApp {
  activeTool : option toolDef;
  files : list file
}.

Definition initialApp : appState := mkApp None [].

(** The test of [app.files.every] in [handleFiles], for the tool [tid]. *)
Definition file_accepted (tid : string) (f : file) : bool :=
  if JSText.includes "word" tid then isValidDoc f
  else if JSText.includes "images" tid then isValidImage f
  else if (JSText.includes "pdf" tid || negb (JSText.includes "-to-" tid))%bool
       then isValidPDF f
  else true.

(** What [handleFiles] shows in the end. *)
Inductive handled : Type :=
| NothingDone                          (* no active tool *)
| ErrorToast (message : string)
| Thumbnails (first : option file)     (* UI.renderThumbnails(app.files[0]) *)
| FileList (shown : list file).        (* UI.updateFileList(app.files) *)

Definition handleFiles (fileList : list file) (app : appState) : appState * handled :=
  match activeTool app with
  | None => (app, NothingDone)
  | Some t =>
      if (negb (tool_multiple t) && (1 <? List.length fileList)%nat)%bool then
        (app, ErrorToast "This tool accepts only one file at a time.")
      else
        let app := mkApp (Some t) fileList in
        let tid := tool_id t in
        let isValid := forallb (file_accepted tid) (files app) in
        if negb isValid then
          (mkApp (Some t) [], ErrorToast "Invalid file type for this tool.")
        else if (String.eqb tid "organize" || String.eqb tid "split"
                 || String.eqb tid "delete-pages")%bool then
          (app, Thumbnails (hd_error (files app)))
        else (app, FileList (files app))
  end.

(** The [accept] attribute [selectTool] gives the file input. *)
Definition accept_attribute (tid : string) : string :=
  if JSText.includes "word" tid then ".doc,.docx"
  else if JSText.includes "excel" tid then ".xls,.xlsx"
  else if JSText.includes "ppt" tid then ".ppt,.pptx"
  else if JSText.includes "images" tid then "image/jpeg,image/png,image/jpg"
  else ".pdf,application/pdf".

(** [selectTool(id)]: the tool is looked up and stored, then the workspace
    is reset.  For an id that is not in the list the lookup stores
    [undefined] and reading its icon throws, before the reset. *)
Definition selectTool (id : string) (app : appState) : appState * outcome string :=
  match find (fun t => String.eqb (tool_id t) id) toolDefs with
  | None => (mkApp None (files app), Thrown "TypeError")
  | Some t => (mkApp (Some t) [], Returned (accept_attribute (tool_id t)))
  end.

(** [array.splice(index, 1)] for an index that is not negative. *)
Fixpoint splice_one {A : Type} (index : nat) (l : list A) : list A :=
  match l, index with
  | [], _ => []
  | _ :: rest, O => rest
  | x :: rest, S i => x :: splice_one i rest
  end.

(** [removeFile(index)]; an empty list resets the workspace, which empties
    it again. *)
Definition removeFile (index : nat) (app : appState) : appState :=
  mkApp (activeTool app) (splice_one index (files app)).

(** Every stored file passed the test of the active tool, and a tool for
    one file holds at most one. *)
Definition files_ok (app : appState) : Prop :=
  match activeTool app with
  | None => True
  | Some t =>
      Forall (fun f => file_accepted (tool_id t) f = true) (files app)
      /\ (tool_multiple t = false -> (List.length (files app) <= 1)%nat)
  end.

(** What the user can do to the workspace, and the state after a series of
    such actions. *)
Inductive action : Type :=
| SelectTool (id : string)
| HandleFiles (fileList : list file)
| RemoveFile (index : nat).

Definition act (app : appState) (a : action) : appState :=
  match a with
  | SelectTool id => fst (selectTool id app)
  | HandleFiles fileList => fst (handleFiles fileList app)
  | RemoveFile index => removeFile index app
  end.

Definition after (actions : list action) : appState :=
  fold_left act actions initialApp.

(** ** Page thumbnails ([UI.pageState]) and the tools that use them *)

(** An element of [UI.pageState]; the DOM element is left out. *)
Module PageState.

Record t : Type := mk {
  originalIndex : Z;
  rotation : Z
}.

End PageState.

(** What pdf.js makes of a file: [getDocument] gives a document or rejects;
    a page of the document is drawn and read, giving its text items, or
    pdf.js throws on it. *)
Inductive viewPage : Type :=
| Drawn (items : list string)
| Undrawn (message : string).

Inductive viewFile : Type :=
| Opened (pages : list viewPage)
| Unopened (message : string).

Inductive toast : Type :=
| Toast (msg : string) (type : string).

Definition numPages (pdf : list viewPage) : nat := List.length pdf.

(** The loop of [renderThumbnails] from page [i] on, with [count] pages to
    go.  A page pdf.js throws on ends the loop, and the thumbnails pushed
    before it stay in [UI.pageState]. *)
Fixpoint render_from (pdf : list viewPage) (count : nat) (i : nat)
         (pageState : list PageState.t) : list PageState.t * option string :=
  match count with
  | O => (pageState, None)
  | S count' =>
      match nth_error pdf (i - 1) with
      | Some (Drawn _) =>
          render_from pdf count' (S i)
                      (pageState ++ [PageState.mk (Z.of_nat i - 1) 0])%list
      | Some (Undrawn message) => (pageState, Some message)
      | None => (pageState, Some "Invalid page request")
      end
  end.

Definition previews_failed : toast :=
  Toast "Could not generate previews. File might be encrypted or corrupted." "error".

(** [renderThumbnails(file)]: the new [UI.pageState] and the toasts shown.
    [app.files[0]] of an empty list is [undefined], on which
    [file.arrayBuffer()] throws. *)
Definition renderThumbnails (file : option viewFile) : list PageState.t * list toast :=
  let pageState := [] in
  match file with
  | None => (pageState, [previews_failed])
  | Some (Unopened _) => (pageState, [previews_failed])
  | Some (Opened pdf) =>
      let limit := Nat.min (numPages pdf) 50 in
      match render_from pdf limit 1 pageState with
      | (pageState, Some _) => (pageState, [previews_failed])
      | (pageState, None) =>
          (pageState,
           if (50 <? numPages pdf)%nat
           then [Toast ("Previewing first 50 of " ++ str (Z.of_nat (numPages pdf)) ++ " pages")
                       "warning"]
           else [])
      end
  end.

(** [array.findIndex(test)], [None] for -1. *)
Fixpoint findIndex {A : Type} (test : A -> bool) (l : list A) : option nat :=
  match l with
  | [] => None
  | x :: rest => if test x then Some O
                 else option_map S (findIndex test rest)
  end.

(** The element at [index] replaced by its image under [g]. *)
Fixpoint update_at {A : Type} (index : nat) (g : A -> A) (l : list A) : list A :=
  match l, index with
  | [], _ => []
  | x :: rest, O => g x :: rest
  | x :: rest, S i => x :: update_at i g rest
  end.

(** [app.rotatePage(index)]: the first thumbnail of that original index is
    turned by 90 degrees; [%] is the remainder of JavaScript. *)
Definition rotatePage (index : Z) (pageState : list PageState.t) : list PageState.t :=
  match findIndex (fun p => PageState.originalIndex p =? index) pageState with
  | Some at_ =>
      update_at at_ (fun page =>
          PageState.mk (PageState.originalIndex page)
                       (Z.rem (PageState.rotation page + 90) 360)) pageState
  | None => pageState
  end.

(** [app.deletePage(index)]. *)
Definition deletePage (index : Z) (pageState : list PageState.t) : list PageState.t :=
  match findIndex (fun p => PageState.originalIndex p =? index) pageState with
  | Some arrIdx => splice_one arrIdx pageState
  | None => pageState
  end.

(** [array.splice(index, 0, item)]. *)
Definition splice_in {A : Type} (index : nat) (item : A) (l : list A) : list A :=
  (firstn index l ++ item :: skipn index l)%list.

(** The [onEnd] handler of the sortable grid, for a drag from position
    [oldIndex] to position [newIndex].  The library reports positions of
    thumbnails; there is no result for an [oldIndex] past the end, where the
    handler would store [undefined]. *)
Definition onEnd (oldIndex newIndex : nat) (pageState : list PageState.t)
  : option (list PageState.t) :=
  match nth_error pageState oldIndex with
  | Some item => Some (splice_in newIndex item (splice_one oldIndex pageState))
  | None => None
  end.

(** The states of [UI.pageState] the user can reach for a file: the
    thumbnails as drawn, then rotated, deleted and dragged. *)
Inductive shown (file : viewFile) : list PageState.t -> Prop :=
| shown_rendered : shown file (fst (renderThumbnails (Some file)))
| shown_rotated index pageState :
    shown file pageState -> shown file (rotatePage index pageState)
| shown_deleted index pageState :
    shown file pageState -> shown file (deletePage index pageState)
| shown_dragged oldIndex newIndex pageState pageState' :
    shown file pageState ->
    onEnd oldIndex newIndex pageState = Some pageState' ->
    shown file pageState'.

Definition pages_shown (file : viewFile) : nat :=
  match file with
  | Opened pdf => Nat.min (numPages pdf) 50
  | Unopened _ => 0
  end.

Section Organize.

Context {Content : Type}.

(** [OrganizeTools.organize]. *)
Definition organize (f : pdfFile Content) (pageConfig : list PageState.t)
           (progressCallback : bool) : async (pdfFile Content) :=
  srcPdf <- load f ;;
  let newPdf := create in
  let total := Z.of_nat (List.length pageConfig) in
  newPdf <- for_loop (List.length pageConfig) 0 (fun i newPdf =>
      Async.report progressCallback
        (Percent.times (Percent.ratio (Z.of_nat i + 1) total) 100)
        ("Processing page " ++ str (Z.of_nat i + 1) ++ " of " ++ str total) ;;;
      match nth_error pageConfig i with
      | None => Async.throw "undefined config"
      | Some config =>
          page <- copyPage srcPdf (Int (PageState.originalIndex config)) ;;
          let page :=
            if PageState.rotation config =? 0 then page
            else let currentRotation := rotation page in
                 mkPage (content page) (currentRotation + PageState.rotation config) in
          Async.ret (addPage newPdf page)
      end) newPdf ;;
  save newPdf.

(** The page numbers the delete-pages branch of [app.process] passes to
    [deletePages]: those of the thumbnails at even positions. *)
Definition pagesToDelete (pageState : list PageState.t) : list number :=
  map (fun p => Int (PageState.originalIndex p + 1))
      (map snd (filter (fun ip => Nat.eqb (fst ip mod 2) 0)
                       (combine (seq 0 (List.length pageState)) pageState))).

Definition process_delete_pages (f : pdfFile Content) (pageState : list PageState.t)
           (progressCallback : bool) : async (pdfFile Content) :=
  deletePages f (pagesToDelete pageState) progressCallback.

(** The page an entry of the page configuration stands for. *)
Definition configured (ps : list (page Content)) (config : PageState.t)
  : list (page Content) :=
  match nth_error ps (Z.to_nat (PageState.originalIndex config)) with
  | Some p => [if PageState.rotation config =? 0 then p
               else rotate_page (PageState.rotation config) p]
  | None => []
  end.

End Organize.

(** What [UI.pageState] keeps true: the original indices are distinct and
    are those of pages shown, and the rotations are quarter turns. *)
Definition pageState_ok (count : nat) (pageState : list PageState.t) : Prop :=
  NoDup (map PageState.originalIndex pageState)
  /\ Forall (fun p => 0 <= PageState.originalIndex p < Z.of_nat count
                      /\ In (PageState.rotation p) [0; 90; 180; 270]) pageState.

(** The elements of a list at its odd positions, counted from 0. *)
Fixpoint odd_positions {A : Type} (l : list A) : list A :=
  match l with
  | _ :: x :: rest => x :: odd_positions rest
  | _ => []
  end.

(** ** Escaping ([escapeXml], [escapeHtml]) *)

(** [s.replace(/[...]/g, f)] for a class of single units: every unit of the
    class, those [f] is defined on, is replaced by its image. *)
Fixpoint replace_units (f : ascii -> option string) (s : string) : string :=
  match s with
  | EmptyString => EmptyString
  | String c s' =>
      match f c with
      | Some t => t
      | None => String c EmptyString
      end ++ replace_units f s'
  end.

Definition xml_entity (c : ascii) : option string :=
  match c with
  | "<"%char => Some "&lt;"
  | ">"%char => Some "&gt;"
  | "&"%char => Some "&amp;"
  | "'"%char => Some "&apos;"
  | "034"%char => Some "&quot;"
  | _ => None
  end.

Definition html_entity (c : ascii) : option string :=
  match c with
  | "<"%char => Some "&lt;"
  | ">"%char => Some "&gt;"
  | "&"%char => Some "&amp;"
  | "034"%char => Some "&quot;"
  | "'"%char => Some "&#039;"
  | _ => None
  end.

Definition escapeXml (unsafe : string) : string := replace_units xml_entity unsafe.

Definition escapeHtml (unsafe : string) : string := replace_units html_entity unsafe.

(** The units that open or close a tag or an attribute value. *)
Definition markup_unit (c : ascii) : bool :=
  (Ascii.eqb c "<" || Ascii.eqb c ">" || Ascii.eqb c "'" || Ascii.eqb c "034")%bool.

(** ** [OptimizeTools.removeDuplicates] *)

(** [PDFUtils.loadPDFForRendering]. *)
Definition loadPDFForRendering (file : viewFile) : async (list viewPage) :=
  match file with
  | Opened pdf => Async.ret pdf
  | Unopened message => Async.throw message
  end.

(** [pdf.getPage(pageNumber)] followed by [page.getTextContent()], and the
    [str] of each item. *)
Definition getTextItems (pdf : list viewPage) (pageNumber : nat) : async (list string) :=
  match pageNumber with
  | O => Async.throw "Invalid page request"
  | S index =>
      match nth_error pdf index with
      | Some (Drawn items) => Async.ret items
      | Some (Undrawn message) => Async.throw message
      | None => Async.throw "Invalid page request"
      end
  end.

(** [hashes.has(hash)] for a set of strings. *)
Definition hash_seen (hash : string) (hashes : list string) : bool :=
  existsb (String.eqb hash) hashes.

Section RemoveDuplicates.

Context {Content : Type}.

(** The file is read twice: by the PDF library, which gives [f], and by
    pdf.js, which gives [view]. *)
Definition removeDuplicates (f : pdfFile Content) (view : viewFile)
           (progressCallback : bool) : async (pdfFile Content) :=
  srcPdf <- load f ;;
  let pageCount := getPageCount srcPdf in
  let newPdf := create in
  pdfForRendering <- loadPDFForRendering view ;;
  st <- for_loop pageCount 0 (fun i (st : list string * document Content) =>
      let '(hashes, newPdf) := st in
      Async.report progressCallback
        (Percent.times (Percent.ratio (Z.of_nat i + 1) (Z.of_nat pageCount)) 100)
        ("Analyzing page " ++ str (Z.of_nat i + 1) ++ " of " ++ str (Z.of_nat pageCount)) ;;;
      items <- getTextItems pdfForRendering (i + 1) ;;
      let text := String.concat "" items in
      let hash := substring 0 500 text in
      if negb (hash_seen hash hashes) then
        copiedPage <- copyPage srcPdf (Int (Z.of_nat i)) ;;
        Async.ret ((hashes ++ [hash])%list, addPage newPdf copiedPage)
      else Async.ret st) ([], newPdf) ;;
  save (snd st).

End RemoveDuplicates.

(** What [removeDuplicates] compares pages by: the first 500 units of the
    text of the page. *)
Definition page_hash (items : list string) : string :=
  substring 0 500 (String.concat "" items).

(** No page before page [i] (from 0) has the hash of page [i]. *)
Definition first_with_hash (texts : list (list string)) (i : nat) : bool :=
  negb (existsb (fun j => String.eqb (page_hash (nth i texts []))
                                     (page_hash (nth j texts [])))
                (seq 0 i)).

(** One iteration of the loop of [removeDuplicates] on a readable
    document. *)
Definition duplicates_step {Content : Type} (ps : list (page Content))
           (texts : list (list string)) (st : list string * document Content) (i : nat)
  : list string * document Content :=
  let hash := page_hash (nth i texts []) in
  if hash_seen hash (fst st) then st
  else ((fst st ++ [hash])%list,
        match nth_error ps i with
        | Some p => (snd st ++ [Readable p])%list
        | None => snd st
        end).

(** ** More operations that copy a document *)

Section Copies.

Context {Content Image : Type}.

(** A new page of the size of the image, with the image drawn on it. *)
Variable image_page : Image -> Content.

(** [PDFUtils.createPDFFromImages]. *)
Definition createPDFFromImages (imageFiles : list (imageFile Image))
  : async (pdfFile Content) :=
  pdfDoc <- for_of imageFiles (fun f pdfDoc =>
      embedded <-
        Async.try_catch
          (if (String.eqb (image_type f) "image/jpeg"
               || String.eqb (image_type f) "image/jpg")%bool then
             image <- embedJpg (image_data f) ;; Async.ret (Some (Some image))
           else if String.eqb (image_type f) "image/png" then
             image <- embedPng (image_data f) ;; Async.ret (Some (Some image))
           else Async.ret (Some None))
          (fun e =>
             Async.warn ["Skipping invalid image:"; image_name f; e] ;;;
             Async.ret None) ;;
      match embedded with
      | None => Async.ret pdfDoc                       (* continue *)
      | Some (Some image) => Async.ret (addPage pdfDoc (mkPage (image_page image) 0))
      | Some None => Async.ret pdfDoc                  (* image is undefined *)
      end) create ;;
  save pdfDoc.

(** [OptimizeTools.linearize]. *)
Definition linearize (f : pdfFile Content) (progressCallback : bool)
  : async (pdfFile Content) :=
  Async.report progressCallback (Pct 30) "Processing PDF..." ;;;
  srcPdf <- load f ;;
  let newPdf := create in
  Async.report progressCallback (Pct 60) "Copying pages..." ;;;
  copiedPages <- copyPages srcPdf (getPageIndices srcPdf) ;;
  let newPdf := fold_left addPage copiedPages newPdf in
  Async.report progressCallback (Pct 90) "Saving..." ;;;
  bytes <- save newPdf ;;
  Async.report progressCallback (Pct 100) "Complete" ;;;
  Async.ret bytes.

(** [SecurityTools.unlock].  The password is passed on to the options of
    [PDFDocument.load]. *)
Definition unlock (f : pdfFile Content) (password : string) (progressCallback : bool)
  : async (pdfFile Content) :=
  Async.report progressCallback (Pct 50) "Attempting to unlock..." ;;;
  Async.try_catch
    (pdfDoc <- load f ;;
     Async.report progressCallback (Pct 80) "Creating unlocked copy..." ;;;
     let newPdf := create in
     copiedPages <- copyPages pdfDoc (getPageIndices pdfDoc) ;;
     let newPdf := fold_left addPage copiedPages newPdf in
     Async.report progressCallback (Pct 100) "Unlocked" ;;;
     save newPdf)
    (fun message =>
       Async.throw ("Failed to unlock PDF: " ++ message
                    ++ ". Password may be incorrect or PDF uses unsupported encryption.")).

(** [PDFUtils.validatePDF]. *)
Record validation : Type := mkValidation {
  valid : bool;
  pageCount : Z;
  error : option string
}.

Definition validatePDF (f : pdfFile Content) : async validation :=
  Async.try_catch
    (pdf <- load f ;;
     let pageCount := Z.of_nat (getPageCount pdf) in
     Async.ret (mkValidation (0 <? pageCount) pageCount None))
    (fun message => Async.ret (mkValidation false 0 (Some message))).

End Copies.

(** ** Drawing on pages: [addWatermark] and [addPageNumbers] *)

(** [s.replace(pattern, replacement)] for a pattern that is a string: the
    first occurrence is replaced.  The replacements made below are decimal
    numerals, in which no [$] occurs. *)
Fixpoint skip_units (count : nat) (s : string) : string :=
  match count, s with
  | O, _ => s
  | S _, EmptyString => EmptyString
  | S k, String _ s' => skip_units k s'
  end.

Fixpoint replace_first (pattern replacement s : string) : string :=
  if JSText.startsWith pattern s
  then replacement ++ skip_units (String.length pattern) s
  else match s with
       | EmptyString => EmptyString
       | String c s' => String c (replace_first pattern replacement s')
       end.

(** [format.replace('{page}', i + 1).replace('{total}', pages.length)]. *)
Definition pageText (format : string) (i total : nat) : string :=
  replace_first "{total}" (str (Z.of_nat total))
                (replace_first "{page}" (str (Z.of_nat i + 1)) format).

(** [value || fallback] for a string and for a number that may be
    [undefined]. *)
Definition string_or (value : option string) (fallback : string) : string :=
  match value with
  | None | Some EmptyString => fallback
  | Some s => s
  end.

Definition number_or (value : option Z) (fallback : Z) : Z :=
  match value with
  | None | Some 0 => fallback
  | Some z => z
  end.

Section Drawing.

Context {Content Style : Type}.

(** [page.drawText(text, options)].  The options (position, size, font,
    colour, opacity, angle) are computed from the configuration, here
    [style], and from the size of the page and of the text; the library
    throws on options it refuses, a colour component that is not a number
    among them. *)
Variable drawText : Style -> string -> page Content -> outcome (page Content).

Definition draw (style : Style) (text : string) (p : page Content) : async (page Content) :=
  ([], drawText style text p).

(** [pdfDoc.getPages()]: every page object is read. *)
Fixpoint getPages (doc : document Content) : async (list (page Content)) :=
  match doc with
  | [] => Async.ret []
  | Readable p :: rest => ps <- getPages rest ;; Async.ret (p :: ps)
  | Unreadable message :: _ => Async.throw message
  end.

(** [SecurityTools.addWatermark]. *)
Definition addWatermark (f : pdfFile Content) (watermarkText : string) (config : Style)
           (progressCallback : bool) : async (pdfFile Content) :=
  Async.report progressCallback (Pct 20) "Loading PDF..." ;;;
  pdfDoc <- load f ;;
  pages <- getPages pdfDoc ;;
  Async.report progressCallback (Pct 50) "Adding watermark..." ;;;
  let count := Z.of_nat (List.length pages) in
  pages <- for_loop (List.length pages) 0 (fun i pages =>
      Async.report progressCallback
        (Percent.plus 50 (Percent.times (Percent.ratio (Z.of_nat i + 1) count) 40))
        ("Processing page " ++ str (Z.of_nat i + 1) ++ " of " ++ str count) ;;;
      match nth_error pages i with
      | None => Async.throw "undefined page"
      | Some page =>
          drawn <- draw config watermarkText page ;;
          Async.ret (update_at i (fun _ => drawn) pages)
      end) pages ;;
  Async.report progressCallback (Pct 100) "Complete" ;;;
  save (map Readable pages).

(** [SecurityTools.addPageNumbers]; of the configuration, [format] and
    [startPage] are read here and the rest goes to the drawing. *)
Definition addPageNumbers (f : pdfFile Content) (format : option string)
           (startPage : option Z) (config : Style)
           (progressCallback : bool) : async (pdfFile Content) :=
  Async.report progressCallback (Pct 20) "Loading PDF..." ;;;
  pdfDoc <- load f ;;
  pages <- getPages pdfDoc ;;
  Async.report progressCallback (Pct 50) "Adding page numbers..." ;;;
  let format := string_or format "{page}" in
  let startPage := number_or startPage 1 in
  let count := List.length pages in
  pages <- for_loop count 0 (fun i pages =>
      if Z.of_nat i <? startPage - 1 then Async.ret pages       (* continue *)
      else
        Async.report progressCallback
          (Percent.plus 50
             (Percent.times (Percent.ratio (Z.of_nat i + 1) (Z.of_nat count)) 45))
          ("Adding number to page " ++ str (Z.of_nat i + 1) ++ " of "
             ++ str (Z.of_nat count)) ;;;
        match nth_error pages i with
        | None => Async.throw "undefined page"
        | Some page =>
            drawn <- draw config (pageText format i count) page ;;
            Async.ret (update_at i (fun _ => drawn) pages)
        end) pages ;;
  Async.report progressCallback (Pct 100) "Complete" ;;;
  save (map Readable pages).

(** The pages [addPageNumbers] returns when every drawing succeeds. *)
Definition numbered (g : string -> page Content -> page Content)
           (format : option string) (startPage : option Z)
           (count : nat) (i : nat) (p : page Content) : page Content :=
  if Z.of_nat i <? number_or startPage 1 - 1 then p
  else g (pageText (string_or format "{page}") i count) p.

End Drawing.

(** A unit that is not an opening brace. *)
Definition not_brace (c : ascii) : bool := negb (Ascii.eqb c "{").

(** ** What the user is shown: [UI.getTimeAgo] and [UI.updateProgress] *)

Section TimeAgo.

(** [date.toLocaleDateString()] depends on the locale and is taken as
    given; a date is its time value in milliseconds, [None] for an invalid
    date. *)
Variable toLocaleDateString : option Z -> string.

(** [getTimeAgo(date)] at the time [now].  For an invalid date [seconds] is
    [NaN], and every comparison with it is false. *)
Definition getTimeAgo (now : Z) (date : option Z) : string :=
  match date with
  | None => toLocaleDateString date
  | Some time =>
      let seconds := (now - time) / 1000 in
      if seconds <? 60 then "Just now"
      else if seconds <? 3600 then str (seconds / 60) ++ "m ago"
      else if seconds <? 86400 then str (seconds / 3600) ++ "h ago"
      else if seconds <? 604800 then str (seconds / 86400) ++ "d ago"
      else toLocaleDateString date
  end.

End TimeAgo.

(** [Math.max(c, p)], [Math.min(c, p)] and [Math.round(p)] for a constant
    [c]; the rounded value is an integer, an infinity or [NaN]. *)
Definition Math_max (c : Q) (p : percent) : percent :=
  match p with
  | Pct q => Pct (if Qle_bool c q then q else c)
  | PctInfinity true => Pct c
  | PctInfinity false => PctInfinity false
  | PctNaN => PctNaN
  end.

Definition Math_min (c : Q) (p : percent) : percent :=
  match p with
  | Pct q => Pct (if Qle_bool c q then c else q)
  | PctInfinity true => PctInfinity true
  | PctInfinity false => Pct c
  | PctNaN => PctNaN
  end.

Definition Math_round (p : percent) : percent :=
  match p with
  | Pct q => Pct (inject_Z (Qfloor (q + (1 # 2))))
  | other => other
  end.

(** [UI.updateProgress(percent, text)]: the width of the bar and the number
    beside it, both followed by [%] on the page. *)
Definition updateProgress (value : percent) : percent * percent :=
  (Math_min 100 (Math_max 0 value), Math_round value).

(** ** [EditTools.addText] *)

Section AddText.

Context {Content Style : Type}.

Variable drawText : Style -> string -> page Content -> outcome (page Content).

(** [addText]; of the text configuration, [text] and [pages] are read here
    and the rest goes to the drawing. *)
Definition addText (f : pdfFile Content) (text : string) (pages_ : string)
           (textConfig : Style) (progressCallback : bool) : async (pdfFile Content) :=
  Async.report progressCallback (Pct 20) "Loading PDF..." ;;;
  pdfDoc <- load f ;;
  pages <- getPages pdfDoc ;;
  Async.report progressCallback (Pct 50) "Adding text..." ;;;
  let targetPages :=
    if String.eqb pages_ "all"
    then map (fun i => Int (Z.of_nat i)) (seq 0 (List.length pages))
    else [js_sub (JSString.parseInt pages_) (Int 1)] in
  pages <- for_of targetPages (fun pageIndex pages =>
      if (js_ge pageIndex (Int 0)
          && js_lt pageIndex (Int (Z.of_nat (List.length pages))))%bool then
        match pageIndex with
        | Int index =>
            match nth_error pages (Z.to_nat index) with
            | Some page =>
                drawn <- draw drawText textConfig text page ;;
                Async.ret (update_at (Z.to_nat index) (fun _ => drawn) pages)
            | None => Async.throw "undefined page"
            end
        | NaN => Async.throw "undefined page"
        end
      else Async.ret pages) pages ;;
  Async.report progressCallback (Pct 90) "Saving..." ;;;
  pdfBytes <- save (map Readable pages) ;;
  Async.report progressCallback (Pct 100) "Complete" ;;;
  Async.ret pdfBytes.

End AddText.

(** One target page of [addText] when the drawing [h] succeeds: the page at
    the index gets the text, and an index that is no page of the document
    changes nothing. *)
Definition text_step {Content : Type} (h : page Content -> page Content)
           (pages : list (page Content)) (pageIndex : number) : list (page Content) :=
  match pageIndex with
  | Int index =>
      if (0 <=? index) && (index <? Z.of_nat (List.length pages))
      then update_at (Z.to_nat index) h pages
      else pages
  | NaN => pages
  end.

(** ** Text extraction and the conversions made from it *)

Definition newline : string := String "010"%char EmptyString.
Definition quote : string := String "034"%char EmptyString.

(** [s.split(sep)] for a separator of one unit or more: the pieces between
    the occurrences of the separator, found from the left.  [skip] counts
    the units of an occurrence that are still to be passed over. *)
Fixpoint split_from (sep : string) (skip : nat) (s : string) : list string :=
  match s with
  | EmptyString => [EmptyString]
  | String c s' =>
      match skip with
      | S k => split_from sep k s'
      | O =>
          if JSText.startsWith sep s
          then EmptyString :: split_from sep (String.length sep - 1) s'
          else match split_from sep 0 s' with
               | [] => [String c EmptyString]
               | p :: ps => String c p :: ps
               end
      end
  end.

Definition split_on (sep s : string) : list string := split_from sep 0 s.

(** [PDFUtils.extractTextFromPDF]. *)
Definition extractTextFromPDF (file : viewFile) : async string :=
  pdfDoc <- loadPDFForRendering file ;;
  for_loop (numPages pdfDoc) 1 (fun i fullText =>
      items <- getTextItems pdfDoc i ;;
      let pageText := String.concat " " items in
      Async.ret (fullText ++ newline ++ "--- Page " ++ str (Z.of_nat i) ++ " ---"
                   ++ newline ++ pageText ++ newline)) "".

(** [ConvertFromTools.toText]; the result is the text of the blob. *)
Definition toText (file : viewFile) (progressCallback : bool) : async string :=
  Async.report progressCallback (Pct 20) "Extracting text from PDF..." ;;;
  text <- extractTextFromPDF file ;;
  Async.report progressCallback (Pct 100) "Extraction complete" ;;;
  Async.ret text.

(** [s.replace(/\n/g, '<br>')]. *)
Definition line_breaks (s : string) : string :=
  replace_units (fun c => if Ascii.eqb c "010" then Some "<br>" else None) s.

(** The section [toHTML] makes of piece [i] (from 0) of the text. *)
Definition html_block (i : nat) (page : string) : string :=
  newline ++ "    <div class=" ++ quote ++ "page" ++ quote ++ ">" ++ newline ++
  "        <h2>Page " ++ str (Z.of_nat i + 1) ++
  "</h2>" ++ newline ++ "        <p>" ++
  line_breaks (escapeHtml (JSString.trim page)) ++
  "</p>" ++ newline ++ "    </div>" ++ newline ++ "    ".

Definition html_head : string :=
  "<!DOCTYPE html>" ++ newline ++ "<html lang=" ++ quote ++ "en" ++ quote ++ ">" ++
  newline ++ "<head>" ++ newline ++ "    <meta charset=" ++ quote ++ "UTF-8" ++
  quote ++ ">" ++ newline ++ "    <meta name=" ++ quote ++ "viewport" ++ quote ++
  " content=" ++ quote ++ "width=device-width, initial-scale=1.0" ++ quote ++ ">" ++
  newline ++ "    <title>Converted PDF</title>" ++ newline ++ "    <style>" ++
  newline ++ "        body {" ++ newline ++
  "            font-family: Arial, sans-serif;" ++ newline ++
  "            max-width: 800px;" ++ newline ++ "            margin: 40px auto;" ++
  newline ++ "            padding: 20px;" ++ newline ++
  "            line-height: 1.6;" ++ newline ++ "        }" ++ newline ++
  "        .page {" ++ newline ++ "            margin-bottom: 40px;" ++ newline ++
  "            padding-bottom: 40px;" ++ newline ++
  "            border-bottom: 2px solid #eee;" ++ newline ++ "        }" ++ newline ++
  "    </style>" ++ newline ++ "</head>" ++ newline ++ "<body>" ++ newline ++ "    ".

Definition html_tail : string :=
  newline ++ "</body>" ++ newline ++ "</html>".

(** [ConvertFromTools.toHTML]; the result is the text of the blob. *)
Definition toHTML (file : viewFile) (progressCallback : bool) : async string :=
  Async.report progressCallback (Pct 20) "Extracting content..." ;;;
  text <- extractTextFromPDF file ;;
  Async.report progressCallback (Pct 60) "Creating HTML..." ;;;
  let html :=
    html_head
    ++ String.concat "" (mapi_from html_block 0 (split_on "---" text))
    ++ html_tail in
  Async.report progressCallback (Pct 100) "Conversion complete" ;;;
  Async.ret html.

(** [text.split('\n').filter(line => line.trim())], the lines [toWord]
    turns into paragraphs and [toExcel] into rows. *)
Definition text_lines (text : string) : list string :=
  filter (fun line => negb (String.eqb (JSString.trim line) ""))
         (JSString.split "010" text).

(** The content of [word/document.xml] in [toWord]. *)
Definition word_head : string :=
  "<?xml version=" ++ quote ++ "1.0" ++ quote ++ " encoding=" ++ quote ++ "UTF-8" ++
  quote ++ " standalone=" ++ quote ++ "yes" ++ quote ++ "?>" ++ newline ++
  "<w:document xmlns:w=" ++ quote ++
  "http://schemas.openxmlformats.org/wordprocessingml/2006/main" ++ quote ++ ">" ++
  newline ++ "  <w:body>" ++ newline ++ "    ".

Definition word_tail : string :=
  newline ++ "  </w:body>" ++ newline ++ "</w:document>".

Definition word_paragraph (line : string) : string :=
  newline ++ "    <w:p>" ++ newline ++ "      <w:r>" ++ newline ++ "        <w:t>" ++
  escapeXml line ++
  "</w:t>" ++ newline ++ "      </w:r>" ++ newline ++ "    </w:p>".

Definition docContent (text : string) : string :=
  word_head ++ String.concat "" (map word_paragraph (text_lines text)) ++ word_tail.

(** The array of rows [toExcel] passes to [aoa_to_sheet]. *)
Definition excel_data (text : string) : list (list string) :=
  map (fun line => [line]) (text_lines text).

(** The text [extractTextFromPDF] returns for pages with the given text
    items: for each page a marker line with its number, then its text. *)
Definition page_marker (i : nat) : string :=
  "--- Page " ++ str (Z.of_nat i) ++ " ---".

Definition page_block (i : nat) (items : list string) : string :=
  newline ++ page_marker i ++ newline ++ String.concat " " items ++ newline.

Definition fullText (texts : list (list string)) : string :=
  String.concat "" (mapi_from page_block 1 texts).

(** A piece with a text put before it. *)
Definition prepend (u : string) (pieces : list string) : list string :=
  match pieces with
  | [] => [u]
  | p :: ps => (u ++ p) :: ps
  end.

(** The pieces between the occurrences of [---] in the text of the pages
    from number [i] on, when no page has [---] in its own text. *)
Fixpoint marker_pieces (i : nat) (texts : list (list string)) : list string :=
  match texts with
  | [] => [EmptyString]
  | items :: rest =>
      newline
        :: (" Page " ++ str (Z.of_nat i) ++ " ")
        :: prepend (newline ++ String.concat " " items ++ newline)
                   (marker_pieces (S i) rest)
  end.

(** ** [app.process]: the tool function called and what is recorded *)

(** The tool functions [process] calls. *)
Inductive toolFunction : Type :=
| OrganizeTools_merge | OrganizeTools_split | OrganizeTools_organize
| OrganizeTools_extract | OrganizeTools_deletePages | OrganizeTools_rotateAll
| OrganizeTools_reverse
| OptimizeTools_compress | OptimizeTools_repair | OptimizeTools_optimize
| ConvertFromTools_toWord | ConvertFromTools_toExcel | ConvertFromTools_toPowerPoint
| ConvertFromTools_toImages (format : string) | ConvertFromTools_toText
| ConvertToTools_imagesToPDF | ConvertToTools_wordToPDF | ConvertToTools_excelToPDF
| SecurityTools_addWatermark | EditTools_addText | SecurityTools_addPageNumbers
| SecurityTools_unlock | SecurityTools_removeMetadata.

(** What a tool function resolves to: the bytes [save] returns, a [Blob], or
    an array of results; with the byte length, the size or the length. *)
Inductive resolved : Type :=
| Uint8Array (byteLength : Z)
| Blob (size : Z)
| Results (length : Z).

Inductive resolvedKind : Type := BytesKind | BlobKind | ResultsKind.

(** The [return] of each tool function. *)
Definition returns (f : toolFunction) : resolvedKind :=
  match f with
  | OrganizeTools_merge | OrganizeTools_organize | OrganizeTools_extract
  | OrganizeTools_deletePages | OrganizeTools_rotateAll | OrganizeTools_reverse
  | OptimizeTools_repair
  | ConvertToTools_imagesToPDF | ConvertToTools_excelToPDF
  | SecurityTools_addWatermark | SecurityTools_addPageNumbers | SecurityTools_unlock =>
      BytesKind
  | OrganizeTools_split | ConvertFromTools_toImages _ => ResultsKind
  | OptimizeTools_compress | OptimizeTools_optimize
  | ConvertFromTools_toWord | ConvertFromTools_toExcel | ConvertFromTools_toPowerPoint
  | ConvertFromTools_toText | ConvertToTools_wordToPDF
  | EditTools_addText | SecurityTools_removeMetadata => BlobKind
  end.

Definition resolve (f : toolFunction) (n : Z) : resolved :=
  match returns f with
  | BytesKind => Uint8Array n
  | BlobKind => Blob n
  | ResultsKind => Results n
  end.

(** One branch of the chain of comparisons in [process]: the result of the
    function is kept as it is or put into [new Blob([bytes], ...)], and the
    file name is made of a prefix, the time stamp and an extension; or the
    function gives [multipleResults]. *)
Inductive branch : Type :=
| SingleResult (f : toolFunction) (wrapped : bool) (prefix extension : string)
| MultipleResults (f : toolFunction).

Definition process_branch (tid : string) : option branch :=
  if String.eqb tid "merge" then Some (SingleResult OrganizeTools_merge false "merged_" ".pdf")
  else if String.eqb tid "split" then Some (MultipleResults OrganizeTools_split)
  else if String.eqb tid "organize" then
    Some (SingleResult OrganizeTools_organize false "organized_" ".pdf")
  else if String.eqb tid "extract" then
    Some (SingleResult OrganizeTools_extract false "extracted_" ".pdf")
  else if String.eqb tid "delete-pages" then
    Some (SingleResult OrganizeTools_deletePages false "modified_" ".pdf")
  else if String.eqb tid "rotate" then
    Some (SingleResult OrganizeTools_rotateAll false "rotated_" ".pdf")
  else if String.eqb tid "reverse" then
    Some (SingleResult OrganizeTools_reverse false "reversed_" ".pdf")
  else if String.eqb tid "compress" then
    Some (SingleResult OptimizeTools_compress false "compressed_" ".pdf")
  else if String.eqb tid "repair" then
    Some (SingleResult OptimizeTools_repair false "repaired_" ".pdf")
  else if String.eqb tid "optimize" then
    Some (SingleResult OptimizeTools_optimize false "optimized_" ".pdf")
  else if String.eqb tid "pdf-to-word" then
    Some (SingleResult ConvertFromTools_toWord false "converted_" ".docx")
  else if String.eqb tid "pdf-to-excel" then
    Some (SingleResult ConvertFromTools_toExcel false "converted_" ".xlsx")
  else if String.eqb tid "pdf-to-ppt" then
    Some (SingleResult ConvertFromTools_toPowerPoint false "converted_" ".pptx")
  else if String.eqb tid "pdf-to-jpg" then Some (MultipleResults (ConvertFromTools_toImages "jpg"))
  else if String.eqb tid "pdf-to-png" then Some (MultipleResults (ConvertFromTools_toImages "png"))
  else if String.eqb tid "pdf-to-text" then
    Some (SingleResult ConvertFromTools_toText false "extracted_" ".txt")
  else if String.eqb tid "images-to-pdf" then
    Some (SingleResult ConvertToTools_imagesToPDF true "images_" ".pdf")
  else if String.eqb tid "word-to-pdf" then
    Some (SingleResult ConvertToTools_wordToPDF false "converted_" ".pdf")
  else if String.eqb tid "excel-to-pdf" then
    Some (SingleResult ConvertToTools_excelToPDF true "converted_" ".pdf")
  else if String.eqb tid "watermark" then
    Some (SingleResult SecurityTools_addWatermark true "watermarked_" ".pdf")
  else if String.eqb tid "add-text" then
    Some (SingleResult EditTools_addText false "text_added_" ".pdf")
  else if String.eqb tid "page-numbers" then
    Some (SingleResult SecurityTools_addPageNumbers true "numbered_" ".pdf")
  else if String.eqb tid "unlock" then
    Some (SingleResult SecurityTools_unlock true "unlocked_" ".pdf")
  else if String.eqb tid "remove-metadata" then
    Some (SingleResult SecurityTools_removeMetadata false "cleaned_" ".pdf")
  else None.

(** [new Blob([value], ...)] and [value.size], which only a [Blob] has. *)
Definition new_Blob (value : resolved) : resolved :=
  match value with
  | Uint8Array byteLength => Blob byteLength
  | other => other
  end.

Definition size_of (value : resolved) : option Z :=
  match value with
  | Blob size => Some size
  | _ => None
  end.

(** The arguments [process] passes to [saveRecentFile] for the active tool:
    the name of the tool, [resultFilename] and [resultBlob?.size || 0].
    [run] tells how the tool function ends, with the length or size of what
    it resolves to; when it throws, nothing is recorded. *)
Definition process_records (t : toolDef) (timestamp : string)
           (run : toolFunction -> outcome Z) : option (string * string * Z) :=
  match process_branch (tool_id t) with
  | None => Some (tool_name t, "", number_or None 0)
  | Some (MultipleResults f) =>
      match run f with
      | Returned _ => Some (tool_name t, "", number_or None 0)
      | Thrown _ => None
      end
  | Some (SingleResult f wrapped prefix extension) =>
      match run f with
      | Returned n =>
          let value := resolve f n in
          let resultBlob := if wrapped then new_Blob value else value in
          Some (tool_name t, prefix ++ timestamp ++ extension,
                number_or (size_of resultBlob) 0)
      | Thrown _ => None
      end
  end.

(** The id is one of a list. *)
Definition among (id : string) (ids : list string) : bool :=
  existsb (String.eqb id) ids.

(** ** Operations that draw the pages with pdf.js *)

(** The helper templates of the PPTX package. *)
Definition content_type_override (i : nat) : string :=
  "<Override PartName=" ++ quote ++ "/ppt/slides/slide" ++ str (Z.of_nat i + 1) ++
  ".xml" ++ quote ++ " ContentType=" ++ quote ++
  "application/vnd.openxmlformats-officedocument.presentationml.slide+xml" ++ quote ++
  "/>".

Definition createPPTXContentTypes (slideCount : nat) : string :=
  let slides := String.concat newline (map content_type_override (seq 0 slideCount)) in
  "<?xml version=" ++ quote ++ "1.0" ++ quote ++ " encoding=" ++ quote ++ "UTF-8" ++
  quote ++ " standalone=" ++ quote ++ "yes" ++ quote ++ "?>" ++ newline ++
  "<Types xmlns=" ++ quote ++
  "http://schemas.openxmlformats.org/package/2006/content-types" ++ quote ++ ">" ++
  newline ++ "  <Default Extension=" ++ quote ++ "rels" ++ quote ++ " ContentType=" ++
  quote ++ "application/vnd.openxmlformats-package.relationships+xml" ++ quote ++
  "/>" ++ newline ++ "  <Default Extension=" ++ quote ++ "xml" ++ quote ++
  " ContentType=" ++ quote ++ "application/xml" ++ quote ++ "/>" ++ newline ++
  "  <Default Extension=" ++ quote ++ "jpeg" ++ quote ++ " ContentType=" ++ quote ++
  "image/jpeg" ++ quote ++ "/>" ++ newline ++ "  <Override PartName=" ++ quote ++
  "/ppt/presentation.xml" ++ quote ++ " ContentType=" ++ quote ++
  "application/vnd.openxmlformats-officedocument.presentationml.presentation.main+xml" ++
  quote ++ "/>" ++ newline ++ "  " ++ slides ++ newline ++ "</Types>".

Definition createPPTXRels : string :=
  "<?xml version=" ++ quote ++ "1.0" ++ quote ++ " encoding=" ++ quote ++ "UTF-8" ++
  quote ++ " standalone=" ++ quote ++ "yes" ++ quote ++ "?>" ++ newline ++
  "<Relationships xmlns=" ++ quote ++
  "http://schemas.openxmlformats.org/package/2006/relationships" ++ quote ++ ">" ++
  newline ++ "  <Relationship Id=" ++ quote ++ "rId1" ++ quote ++ " Type=" ++ quote ++
  "http://schemas.openxmlformats.org/officeDocument/2006/relationships/officeDocument" ++
  quote ++ " Target=" ++ quote ++ "ppt/presentation.xml" ++ quote ++ "/>" ++ newline ++
  "</Relationships>".

Definition slide_id (i : nat) : string :=
  "<p:sldId id=" ++ quote ++ str (256 + Z.of_nat i) ++ quote ++ " r:id=" ++ quote ++
  "rId" ++ str (Z.of_nat i + 1) ++ quote ++ "/>".

Definition createPPTXPresentation (slideCount : nat) : string :=
  let slideIds := String.concat newline (map slide_id (seq 0 slideCount)) in
  "<?xml version=" ++ quote ++ "1.0" ++ quote ++ " encoding=" ++ quote ++ "UTF-8" ++
  quote ++ " standalone=" ++ quote ++ "yes" ++ quote ++ "?>" ++ newline ++
  "<p:presentation xmlns:a=" ++ quote ++
  "http://schemas.openxmlformats.org/drawingml/2006/main" ++ quote ++ " xmlns:r=" ++
  quote ++ "http://schemas.openxmlformats.org/officeDocument/2006/relationships" ++
  quote ++ " xmlns:p=" ++ quote ++
  "http://schemas.openxmlformats.org/presentationml/2006/main" ++ quote ++ ">" ++
  newline ++ "  <p:sldIdLst>" ++ newline ++ "    " ++ slideIds ++ newline ++
  "  </p:sldIdLst>" ++ newline ++ "  <p:sldSz cx=" ++ quote ++ "9144000" ++ quote ++
  " cy=" ++ quote ++ "6858000" ++ quote ++ "/>" ++ newline ++ "</p:presentation>".

Definition createPPTXSlide (slideNum : Z) : string :=
  "<?xml version=" ++ quote ++ "1.0" ++ quote ++ " encoding=" ++ quote ++ "UTF-8" ++
  quote ++ " standalone=" ++ quote ++ "yes" ++ quote ++ "?>" ++ newline ++
  "<p:sld xmlns:a=" ++ quote ++
  "http://schemas.openxmlformats.org/drawingml/2006/main" ++ quote ++ " xmlns:r=" ++
  quote ++ "http://schemas.openxmlformats.org/officeDocument/2006/relationships" ++
  quote ++ " xmlns:p=" ++ quote ++
  "http://schemas.openxmlformats.org/presentationml/2006/main" ++ quote ++ ">" ++
  newline ++ "  <p:cSld>" ++ newline ++ "    <p:spTree>" ++ newline ++
  "      <p:nvGrpSpPr><p:cNvPr id=" ++ quote ++ "1" ++ quote ++ " name=" ++ quote ++
  quote ++ "/><p:cNvGrpSpPr/><p:nvPr/></p:nvGrpSpPr>" ++ newline ++
  "      <p:grpSpPr/>" ++ newline ++ "      <p:pic>" ++ newline ++
  "        <p:nvPicPr>" ++ newline ++ "          <p:cNvPr id=" ++ quote ++ "2" ++
  quote ++ " name=" ++ quote ++ "Image" ++ quote ++ "/>" ++ newline ++
  "          <p:cNvPicPr/>" ++ newline ++ "          <p:nvPr/>" ++ newline ++
  "        </p:nvPicPr>" ++ newline ++ "        <p:blipFill>" ++ newline ++
  "          <a:blip r:embed=" ++ quote ++ "rId1" ++ quote ++ "/>" ++ newline ++
  "          <a:stretch><a:fillRect/></a:stretch>" ++ newline ++
  "        </p:blipFill>" ++ newline ++ "        <p:spPr>" ++ newline ++
  "          <a:xfrm>" ++ newline ++ "            <a:off x=" ++ quote ++ "0" ++
  quote ++ " y=" ++ quote ++ "0" ++ quote ++ "/>" ++ newline ++
  "            <a:ext cx=" ++ quote ++ "9144000" ++ quote ++ " cy=" ++ quote ++
  "6858000" ++ quote ++ "/>" ++ newline ++ "          </a:xfrm>" ++ newline ++
  "          <a:prstGeom prst=" ++ quote ++ "rect" ++ quote ++ "/>" ++ newline ++
  "        </p:spPr>" ++ newline ++ "      </p:pic>" ++ newline ++ "    </p:spTree>" ++
  newline ++ "  </p:cSld>" ++ newline ++ "</p:sld>".

Definition createPPTXSlideRels (slideNum : Z) : string :=
  "<?xml version=" ++ quote ++ "1.0" ++ quote ++ " encoding=" ++ quote ++ "UTF-8" ++
  quote ++ " standalone=" ++ quote ++ "yes" ++ quote ++ "?>" ++ newline ++
  "<Relationships xmlns=" ++ quote ++
  "http://schemas.openxmlformats.org/package/2006/relationships" ++ quote ++ ">" ++
  newline ++ "  <Relationship Id=" ++ quote ++ "rId1" ++ quote ++ " Type=" ++ quote ++
  "http://schemas.openxmlformats.org/officeDocument/2006/relationships/image" ++
  quote ++ " Target=" ++ quote ++ "../media/image" ++ str slideNum ++ ".jpeg" ++
  quote ++ "/>" ++ newline ++ "</Relationships>".

(** A callback made of the caller's callback: the inner operation reports
    to [(progress, msg) => { if (progressCallback) progressCallback(scale
    progress, msg) }]. *)
Definition relay {A : Type} (progressCallback : bool) (scale : percent -> percent)
           (m : async A) : async A :=
  (flat_map (fun e => match e with
                      | Progress value text =>
                          if progressCallback then [Progress (scale value) text] else []
                      | Warning arguments => [Warning arguments]
                      end) (Async.events m),
   Async.result m).

Section Rendering.

Context {Content Image : Type}.

(** A page drawn on a canvas and encoded in a format, at the scale and the
    quality of the caller; pdf.js, the canvas or the decoding of the data
    URL may throw. *)
Variable rasterize : list string -> string -> outcome Image.

(** A new page of the size of the viewport, with the image drawn on it. *)
Variable image_page : Image -> Content.

Record pageImage : Type := mkPageImage {
  image_pageNumber : Z;
  image_blob : Image
}.

(** [PDFUtils.convertPDFToImages]. *)
Definition convertPDFToImages (file : viewFile) (format : string)
           (progressCallback : bool) : async (list pageImage) :=
  pdfDoc <- loadPDFForRendering file ;;
  let total := Z.of_nat (numPages pdfDoc) in
  for_loop (numPages pdfDoc) 1 (fun i images =>
      Async.report progressCallback
        (Percent.times (Percent.ratio (Z.of_nat i) total) 100)
        ("Converting page " ++ str (Z.of_nat i) ++ " of " ++ str total) ;;;
      page <- getTextItems pdfDoc i ;;
      image <- ([], rasterize page format) ;;
      Async.ret (images ++ [mkPageImage (Z.of_nat i) image])%list) [].

(** [ConvertFromTools.toImages]. *)
Definition toImages (file : viewFile) (format : string) (progressCallback : bool)
  : async (list pageImage) :=
  let mimeType := if String.eqb format "png" then "image/png" else "image/jpeg" in
  convertPDFToImages file mimeType progressCallback.

(** [PDFUtils.compressPDF]. *)
Definition compressPDF (file : viewFile) (progressCallback : bool)
  : async (pdfFile Content) :=
  pdfSource <- loadPDFForRendering file ;;
  let totalPages := Z.of_nat (numPages pdfSource) in
  newPdf <- for_loop (numPages pdfSource) 1 (fun i newPdf =>
      Async.report progressCallback
        (Percent.times (Percent.ratio (Z.of_nat i) totalPages) 100)
        ("Compressing page " ++ str (Z.of_nat i) ++ " of " ++ str totalPages) ;;;
      page <- getTextItems pdfSource i ;;
      jpgImage <- ([], rasterize page "image/jpeg") ;;
      Async.ret (addPage newPdf (mkPage (image_page jpgImage) 0))) create ;;
  save newPdf.

(** A part of a ZIP package. *)
Inductive part : Type :=
| Xml (text : string)
| Media (image : Image).

(** [ConvertFromTools.toPowerPoint]; the result is the list of the files of
    the package, in the order they were added. *)
Definition toPowerPoint (file : viewFile) (progressCallback : bool)
  : async (list (string * part)) :=
  Async.report progressCallback (Pct 10) "Converting pages to images..." ;;;
  images <- relay progressCallback
                  (fun progress => Percent.plus 10 (Percent.times progress (6 # 10)))
                  (convertPDFToImages file "image/jpeg" true) ;;
  Async.report progressCallback (Pct 70) "Creating PowerPoint file..." ;;;
  let count := List.length images in
  let zip :=
    [ ("[Content_Types].xml", Xml (createPPTXContentTypes count));
      ("_rels/.rels", Xml createPPTXRels);
      ("ppt/presentation.xml", Xml (createPPTXPresentation count)) ] in
  zip <- for_loop count 0 (fun i zip =>
      Async.report progressCallback
        (Percent.plus 70
           (Percent.times (Percent.ratio (Z.of_nat i + 1) (Z.of_nat count)) 25))
        ("Adding slide " ++ str (Z.of_nat i + 1) ++ " of " ++ str (Z.of_nat count)) ;;;
      match nth_error images i with
      | None => Async.throw "undefined image"
      | Some shown =>
          let slideNum := Z.of_nat i + 1 in
          Async.ret
            (zip ++ [ (("ppt/slides/slide" ++ str slideNum ++ ".xml")%string,
                       Xml (createPPTXSlide slideNum));
                      (("ppt/slides/_rels/slide" ++ str slideNum ++ ".xml.rels")%string,
                       Xml (createPPTXSlideRels slideNum));
                      (("ppt/media/image" ++ str slideNum ++ ".jpeg")%string,
                       Media (image_blob shown)) ])%list
      end) zip ;;
  Async.report progressCallback (Pct 95) "Generating file..." ;;;
  Async.report progressCallback (Pct 100) "Conversion complete" ;;;
  Async.ret zip.

End Rendering.

Arguments pageImage : clear implicits.
Arguments part : clear implicits.

(** The three files [toPowerPoint] adds to the package for image [i] (from
    0). *)
Definition slide_files {Image : Type} (i : nat) (shown : pageImage Image)
  : list (string * part Image) :=
  let slideNum := Z.of_nat i + 1 in
  [ ("ppt/slides/slide" ++ str slideNum ++ ".xml", Xml (createPPTXSlide slideNum));
    ("ppt/slides/_rels/slide" ++ str slideNum ++ ".xml.rels",
     Xml (createPPTXSlideRels slideNum));
    ("ppt/media/image" ++ str slideNum ++ ".jpeg", Media (image_blob shown)) ].

(** ** [PDFUtils.getTimestamp] *)

(** The units the pattern [/[:.]/g] matches, each replaced by a hyphen. *)
Definition timestamp_separator (c : ascii) : bool :=
  (Ascii.eqb c ":" || Ascii.eqb c ".")%bool.

Definition timestamp_unit (c : ascii) : option string :=
  if timestamp_separator c then Some "-" else None.

(** [s.slice(0, -k)]: the end is counted from the end of the string and is
    not before its start. *)
Definition slice_off (k : nat) (s : string) : string :=
  substring 0 (String.length s - k) s.

Section Timestamp.

(** [new Date().toISOString()] at the time [now]. *)
Variable toISOString : Z -> string.

Definition getTimestamp (now : Z) : string :=
  slice_off 5 (replace_units timestamp_unit (toISOString now)).

End Timestamp.

(** * Properties *)

(** ** Strings *)

Module StringFacts.

Lemma all_units_app P s t :
  all_units P (s ++ t) = (all_units P s && all_units P t)%bool.
Proof.
  induction s as [|c s IH]; simpl; [reflexivity|].
  now rewrite IH, andb_assoc.
Qed.

Lemma all_units_weaken (P Q : ascii -> bool) s :
  (forall c, P c = true -> Q c = true) ->
  all_units P s = true -> all_units Q s = true.
Proof.
  intros HPQ. induction s as [|c s IH]; simpl; [reflexivity|].
  intros [Hc Hs]%andb_prop. rewrite (HPQ c Hc), (IH Hs). reflexivity.
Qed.

Lemma numeral_text_digits d : all_units is_decimal_digit (numeral_text d) = true.
Proof. induction d; simpl; auto. Qed.

Lemma digit_is_digit_or_hyphen c : is_decimal_digit c = true -> digit_or_hyphen c = true.
Proof. unfold digit_or_hyphen. intros ->. reflexivity. Qed.

Lemma digit_or_hyphen_not_space c :
  digit_or_hyphen c = true -> JSString.is_white_space c = false.
Proof.
  destruct c as [[|] [|] [|] [|] [|] [|] [|] [|]]; vm_compute; congruence.
Qed.

Lemma digit_or_hyphen_not_comma c :
  digit_or_hyphen c = true -> Ascii.eqb c "," = false.
Proof.
  destruct c as [[|] [|] [|] [|] [|] [|] [|] [|]]; vm_compute; congruence.
Qed.

Lemma digit_not_hyphen c :
  is_decimal_digit c = true -> Ascii.eqb c "-" = false.
Proof.
  destruct c as [[|] [|] [|] [|] [|] [|] [|] [|]]; vm_compute; congruence.
Qed.

Lemma token_text_units t : all_units digit_or_hyphen (token_text t) = true.
Proof.
  destruct t as [n|a b]; simpl.
  - apply (all_units_weaken is_decimal_digit); [apply digit_is_digit_or_hyphen|].
    apply numeral_text_digits.
  - rewrite all_units_app. simpl.
    rewrite !(all_units_weaken is_decimal_digit digit_or_hyphen _
                digit_is_digit_or_hyphen (numeral_text_digits _)).
    reflexivity.
Qed.

(** *** [trim] leaves a text without white space alone *)

Lemma trimStart_no_space s :
  all_units (fun c => negb (JSString.is_white_space c)) s = true ->
  JSString.trimStart s = s.
Proof.
  destruct s as [|c s]; simpl; [reflexivity|].
  intros [Hc _]%andb_prop. apply negb_true_iff in Hc. now rewrite Hc.
Qed.

Lemma trimEnd_no_space s :
  all_units (fun c => negb (JSString.is_white_space c)) s = true ->
  JSString.trimEnd s = s.
Proof.
  induction s as [|c s IH]; simpl; [reflexivity|].
  intros [Hc Hs]%andb_prop. apply negb_true_iff in Hc.
  rewrite (IH Hs), Hc. destruct s; reflexivity.
Qed.

Lemma trim_no_space s :
  all_units (fun c => negb (JSString.is_white_space c)) s = true ->
  JSString.trim s = s.
Proof.
  intros H. unfold JSString.trim. rewrite (trimStart_no_space s H).
  now apply trimEnd_no_space.
Qed.

Lemma no_space_of_digit_or_hyphen s :
  all_units digit_or_hyphen s = true ->
  all_units (fun c => negb (JSString.is_white_space c)) s = true.
Proof.
  apply all_units_weaken. intros c Hc.
  now rewrite (digit_or_hyphen_not_space c Hc).
Qed.

(** *** [split] undoes the joining of texts without the separator *)

Lemma split_no_sep sep s :
  all_units (fun c => negb (Ascii.eqb c sep)) s = true ->
  JSString.split sep s = [s].
Proof.
  induction s as [|c s IH]; simpl; [reflexivity|].
  intros [Hc Hs]%andb_prop. apply negb_true_iff in Hc.
  now rewrite Hc, (IH Hs).
Qed.

Lemma split_app_sep sep s t :
  all_units (fun c => negb (Ascii.eqb c sep)) s = true ->
  JSString.split sep (s ++ String sep t) = s :: JSString.split sep t.
Proof.
  induction s as [|c s IH]; simpl.
  - intros _. now rewrite Ascii.eqb_refl.
  - intros [Hc Hs]%andb_prop. apply negb_true_iff in Hc.
    now rewrite Hc, (IH Hs).
Qed.

Lemma split_concat sep (texts : list string) :
  texts <> [] ->
  Forall (fun s => all_units (fun c => negb (Ascii.eqb c sep)) s = true) texts ->
  JSString.split sep (String.concat (String sep EmptyString) texts) = texts.
Proof.
  induction texts as [|s texts IH]; [congruence|].
  intros _ Hall. inversion Hall as [|? ? Hs Hrest]; subst.
  destruct texts as [|s' texts].
  - simpl. now apply split_no_sep.
  - change (String.concat (String sep "") (s :: s' :: texts))
      with (s ++ String sep (String.concat (String sep "") (s' :: texts))).
    rewrite (split_app_sep sep s _ Hs). f_equal.
    apply IH; [congruence|assumption].
Qed.

Lemma includes_false c s :
  all_units (fun d => negb (Ascii.eqb d c)) s = true ->
  JSString.includes c s = false.
Proof.
  induction s as [|d s IH]; simpl; [reflexivity|].
  intros [Hd Hs]%andb_prop. apply negb_true_iff in Hd. now rewrite Hd, (IH Hs).
Qed.

Lemma includes_app_sep c s t :
  JSString.includes c (s ++ String c t) = true.
Proof.
  induction s as [|d s IH]; simpl.
  - now rewrite Ascii.eqb_refl.
  - rewrite IH. now destruct (Ascii.eqb d c).
Qed.

End StringFacts.

(** ** [parseInt] reads decimal numerals *)

Module ParseIntFacts.

Import StringFacts.

Ltac value_of_cons :=
  unfold numeral_value, N.of_uint; rewrite !Unsigned.of_uint_alt;
  match goal with
  | |- context [rev (?D ?d)] =>
      change (rev (D d)) with (revapp d (D Nil));
      rewrite (Unsigned.of_lu_revapp d (D Nil))
  end;
  rewrite N2Z.inj_add, N2Z.inj_mul, N2Z.inj_pow; simpl Unsigned.of_lu;
  simpl Z.of_N; lia.

Lemma value_D0 d : numeral_value (D0 d) = 0 * 10 ^ Z.of_N (Unsigned.usize d) + numeral_value d.
Proof. value_of_cons. Qed.
Lemma value_D1 d : numeral_value (D1 d) = 1 * 10 ^ Z.of_N (Unsigned.usize d) + numeral_value d.
Proof. value_of_cons. Qed.
Lemma value_D2 d : numeral_value (D2 d) = 2 * 10 ^ Z.of_N (Unsigned.usize d) + numeral_value d.
Proof. value_of_cons. Qed.
Lemma value_D3 d : numeral_value (D3 d) = 3 * 10 ^ Z.of_N (Unsigned.usize d) + numeral_value d.
Proof. value_of_cons. Qed.
Lemma value_D4 d : numeral_value (D4 d) = 4 * 10 ^ Z.of_N (Unsigned.usize d) + numeral_value d.
Proof. value_of_cons. Qed.
Lemma value_D5 d : numeral_value (D5 d) = 5 * 10 ^ Z.of_N (Unsigned.usize d) + numeral_value d.
Proof. value_of_cons. Qed.
Lemma value_D6 d : numeral_value (D6 d) = 6 * 10 ^ Z.of_N (Unsigned.usize d) + numeral_value d.
Proof. value_of_cons. Qed.
Lemma value_D7 d : numeral_value (D7 d) = 7 * 10 ^ Z.of_N (Unsigned.usize d) + numeral_value d.
Proof. value_of_cons. Qed.
Lemma value_D8 d : numeral_value (D8 d) = 8 * 10 ^ Z.of_N (Unsigned.usize d) + numeral_value d.
Proof. value_of_cons. Qed.
Lemma value_D9 d : numeral_value (D9 d) = 9 * 10 ^ Z.of_N (Unsigned.usize d) + numeral_value d.
Proof. value_of_cons. Qed.

Lemma numeral_value_nonneg d : 0 <= numeral_value d.
Proof. unfold numeral_value. lia. Qed.

(** Once a digit has been read, the digits of a numeral extend the
    accumulator by their value. *)
Lemma parse_digits_numeral d : forall acc,
  JSString.parse_digits 10 acc true (numeral_text d)
  = Some (acc * 10 ^ Z.of_N (Unsigned.usize d) + numeral_value d).
Proof.
  induction d; intros acc;
    [ simpl; f_equal; change (numeral_value Nil) with 0; lia | .. ];
    (simpl numeral_text; unfold JSString.parse_digits; fold JSString.parse_digits;
     match goal with
     | |- context [JSString.digit_value 10 ?c] =>
         let v := eval vm_compute in (JSString.digit_value 10 c) in
         change (JSString.digit_value 10 c) with v
     end;
     cbv iota beta; rewrite IHd; f_equal;
     first [ rewrite value_D0 | rewrite value_D1 | rewrite value_D2 | rewrite value_D3
           | rewrite value_D4 | rewrite value_D5 | rewrite value_D6 | rewrite value_D7
           | rewrite value_D8 | rewrite value_D9 ];
     simpl Unsigned.usize; rewrite N2Z.inj_succ, Z.pow_succ_r by lia; ring).
Qed.

Lemma parse_digits_first d :
  d <> Nil ->
  JSString.parse_digits 10 0 false (numeral_text d) = Some (numeral_value d).
Proof.
  intros Hd. destruct d; [congruence | ..];
    (simpl numeral_text; unfold JSString.parse_digits; fold JSString.parse_digits;
     match goal with
     | |- context [JSString.digit_value 10 ?c] =>
         let v := eval vm_compute in (JSString.digit_value 10 c) in
         change (JSString.digit_value 10 c) with v
     end;
     cbv iota beta; rewrite parse_digits_numeral; f_equal;
     first [ rewrite value_D0 | rewrite value_D1 | rewrite value_D2 | rewrite value_D3
           | rewrite value_D4 | rewrite value_D5 | rewrite value_D6 | rewrite value_D7
           | rewrite value_D8 | rewrite value_D9 ];
     ring).
Qed.

(** A numeral has no [0x] prefix. *)
Lemma strip_prefix_numeral d :
  JSString.strip_prefix (numeral_text d) = (10, numeral_text d).
Proof.
  destruct d; try reflexivity.
  destruct d; reflexivity.
Qed.

Lemma magnitude_numeral d :
  d <> Nil -> JSString.magnitude (numeral_text d) = Some (numeral_value d).
Proof.
  intros Hd. unfold JSString.magnitude. rewrite strip_prefix_numeral.
  now apply parse_digits_first.
Qed.

Lemma parseInt_numeral d :
  d <> Nil -> JSString.parseInt (numeral_text d) = Int (numeral_value d).
Proof.
  intros Hd. pose proof (magnitude_numeral d Hd) as Hm.
  unfold JSString.parseInt.
  destruct d; [congruence | ..];
    (simpl numeral_text in *; simpl JSString.trimStart; cbv iota beta;
     rewrite Hm; reflexivity).
Qed.

Lemma parseInt_negated_numeral d :
  d <> Nil ->
  JSString.parseInt (String "-" (numeral_text d)) = Int (- numeral_value d).
Proof.
  intros Hd. unfold JSString.parseInt. simpl JSString.trimStart. cbv iota beta.
  now rewrite (magnitude_numeral d Hd).
Qed.

(** [parseInt] of a number that is an integer gives the integer back. *)
Lemma parseInt_number_Int z : parseInt_number (Int z) = Int z.
Proof.
  unfold parseInt_number, JSString.ToString, Z.to_int.
  destruct z as [|p|p].
  - reflexivity.
  - unfold NilZero.string_of_int, NilZero.string_of_uint.
    pose proof (Unsigned.to_uint_nonnil p) as Hnn.
    destruct (Pos.to_uint p) eqn:E; [congruence | ..];
      (rewrite <- E; fold (numeral_text (Pos.to_uint p));
       rewrite parseInt_numeral by (rewrite E; congruence);
       unfold numeral_value, N.of_uint; now rewrite DecimalPos.Unsigned.of_to).
  - unfold NilZero.string_of_int, NilZero.string_of_uint.
    pose proof (Unsigned.to_uint_nonnil p) as Hnn.
    destruct (Pos.to_uint p) eqn:E; [congruence | ..];
      (rewrite <- E; fold (numeral_text (Pos.to_uint p));
       rewrite parseInt_negated_numeral by (rewrite E; congruence);
       unfold numeral_value, N.of_uint; now rewrite DecimalPos.Unsigned.of_to).
Qed.

Lemma parseInt_number_NaN : parseInt_number NaN = NaN.
Proof. reflexivity. Qed.

End ParseIntFacts.

(** ** Sets and sorting of integers *)

Module NumberFacts.

Lemma has_Int x zs : JSSet.has (Int x) (map Int zs) = true <-> In x zs.
Proof.
  unfold JSSet.has. rewrite existsb_exists. split.
  - intros (y & Hy & Heq). apply in_map_iff in Hy as (z & <- & Hz).
    simpl in Heq. apply Z.eqb_eq in Heq. now subst.
  - intros Hx. exists (Int x). split; [now apply in_map|]. simpl. apply Z.eqb_refl.
Qed.

(** Adding an integer to a set of distinct integers. *)
Lemma add_Int x zs :
  NoDup zs ->
  exists zs', JSSet.add (Int x) (map Int zs) = map Int zs'
              /\ NoDup zs'
              /\ forall y, In y zs' <-> In y zs \/ y = x.
Proof.
  intros Hnd. unfold JSSet.add.
  destruct (JSSet.has (Int x) (map Int zs)) eqn:Hhas.
  - apply has_Int in Hhas. exists zs. repeat split; auto.
    intros [H| ->]; assumption.
  - assert (~ In x zs) as Hnot.
    { intros Hin. apply has_Int in Hin. congruence. }
    exists (zs ++ [x])%list. split; [now rewrite map_app|]. split.
    + apply NoDup_rev in Hnd. rewrite <- (rev_involutive (zs ++ [x])).
      apply NoDup_rev. rewrite rev_app_distr. simpl. constructor; [|assumption].
      now rewrite <- in_rev.
    + intros y. rewrite in_app_iff. simpl. intuition congruence.
Qed.

Lemma add_range_Int count : forall i zs,
  NoDup zs ->
  exists zs', add_range count i (map Int zs) = map Int zs'
              /\ NoDup zs'
              /\ forall y, In y zs' <-> In y zs \/ i <= y < i + Z.of_nat count.
Proof.
  induction count as [|count IH]; intros i zs Hnd.
  - exists zs. simpl. repeat split; auto. intros [H|H]; [assumption|lia].
  - simpl add_range.
    destruct (add_Int i zs Hnd) as (zs1 & -> & Hnd1 & Hin1).
    destruct (IH (i + 1) zs1 Hnd1) as (zs2 & -> & Hnd2 & Hin2).
    exists zs2. repeat split; auto.
    + intros Hy. apply Hin2 in Hy as [Hy|Hy]; [apply Hin1 in Hy as [Hy|Hy]|]; auto; lia.
    + intros [Hy|Hy]; apply Hin2.
      * left. apply Hin1. now left.
      * destruct (Z.eq_dec y i) as [->|Hne]; [left; apply Hin1; now right|right; lia].
Qed.

Lemma for_range_Int a b zs :
  NoDup zs ->
  exists zs', for_range (Int a) (Int b) (map Int zs) = map Int zs'
              /\ NoDup zs'
              /\ forall y, In y zs' <-> In y zs \/ a <= y <= b.
Proof.
  intros Hnd. unfold for_range.
  destruct (add_range_Int (Z.to_nat (b - a + 1)) a zs Hnd) as (zs' & -> & Hnd' & Hin).
  exists zs'. repeat split; auto.
  - intros Hy. apply Hin in Hy as [Hy|Hy]; [now left|right; lia].
  - intros [Hy|Hy]; apply Hin; [now left|right; lia].
Qed.

(** The numeric sort puts integers in ascending order. *)
Lemma sort_insert_Int x : forall l,
  StronglySorted Z.le l ->
  exists l', sort_insert (Int x) (map Int l) = map Int l'
             /\ StronglySorted Z.le l'
             /\ Permutation (x :: l) l'.
Proof.
  induction l as [|y l IH]; intros Hs.
  - exists [x]. repeat split; auto. repeat constructor.
  - inversion Hs as [|? ? Hs' Hall]; subst.
    simpl. unfold goes_after. simpl.
    destruct (0 <? x - y) eqn:Hcmp.
    + apply Z.ltb_lt in Hcmp.
      destruct (IH Hs') as (l' & -> & Hs'' & Hperm).
      exists (y :: l'). split; [reflexivity|]. split.
      * constructor; [assumption|].
        apply (Permutation_Forall Hperm). constructor; [lia|assumption].
      * rewrite perm_swap. now constructor.
    + apply Z.ltb_ge in Hcmp.
      exists (x :: y :: l). split; [reflexivity|]. split; [|reflexivity].
      constructor; [assumption|]. constructor; [lia|].
      eapply Forall_impl; [|exact Hall]. intros; simpl in *; lia.
Qed.

Lemma sort_ascending_Int zs :
  exists l, sort_ascending (map Int zs) = map Int l
            /\ StronglySorted Z.le l
            /\ Permutation zs l.
Proof.
  induction zs as [|x zs (l & Heq & Hs & Hperm)].
  - exists []. repeat split; constructor.
  - unfold sort_ascending in *. simpl. rewrite Heq.
    destruct (sort_insert_Int x l Hs) as (l' & -> & Hs' & Hperm').
    exists l'. repeat split; auto.
    rewrite <- Hperm'. now constructor.
Qed.

Lemma sorted_distinct_strict l :
  StronglySorted Z.le l -> NoDup l -> StronglySorted Z.lt l.
Proof.
  induction 1 as [|x l Hs IH Hall]; intros Hnd; [constructor|].
  inversion Hnd as [|? ? Hnot Hnd']; subst.
  constructor; [auto|].
  rewrite Forall_forall in *. intros y Hy.
  specialize (Hall y Hy). assert (x <> y) by (intros ->; contradiction). lia.
Qed.

End NumberFacts.

(** ** The page-range parser *)

Module ParserFacts.

Import StringFacts ParseIntFacts NumberFacts.

Lemma numeral_no_hyphen d :
  all_units (fun c => negb (Ascii.eqb c "-")) (numeral_text d) = true.
Proof.
  apply (all_units_weaken is_decimal_digit); [|apply numeral_text_digits].
  intros c Hc. now rewrite (digit_not_hyphen c Hc).
Qed.

Lemma numeral_trim d : JSString.trim (numeral_text d) = numeral_text d.
Proof.
  apply trim_no_space, no_space_of_digit_or_hyphen.
  apply (all_units_weaken is_decimal_digit); [apply digit_is_digit_or_hyphen|].
  apply numeral_text_digits.
Qed.

(** One token adds the page numbers it denotes and nothing else. *)
Lemma parse_part_token t zs :
  token_ok t -> NoDup zs ->
  exists zs', parse_part (map Int zs) (token_text t) = map Int zs'
              /\ NoDup zs'
              /\ forall p, In p zs' <-> In p zs \/ denotes t p.
Proof.
  intros Hok Hnd. unfold parse_part.
  rewrite (trim_no_space (token_text t))
    by (apply no_space_of_digit_or_hyphen, token_text_units).
  destruct t as [n|a b]; simpl token_text; simpl denotes.
  - destruct Hok as [Hn _].
    rewrite (includes_false "-" _ (numeral_no_hyphen n)).
    rewrite (parseInt_numeral n Hn). now apply add_Int.
  - destruct Hok as [[Ha _] [Hb _]].
    rewrite includes_app_sep.
    rewrite (split_app_sep "-" _ _ (numeral_no_hyphen a)).
    rewrite (split_no_sep "-" _ (numeral_no_hyphen b)).
    simpl map. rewrite !numeral_trim.
    rewrite (parseInt_numeral a Ha), (parseInt_numeral b Hb). simpl nth.
    now apply for_range_Int.
Qed.

Lemma parse_parts_tokens tokens : forall zs,
  Forall token_ok tokens -> NoDup zs ->
  exists zs', fold_left parse_part (map token_text tokens) (map Int zs) = map Int zs'
              /\ NoDup zs'
              /\ forall p, In p zs' <-> In p zs \/ Exists (fun t => denotes t p) tokens.
Proof.
  induction tokens as [|t tokens IH]; intros zs Hok Hnd.
  - exists zs. simpl. repeat split; auto.
    intros [H|H]; [assumption|inversion H].
  - inversion Hok as [|? ? Ht Hrest]; subst. simpl.
    destruct (parse_part_token t zs Ht Hnd) as (zs1 & -> & Hnd1 & Hin1).
    destruct (IH zs1 Hrest Hnd1) as (zs2 & -> & Hnd2 & Hin2).
    exists zs2. repeat split; auto.
    + intros Hp. apply Hin2 in Hp as [Hp|Hp].
      * apply Hin1 in Hp as [Hp|Hp]; [now left|right; now left].
      * right. now right.
    + intros [Hp|Hp]; apply Hin2.
      * left. apply Hin1. now left.
      * inversion Hp; subst; [left; apply Hin1; now right|now right].
Qed.

Lemma split_expression tokens :
  tokens <> [] ->
  JSString.split "," (expression_text tokens) = map token_text tokens.
Proof.
  intros Hne. unfold expression_text. apply split_concat.
  - destruct tokens; [congruence|discriminate].
  - apply Forall_forall. intros s Hs. apply in_map_iff in Hs as (t & <- & _).
    apply (all_units_weaken digit_or_hyphen); [|apply token_text_units].
    intros c Hc. now rewrite (digit_or_hyphen_not_comma c Hc).
Qed.

End ParserFacts.

(** C1. For an input made of comma-separated tokens, each a decimal
    numeral or a range [a-b] of two numerals (within the integers a double
    holds exactly), [parsePageRange] returns the page numbers the tokens
    denote, in strictly ascending order, hence without duplicates: a single
    numeral denotes its value, [a-b] every integer from [a] to [b], and a
    reversed range nothing.  In particular ["1,3,5-7"] gives [1,3,5,6,7],
    ["2-2"] gives [2] and ["1,1,2"] gives [1,2]. *)
Theorem parsePageRange_sorted_pages (tokens : list token)
        (Hne : tokens <> []) (Hok : Forall token_ok tokens) :
  (exists pages,
      parsePageRange (expression_text tokens) = map Int pages
      /\ StronglySorted Z.lt pages
      /\ forall p, In p pages <-> Exists (fun t => denotes t p) tokens)
  /\ parsePageRange "1,3,5-7" = [Int 1; Int 3; Int 5; Int 6; Int 7]
  /\ parsePageRange "2-2" = [Int 2]
  /\ parsePageRange "1,1,2" = [Int 1; Int 2].
Proof.
  split; [|repeat split; reflexivity].
  unfold parsePageRange. rewrite (ParserFacts.split_expression tokens Hne).
  destruct (ParserFacts.parse_parts_tokens tokens [] Hok (NoDup_nil Z))
    as (zs & Hfold & Hnd & Hin).
  change (@nil number) with (map Int []). rewrite Hfold.
  destruct (NumberFacts.sort_ascending_Int zs) as (pages & -> & Hsorted & Hperm).
  exists pages. split; [reflexivity|]. split.
  - apply NumberFacts.sorted_distinct_strict; [assumption|].
    now apply (Permutation_NoDup Hperm).
  - intros p. split.
    + intros Hp. apply Permutation_sym in Hperm.
      apply (Permutation_in _ Hperm), Hin in Hp. destruct Hp as [[]|Hp]. exact Hp.
    + intros Hp. apply (Permutation_in _ Hperm), Hin. now right.
Qed.

(** C1 at the input ["4,2-3,9-8,03"]: a single page, a range, a reversed range
    and a numeral with a leading zero. *)
Lemma parsePageRange_sorted_pages_witness :
  exists pages,
    parsePageRange "4,2-3,9-8,03" = map Int pages
    /\ StronglySorted Z.lt pages
    /\ forall p, In p pages <->
                 Exists (fun t => denotes t p)
                        [Single (D4 Nil); Range (D2 Nil) (D3 Nil);
                         Range (D9 Nil) (D8 Nil); Single (D0 (D3 Nil))].
Proof.
  refine (proj1 (parsePageRange_sorted_pages
                   [Single (D4 Nil); Range (D2 Nil) (D3 Nil);
                    Range (D9 Nil) (D8 Nil); Single (D0 (D3 Nil))] _ _)).
  - discriminate.
  - repeat constructor; try discriminate; vm_compute; discriminate.
Defined.

(** ** Reasoning about operations *)

Module AsyncFacts.

Import Async.

Lemma result_bind {A B} (m : async A) (k : A -> async B) :
  result (bind m k)
  = match result m with
    | Returned a => result (k a)
    | Thrown e => Thrown e
    end.
Proof.
  destruct m as [log [a|e]]; simpl; [|reflexivity]. now destruct (k a).
Qed.

Lemma events_bind {A B} (m : async A) (k : A -> async B) :
  events (bind m k)
  = (events m ++ match result m with
                 | Returned a => events (k a)
                 | Thrown _ => []
                 end)%list.
Proof.
  destruct m as [log [a|e]]; simpl; [now destruct (k a)|now rewrite List.app_nil_r].
Qed.

Lemma result_try_catch {A} (m : async A) (handler : string -> async A) :
  result (try_catch m handler)
  = match result m with
    | Returned a => Returned a
    | Thrown e => result (handler e)
    end.
Proof.
  destruct m as [log [a|e]]; simpl; [reflexivity|]. now destruct (handler e).
Qed.

Lemma events_try_catch {A} (m : async A) (handler : string -> async A) :
  events (try_catch m handler)
  = (events m ++ match result m with
                 | Returned _ => []
                 | Thrown e => events (handler e)
                 end)%list.
Proof.
  destruct m as [log [a|e]]; simpl; [now rewrite List.app_nil_r|now destruct (handler e)].
Qed.

Lemma result_report cb v text : result (report cb v text) = Returned tt.
Proof. now destruct cb. Qed.

Lemma events_report cb v text :
  events (report cb v text) = if cb then [Progress v text] else [].
Proof. now destruct cb. Qed.

Lemma bind_ext {A B} (m : async A) (k k' : A -> async B) :
  (forall a, k a = k' a) -> bind m k = bind m k'.
Proof.
  intros H. destruct m as [log [a|e]]; simpl; [now rewrite H|reflexivity].
Qed.

Lemma bind_ret {A B} (a : A) (k : A -> async B) : bind (ret a) k = k a.
Proof. unfold bind, ret. now destruct (k a). Qed.

Lemma events_ret {A} (a : A) : events (ret a) = [].
Proof. reflexivity. Qed.

(** The two counting loops are [for ... of] loops over their indices. *)
Lemma for_loop_for_of {S} (body : nat -> S -> async S) count : forall i s,
  for_loop count i body s = for_of (seq i count) body s.
Proof.
  induction count as [|count IH]; intros i s; simpl; [reflexivity|].
  apply bind_ext. intros s'. apply IH.
Qed.

Lemma for_down_for_of {S} (body : nat -> S -> async S) count : forall s,
  for_down count body s = for_of (List.rev (seq 0 count)) body s.
Proof.
  induction count as [|count IH]; intros s; [reflexivity|].
  rewrite seq_S, List.rev_app_distr. simpl.
  apply bind_ext. intros s'. apply IH.
Qed.

(** An invariant of the loop state, indexed by the elements already
    processed, and a property of the events of every iteration. *)
Lemma for_of_invariant {A S} (I : list A -> S -> Prop) (E : event -> Prop)
      (body : A -> S -> async S) (l : list A) (s0 : S) :
  I [] s0 ->
  (forall pre x post s, l = (pre ++ x :: post)%list -> I pre s ->
     Forall E (events (body x s))
     /\ forall s', result (body x s) = Returned s' -> I (pre ++ [x])%list s') ->
  Forall E (events (for_of l body s0))
  /\ forall s', result (for_of l body s0) = Returned s' -> I l s'.
Proof.
  intros H0 Hstep.
  assert (forall post pre s, l = (pre ++ post)%list -> I pre s ->
            Forall E (events (for_of post body s))
            /\ forall s', result (for_of post body s) = Returned s' -> I l s') as Hgen.
  { induction post as [|x post IH]; intros pre s Hl Hpre.
    - simpl. split; [constructor|]. intros s' [= <-].
      rewrite Hl, List.app_nil_r. exact Hpre.
    - destruct (Hstep pre x post s Hl Hpre) as [Hev Hnext].
      simpl for_of. rewrite events_bind, result_bind.
      destruct (result (body x s)) as [s1|e] eqn:Hres.
      + destruct (IH (pre ++ [x])%list s1) as [Hev' Hres'].
        * rewrite Hl, <- app_assoc. reflexivity.
        * now apply Hnext.
        * split; [apply Forall_app; now split|exact Hres'].
      + split; [rewrite List.app_nil_r; exact Hev|discriminate]. }
  apply (Hgen l [] s0); [reflexivity|exact H0].
Qed.

(** When every iteration returns, the loop is a fold. *)
Lemma for_of_fold {A S} (step : S -> A -> S) (body : A -> S -> async S)
      (l : list A) : forall s,
  (forall x s, In x l -> result (body x s) = Returned (step s x)) ->
  result (for_of l body s) = Returned (fold_left step l s).
Proof.
  induction l as [|x l IH]; intros s Hbody; [reflexivity|].
  simpl for_of. rewrite result_bind, (Hbody x s (or_introl eq_refl)).
  apply IH. intros y s' Hy. apply Hbody. now right.
Qed.

(** An exception of the loop is the exception of one of its iterations. *)
Lemma for_of_thrown {A S} (body : A -> S -> async S) (l : list A) : forall s e,
  result (for_of l body s) = Thrown e ->
  exists x s', In x l /\ result (body x s') = Thrown e.
Proof.
  induction l as [|x l IH]; intros s e; [discriminate|].
  simpl for_of. rewrite result_bind.
  destruct (result (body x s)) as [s1|e1] eqn:Hres.
  - intros H. destruct (IH s1 e H) as (y & s' & Hy & Hthrow).
    exists y, s'. split; [now right|assumption].
  - intros [= <-]. exists x, s. split; [now left|assumption].
Qed.

End AsyncFacts.

(** ** Picking pages by index *)

Module PickFacts.

Lemma pick_with_app {A B} (g : nat -> A -> B) ps l1 l2 :
  pick_with g ps (l1 ++ l2) = (pick_with g ps l1 ++ pick_with g ps l2)%list.
Proof. unfold pick_with. apply flat_map_app. Qed.

Lemma pick_with_seq_from {A B} (g : nat -> A -> B) (rest : list A) : forall pre,
  pick_with g (pre ++ rest) (seq (List.length pre) (List.length rest))
  = mapi_from g (List.length pre) rest.
Proof.
  induction rest as [|p rest IH]; intros pre; [reflexivity|].
  simpl seq. unfold pick_with in *. simpl flat_map.
  rewrite nth_error_app2, Nat.sub_diag by lia. simpl. f_equal.
  specialize (IH (pre ++ [p])%list).
  rewrite <- app_assoc, length_app, Nat.add_1_r in IH. exact IH.
Qed.

Lemma pick_with_seq {A B} (g : nat -> A -> B) (ps : list A) :
  pick_with g ps (seq 0 (List.length ps)) = mapi_from g 0 ps.
Proof. exact (pick_with_seq_from g ps []). Qed.

Lemma mapi_from_id {A} (ps : list A) : forall k, mapi_from (fun _ p => p) k ps = ps.
Proof. induction ps as [|p ps IH]; intros k; simpl; [reflexivity|now rewrite IH]. Qed.

Lemma pick_seq {A} (ps : list A) : pick ps (seq 0 (List.length ps)) = ps.
Proof. unfold pick. rewrite pick_with_seq. apply mapi_from_id. Qed.

Lemma mapi_from_length {A B} (g : nat -> A -> B) ps : forall k,
  List.length (mapi_from g k ps) = List.length ps.
Proof. induction ps as [|p ps IH]; intros k; simpl; [reflexivity|now rewrite IH]. Qed.

Lemma mapi_from_nth_error {A B} (g : nat -> A -> B) ps : forall k i,
  nth_error (mapi_from g k ps) i = option_map (g (k + i)%nat) (nth_error ps i).
Proof.
  induction ps as [|p ps IH]; intros k i.
  - now destruct i.
  - destruct i as [|i]; simpl.
    + now rewrite Nat.add_0_r.
    + rewrite IH. now rewrite Nat.add_succ_r.
Qed.

Lemma pick_rev {A} (ps : list A) l : pick ps (List.rev l) = List.rev (pick ps l).
Proof.
  unfold pick, pick_with. induction l as [|i l IH]; [reflexivity|].
  simpl. rewrite flat_map_app, List.rev_app_distr, IH. simpl.
  rewrite List.app_nil_r. f_equal. now destruct (nth_error ps i).
Qed.

Lemma pick_length {A} (ps : list A) l :
  Forall (fun i => i < List.length ps)%nat l ->
  List.length (pick ps l) = List.length l.
Proof.
  induction 1 as [|i l Hi _ IH]; [reflexivity|].
  unfold pick, pick_with in *. simpl. rewrite length_app, IH.
  destruct (nth_error ps i) eqn:E; [reflexivity|].
  apply nth_error_None in E. lia.
Qed.

Lemma in_pick {A} (ps : list A) l p :
  In p (pick ps l) <-> exists i, In i l /\ nth_error ps i = Some p.
Proof.
  unfold pick, pick_with. rewrite in_flat_map. split.
  - intros (i & Hi & Hp). exists i. split; [assumption|].
    destruct (nth_error ps i); [|contradiction].
    destruct Hp as [->|[]]. reflexivity.
  - intros (i & Hi & Hp). exists i. split; [assumption|]. rewrite Hp. now left.
Qed.

(** A loop that appends the picked element is a [pick_with]. *)
Lemma fold_left_pick {A B} (g : nat -> A -> B) (ps : list A) l : forall s,
  fold_left (fun s i => match nth_error ps i with
                        | Some p => (s ++ [g i p])%list
                        | None => s
                        end) l s
  = (s ++ pick_with g ps l)%list.
Proof.
  induction l as [|i l IH]; intros s; simpl.
  - now rewrite List.app_nil_r.
  - rewrite IH. unfold pick_with. simpl.
    destruct (nth_error ps i); [now rewrite <- app_assoc|reflexivity].
Qed.

Lemma filter_complement_length {A} (f : A -> bool) l :
  (List.length (filter (fun x => negb (f x)) l)
   = List.length l - List.length (filter f l))%nat.
Proof.
  induction l as [|x l IH]; [reflexivity|].
  pose proof (filter_length_le f l).
  cbn [filter negb]. destruct (f x); cbn [negb List.length]; lia.
Qed.

End PickFacts.

(** ** The page operations on readable documents *)

Module DocumentFacts.

Import Async AsyncFacts PickFacts.

Section WithContent.

Context {Content : Type}.

Lemma result_copyPage (doc : document Content) (i : nat) :
  result (copyPage doc (Int (Z.of_nat i)))
  = match nth_error doc i with
    | Some (Readable p) => Returned p
    | Some (Unreadable message) => Thrown message
    | None => Thrown "invalid page index"
    end.
Proof.
  unfold copyPage. destruct (Z.ltb_spec (Z.of_nat i) 0) as [H|_]; [lia|].
  rewrite Nat2Z.id. destruct (nth_error doc i) as [[p|m]|]; reflexivity.
Qed.

Lemma events_copyPage (doc : document Content) (index : number) :
  events (copyPage doc index) = [].
Proof.
  unfold copyPage. destruct index as [|z]; [reflexivity|].
  destruct (z <? 0); [reflexivity|].
  destruct (nth_error doc (Z.to_nat z)) as [[p|m]|]; reflexivity.
Qed.

Lemma pick_with_Readable (ps : list (page Content)) l :
  pick_with (fun _ p => Readable p) ps l = map Readable (pick ps l).
Proof.
  unfold pick, pick_with. induction l as [|i l IH]; [reflexivity|].
  simpl. rewrite map_app, IH. now destruct (nth_error ps i).
Qed.

Lemma in_seq_rev_bound i n : In i (List.rev (seq 0 n)) -> (i < n)%nat.
Proof. rewrite <- in_rev, in_seq. lia. Qed.

(** The loop that copies the pages at the indices [l] of a readable
    document, whatever else it reports. *)
Lemma copy_loop_result (ps : list (page Content)) (l : list nat)
      (before : nat -> document Content -> async unit) (s : document Content) :
  Forall (fun i => i < List.length ps)%nat l ->
  (forall i s, result (before i s) = Returned tt) ->
  result (for_of l (fun i newPdf =>
            before i newPdf ;;;
            copiedPage <- copyPage (map Readable ps) (Int (Z.of_nat i)) ;;
            ret (addPage newPdf copiedPage)) s)
  = Returned (s ++ map Readable (pick ps l))%list.
Proof.
  intros Hl Hbefore.
  rewrite (for_of_fold (fun s i => match nth_error ps i with
                                   | Some p => (s ++ [Readable p])%list
                                   | None => s
                                   end)).
  - now rewrite (fold_left_pick (fun _ p => Readable p)), pick_with_Readable.
  - intros i s' Hi. rewrite Forall_forall in Hl. specialize (Hl i Hi).
    rewrite result_bind, Hbefore, result_bind, result_copyPage, nth_error_map.
    destruct (nth_error ps i) eqn:E; [reflexivity|].
    apply nth_error_None in E. lia.
Qed.

Lemma reverse_result (ps : list (page Content)) cb :
  result (reverse (Parsed (map Readable ps)) cb)
  = Returned (Parsed (map Readable (List.rev ps))).
Proof.
  unfold reverse. simpl load. rewrite bind_ret, result_bind.
  rewrite for_down_for_of. unfold getPageCount. rewrite length_map.
  rewrite (copy_loop_result ps (List.rev (seq 0 (List.length ps)))
             (fun i _ => report cb _ _)).
  - simpl. now rewrite pick_rev, pick_seq.
  - apply Forall_forall. intros i Hi. now apply in_seq_rev_bound.
  - intros. apply result_report.
Qed.

(** *** [splitPDF] *)

Lemma splitPDF_result (ps : list (page Content)) cb :
  result (splitPDF (Parsed (map Readable ps)) cb)
  = Returned (mapi_from split_output 0 ps).
Proof.
  unfold splitPDF. simpl load. rewrite bind_ret.
  unfold getPageCount. rewrite length_map, for_loop_for_of.
  rewrite (for_of_fold (fun s i => match nth_error ps i with
                                   | Some p => (s ++ [split_output i p])%list
                                   | None => s
                                   end)).
  - now rewrite (fold_left_pick split_output), pick_with_seq.
  - intros i s Hi. apply in_seq in Hi.
    rewrite result_bind, result_report, result_bind, result_copyPage, nth_error_map.
    destruct (nth_error ps i) eqn:E; [reflexivity|].
    apply nth_error_None in E. lia.
Qed.

(** *** [mergePDFs] *)

Lemma copyPage_readable (ps : list (page Content)) i p :
  nth_error ps i = Some p ->
  copyPage (map Readable ps) (Int (Z.of_nat i)) = ret p.
Proof.
  intros H. unfold copyPage.
  destruct (Z.ltb_spec (Z.of_nat i) 0) as [Hlt|_]; [lia|].
  now rewrite Nat2Z.id, nth_error_map, H.
Qed.

Lemma copyPages_readable (ps : list (page Content)) l :
  Forall (fun i => i < List.length ps)%nat l ->
  copyPages (map Readable ps) (map (fun i => Int (Z.of_nat i)) l) = ret (pick ps l).
Proof.
  induction 1 as [|i l Hi _ IH]; [reflexivity|].
  cbn [copyPages map]. destruct (nth_error ps i) as [p|] eqn:E.
  - rewrite (copyPage_readable ps i p E), bind_ret, IH, bind_ret.
    unfold pick, pick_with. simpl. now rewrite E.
  - apply nth_error_None in E. lia.
Qed.

Lemma copyPages_all (ps : list (page Content)) :
  copyPages (map Readable ps) (getPageIndices (map Readable ps)) = ret ps.
Proof.
  unfold getPageIndices. rewrite length_map, copyPages_readable.
  - now rewrite pick_seq.
  - apply Forall_forall. intros i Hi. apply in_seq in Hi. lia.
Qed.

Lemma fold_left_addPage (ps : list (page Content)) : forall doc,
  fold_left addPage ps doc = (doc ++ map Readable ps)%list.
Proof.
  induction ps as [|p ps IH]; intros doc; simpl.
  - now rewrite List.app_nil_r.
  - rewrite IH. unfold addPage. now rewrite <- app_assoc.
Qed.

Lemma fold_left_merge_step (docs : list (list (page Content))) : forall st,
  snd (fold_left merge_step (map readable_file docs) st)
  = (snd st ++ map Readable (List.concat docs))%list.
Proof.
  induction docs as [|ps docs IH]; intros st; simpl.
  - now rewrite List.app_nil_r.
  - rewrite IH. simpl. now rewrite map_app, app_assoc.
Qed.

Lemma mergePDFs_result (docs : list (list (page Content))) cb :
  result (mergePDFs (map readable_file docs) cb)
  = Returned (Parsed (map Readable (List.concat docs))).
Proof.
  unfold mergePDFs. rewrite result_bind.
  rewrite (for_of_fold merge_step).
  - simpl. now rewrite fold_left_merge_step.
  - intros f [n merged] Hf. apply in_map_iff in Hf as (ps & <- & _).
    rewrite result_bind, result_report. unfold readable_file. simpl load.
    rewrite bind_ret, copyPages_all, bind_ret, fold_left_addPage. reflexivity.
Qed.

(** *** [extract] *)

Lemma decrement_number n :
  js_sub (parseInt_number n) (Int 1)
  = match n with Int z => Int (z - 1) | NaN => NaN end.
Proof.
  destruct n as [|z]; [reflexivity|].
  now rewrite ParseIntFacts.parseInt_number_Int.
Qed.

Lemma valid_pages_filter (count : nat) (pageNumbers : list number) :
  filter (fun n => js_ge n (Int 0) && js_lt n (Int (Z.of_nat count)))
         (map (fun n => js_sub (parseInt_number n) (Int 1)) pageNumbers)
  = map Int (requested_indices count pageNumbers).
Proof.
  induction pageNumbers as [|n l IH]; [reflexivity|].
  cbn [map filter]. rewrite decrement_number, IH.
  unfold requested_indices. cbn [flat_map].
  destruct n as [|z]; [reflexivity|].
  unfold js_ge, js_le, js_lt.
  destruct (Z.leb_spec 0 (z - 1)), (Z.ltb_spec (z - 1) (Z.of_nat count)),
           (Z.leb_spec 1 z), (Z.leb_spec z (Z.of_nat count));
    try lia; reflexivity.
Qed.

Lemma requested_indices_bounds count pageNumbers :
  Forall (fun z => 0 <= z < Z.of_nat count) (requested_indices count pageNumbers).
Proof.
  unfold requested_indices. apply Forall_flat_map, Forall_forall.
  intros [|z] _; [constructor|].
  destruct (Z.leb_spec 1 z), (Z.leb_spec z (Z.of_nat count)); simpl;
    repeat constructor; lia.
Qed.

Lemma fold_left_pick_at {A} (ps : list (page Content)) (idx : A -> nat) l :
  forall s : document Content,
  fold_left (fun s x => match nth_error ps (idx x) with
                        | Some p => (s ++ [Readable p])%list
                        | None => s
                        end) l s
  = (s ++ map Readable (pick ps (map idx l)))%list.
Proof.
  induction l as [|x l IH]; intros s; simpl.
  - now rewrite List.app_nil_r.
  - rewrite IH. unfold pick, pick_with. simpl.
    destruct (nth_error ps (idx x)); simpl; [now rewrite <- app_assoc|reflexivity].
Qed.

Lemma map_nth_seq {A} (l : list A) (d : A) :
  map (fun i => nth i l d) (seq 0 (List.length l)) = l.
Proof.
  induction l as [|x l IH]; [reflexivity|].
  simpl. f_equal. rewrite <- seq_shift, map_map. exact IH.
Qed.

(** The sorted in-range indices and the pages [extract] returns. *)
Lemma extract_result (ps : list (page Content)) (pageNumbers : list number) cb :
  exists indices,
    StronglySorted Z.le indices
    /\ Permutation (requested_indices (List.length ps) pageNumbers) indices
    /\ result (extract (Parsed (map Readable ps)) pageNumbers cb)
       = Returned (Parsed (map Readable (pick ps (map Z.to_nat indices)))).
Proof.
  unfold extract. simpl load. rewrite bind_ret.
  unfold getPageCount. rewrite length_map, valid_pages_filter.
  destruct (NumberFacts.sort_ascending_Int (requested_indices (List.length ps) pageNumbers))
    as (indices & -> & Hsorted & Hperm).
  exists indices. split; [assumption|]. split; [assumption|].
  assert (Forall (fun z => 0 <= z < Z.of_nat (List.length ps)) indices) as Hbounds.
  { apply (Permutation_Forall Hperm), requested_indices_bounds. }
  rewrite result_bind, length_map, for_loop_for_of.
  rewrite (for_of_fold (fun s i => match nth_error ps (Z.to_nat (nth i indices 0)) with
                                   | Some p => (s ++ [Readable p])%list
                                   | None => s
                                   end)).
  - rewrite fold_left_pick_at. simpl.
    rewrite <- (map_map (fun i => nth i indices 0) Z.to_nat), map_nth_seq.
    reflexivity.
  - intros i s Hi. apply in_seq in Hi.
    rewrite result_bind, result_report, result_bind.
    rewrite (nth_indep _ NaN (Int 0)) by (rewrite length_map; lia).
    rewrite (map_nth Int indices 0 i).
    rewrite Forall_forall in Hbounds.
    assert (i < List.length indices)%nat as Hlt by lia.
    specialize (Hbounds (nth i indices 0) (nth_In indices 0 Hlt)).
    rewrite <- (Z2Nat.id (nth i indices 0)) at 1 by lia.
    rewrite result_copyPage, nth_error_map.
    destruct (nth_error ps (Z.to_nat (nth i indices 0))) eqn:E; [reflexivity|].
    apply nth_error_None in E. lia.
Qed.

(** *** [deletePages] *)

Lemma same_value_zero_eq a b : same_value_zero a b = true <-> a = b.
Proof.
  destruct a as [|x], b as [|y]; simpl; try (split; congruence).
  rewrite Z.eqb_eq. split; congruence.
Qed.

Lemma has_add x y s : JSSet.has x (JSSet.add y s) = (JSSet.has x s || same_value_zero x y)%bool.
Proof.
  unfold JSSet.add. destruct (JSSet.has y s) eqn:Hy.
  - destruct (same_value_zero x y) eqn:Hxy; [|now rewrite orb_false_r].
    apply same_value_zero_eq in Hxy. subst. now rewrite Hy.
  - unfold JSSet.has. rewrite existsb_app. simpl. now rewrite orb_false_r.
Qed.

Lemma has_of_array x l :
  JSSet.has x (JSSet.of_array l) = existsb (same_value_zero x) l.
Proof.
  unfold JSSet.of_array.
  assert (forall s, JSSet.has x (fold_left (fun s y => JSSet.add y s) l s)
                    = (JSSet.has x s || existsb (same_value_zero x) l)%bool) as H.
  { induction l as [|y l IH]; intros s; simpl; [now rewrite orb_false_r|].
    now rewrite IH, has_add, orb_assoc. }
  now rewrite H.
Qed.

Lemma has_delete_set (i : nat) (pageNumbers : list number) :
  JSSet.has (Int (Z.of_nat i))
            (JSSet.of_array (map (fun n => js_sub (parseInt_number n) (Int 1)) pageNumbers))
  = listed (Z.of_nat i + 1) pageNumbers.
Proof.
  rewrite has_of_array. unfold listed.
  induction pageNumbers as [|n l IH]; [reflexivity|].
  cbn [map existsb]. rewrite IH, decrement_number. f_equal.
  destruct n as [|z]; [reflexivity|]. simpl.
  destruct (Z.eqb_spec (Z.of_nat i) (z - 1)), (Z.eqb_spec (Z.of_nat i + 1) z);
    try lia; reflexivity.
Qed.

Lemma fold_left_delete_step (ps : list (page Content)) pageNumbers cb l :
  forall st : Z * document Content,
  snd (fold_left (delete_step ps pageNumbers cb) l st)
  = (snd st ++ map Readable
       (pick ps (filter (fun i => negb (listed (Z.of_nat i + 1) pageNumbers)) l)))%list.
Proof.
  induction l as [|i l IH]; intros st; cbn [fold_left filter];
    [now rewrite List.app_nil_r|].
  rewrite IH. unfold delete_step.
  destruct (negb (listed (Z.of_nat i + 1) pageNumbers)); [|reflexivity].
  unfold pick, pick_with. simpl.
  destruct (nth_error ps i); simpl; [now rewrite <- app_assoc|reflexivity].
Qed.

Lemma deletePages_result (ps : list (page Content)) (pageNumbers : list number) cb :
  result (deletePages (Parsed (map Readable ps)) pageNumbers cb)
  = Returned (Parsed (map Readable
                        (pick ps (unlisted_pages (List.length ps) pageNumbers)))).
Proof.
  unfold deletePages. simpl load. rewrite bind_ret, result_bind.
  unfold getPageCount. rewrite length_map, for_loop_for_of.
  set (deleteSet := JSSet.of_array _).
  rewrite (for_of_fold (delete_step ps pageNumbers cb)).
  - simpl. now rewrite fold_left_delete_step.
  - intros i [c pdf] Hi. apply in_seq in Hi.
    subst deleteSet. rewrite has_delete_set. unfold delete_step.
    destruct (negb (listed (Z.of_nat i + 1) pageNumbers)); [|reflexivity].
    rewrite result_bind.
    assert (nth_error ps i <> None) as Hsome by (rewrite nth_error_None; lia).
    destruct cb.
    + rewrite result_bind, result_report. cbn [result ret snd fst].
      rewrite result_bind, result_copyPage, nth_error_map.
      destruct (nth_error ps i); [reflexivity|congruence].
    + cbn [result ret snd fst].
      rewrite result_bind, result_copyPage, nth_error_map.
      destruct (nth_error ps i); [reflexivity|congruence].
Qed.

(** *** [rotateAll] *)

Lemma getRotation_at (pre : list (page Content)) p rest :
  getRotation (map Readable (pre ++ p :: rest)) (List.length pre) = ret (rotation p).
Proof.
  unfold getRotation. rewrite nth_error_map, nth_error_app2, Nat.sub_diag by lia.
  reflexivity.
Qed.

Lemma setRotation_at (pre : list (page Content)) p rest angle :
  setRotation (map Readable (pre ++ p :: rest)) (List.length pre) angle
  = ret (map Readable (pre ++ mkPage (content p) angle :: rest)).
Proof.
  induction pre as [|q pre IH]; [reflexivity|].
  cbn [List.app map List.length setRotation]. now rewrite IH, bind_ret.
Qed.

Lemma rotate_loop_result (delta : Z) (before : nat -> document Content -> async unit)
      (rest : list (page Content)) :
  (forall i s, result (before i s) = Returned tt) ->
  forall pre,
    result (for_loop (List.length rest) (List.length pre) (fun i pdfDoc =>
              before i pdfDoc ;;;
              currentRotation <- getRotation pdfDoc i ;;
              setRotation pdfDoc i (currentRotation + delta))
              (map Readable (pre ++ rest)))
    = Returned (map Readable (pre ++ map (rotate_page delta) rest)).
Proof.
  intros Hbefore. induction rest as [|p rest IH]; intros pre; [reflexivity|].
  cbn [List.length for_loop]. rewrite result_bind.
  rewrite result_bind, Hbefore, getRotation_at, bind_ret, setRotation_at.
  cbn [result ret snd].
  specialize (IH (pre ++ [rotate_page delta p])%list).
  rewrite length_app, Nat.add_1_r, <- !app_assoc in IH. exact IH.
Qed.

Lemma rotateAll_result (ps : list (page Content)) (delta : Z) cb :
  result (rotateAll (Parsed (map Readable ps)) delta cb)
  = Returned (Parsed (map Readable (map (rotate_page delta) ps))).
Proof.
  unfold rotateAll. simpl load. rewrite bind_ret, result_bind, length_map.
  rewrite (rotate_loop_result delta (fun i _ => report cb _ _) ps
             (fun _ _ => result_report _ _ _) []).
  reflexivity.
Qed.

End WithContent.

End DocumentFacts.

(** ** The claims about the page operations *)

Section PageOperations.

Context {Content : Type}.

Import Async AsyncFacts PickFacts DocumentFacts.

Lemma in_requested_indices count pageNumbers x :
  In x (requested_indices count pageNumbers)
  <-> In (Int (x + 1)) pageNumbers /\ 0 <= x < Z.of_nat count.
Proof.
  unfold requested_indices. rewrite in_flat_map. split.
  - intros ([|z] & Hn & Hx); [contradiction|].
    destruct ((1 <=? z) && (z <=? Z.of_nat count))%bool eqn:E; [|contradiction].
    apply andb_prop in E as [E1 E2]. apply Z.leb_le in E1, E2.
    destruct Hx as [<-|[]]. replace (z - 1 + 1) with z by lia. split; [assumption|lia].
  - intros [Hn Hx]. exists (Int (x + 1)). split; [assumption|].
    assert ((1 <=? x + 1) && (x + 1 <=? Z.of_nat count) = true)%bool as ->
      by (apply andb_true_intro; split; apply Z.leb_le; lia).
    left. lia.
Qed.

Lemma requested_indices_NoDup count pageNumbers :
  NoDup pageNumbers -> NoDup (requested_indices count pageNumbers).
Proof.
  induction 1 as [|n l Hnot _ IH]; [constructor|].
  change (requested_indices count (n :: l))
    with (match n with
          | Int z => if (1 <=? z) && (z <=? Z.of_nat count) then [z - 1] else []
          | NaN => []
          end ++ requested_indices count l)%list.
  destruct n as [|z]; [exact IH|].
  destruct ((1 <=? z) && (z <=? Z.of_nat count))%bool; [|exact IH].
  simpl. constructor; [|exact IH].
  intros Hin. apply in_requested_indices in Hin as [Hin _].
  replace (z - 1 + 1) with z in Hin by lia. contradiction.
Qed.



(** C6. Splitting a readable document of N pages returns N outputs in
    source order; output [i] (from 1) is a document with page [i] of the
    source alone, carries page number [i] and is named [page_i.pdf]. *)
Theorem split_single_pages (ps : list (page Content)) (cb : bool) :
  exists outputs,
    result (split (readable_file ps) cb) = Returned outputs
    /\ List.length outputs = List.length ps
    /\ forall i p, nth_error ps i = Some p ->
         nth_error outputs i
         = Some {| pageNumber := Z.of_nat i + 1;
                   blob := readable_file [p];
                   filename := "page_" ++ str (Z.of_nat i + 1) ++ ".pdf" |}.
Proof.
  exists (mapi_from split_output 0 ps).
  split; [apply splitPDF_result|]. split; [apply mapi_from_length|].
  intros i p Hp. rewrite mapi_from_nth_error, Hp. reflexivity.
Qed.

(** A three-page document: the names and page numbers of the outputs. *)
Example split_three_pages :
  let p := fun c : string => mkPage c 0 in
  Async.result (split (readable_file [p "A"; p "B"; p "C"]) true)
  = Returned [mkSplit 1 (readable_file [p "A"]) "page_1.pdf";
              mkSplit 2 (readable_file [p "B"]) "page_2.pdf";
              mkSplit 3 (readable_file [p "C"]) "page_3.pdf"].
Proof. reflexivity. Qed.



End PageOperations.


(** ** File-type validation *)

Lemma existsb_eqb_In (t : string) (l : list string) :
  existsb (String.eqb t) l = true <-> In t l.
Proof.
  rewrite existsb_exists. split.
  - intros (x & Hx & Heq). apply String.eqb_eq in Heq. now subst.
  - intros Hin. exists t. split; [assumption|apply String.eqb_refl].
Qed.

(** C8, as amended.  The checks read the declared type and the name only.
    A file declared [application/pdf] passes the PDF check whatever its name,
    and so does a file whose lower-cased name ends in [.pdf].  The image check
    reads the declared type alone: it passes exactly the files declared
    [image/jpeg], [image/png] or [image/jpg], whatever their names, so a file
    declared [application/pdf] fails it. *)
Theorem file_type_checks (n t : string) :
  isValidPDF (mkFile n "application/pdf") = true
  /\ (isValidPDF (mkFile n t) = true
      <-> t = "application/pdf"
          \/ JSString.endsWith ".pdf" (JSString.toLowerCase n) = true)
  /\ (isValidImage (mkFile n t) = true
      <-> t = "image/jpeg" \/ t = "image/png" \/ t = "image/jpg")
  /\ isValidImage (mkFile n "image/png") = true
  /\ isValidImage (mkFile n "application/pdf") = false.
Proof.
  repeat split; try reflexivity.
  - unfold isValidPDF. simpl. intros H. apply orb_prop in H as [H|H].
    + left. now apply String.eqb_eq.
    + now right.
  - unfold isValidPDF. simpl. intros [->|H].
    + reflexivity.
    + rewrite H. apply orb_true_r.
  - unfold isValidImage. simpl type. rewrite existsb_eqb_In. simpl. intuition.
  - unfold isValidImage. simpl type. rewrite existsb_eqb_In. simpl. intuition.
Qed.

(** C8 as stated fails: a file named [scan.png] whose declared type
    is empty fails the image check, and a file named [scan.pdf] that is
    declared [image/png] passes it. *)
Lemma image_check_ignores_extension :
  isValidImage (mkFile "scan.png" "") = false
  /\ isValidImage (mkFile "scan.pdf" "image/png") = true.
Proof. split; reflexivity. Qed.

(** ** The recent-activity list *)

Section RecentFilesFacts.

Variable formatFileSize : Z -> string.
Variable toISOString : Z -> string.

Import Async AsyncFacts.

Lemma firstn_app_firstn {A} (n : nat) (a b : list A) :
  firstn n (a ++ firstn n b) = firstn n (a ++ b).
Proof.
  rewrite !firstn_app, firstn_firstn. do 2 f_equal. lia.
Qed.

Lemma saveRecentFile_result toolName filename size now quota_ok item :
  result (saveRecentFile formatFileSize toISOString toolName filename size now quota_ok item)
  = Returned
      (match item with
       | NotAnArray _ => item
       | _ => if quota_ok
              then StoredArray
                     (firstn 10 (mkEntry now toolName filename (formatFileSize size)
                                         (toISOString now) :: entries_of item))
              else item
       end).
Proof.
  unfold saveRecentFile. rewrite result_try_catch, result_bind.
  destruct item as [|entries|message]; simpl; destruct quota_ok; reflexivity.
Qed.

Lemma record_operation_entries item op :
  (forall message, item <> NotAnArray message) ->
  record_operation formatFileSize toISOString true item op
  = StoredArray (firstn 10 (entry_of formatFileSize toISOString op :: entries_of item)).
Proof.
  intros Hitem. unfold record_operation. rewrite saveRecentFile_result.
  destruct item as [|entries|message]; try reflexivity.
  now destruct (Hitem message).
Qed.

Lemma record_operations_entries ops : forall item,
  (forall message, item <> NotAnArray message) ->
  entries_of (record_operations formatFileSize toISOString ops item)
  = match ops with
    | [] => entries_of item
    | _ => firstn 10 (List.rev (map (entry_of formatFileSize toISOString) ops)
                      ++ entries_of item)
    end.
Proof.
  unfold record_operations.
  induction ops as [|op ops IH]; intros item Hitem; [reflexivity|].
  cbn [fold_left]. rewrite record_operation_entries by assumption.
  rewrite IH by discriminate.
  destruct ops as [|op' ops]; [reflexivity|].
  cbn [entries_of]. rewrite firstn_app_firstn.
  cbn [map List.rev]. now rewrite <- !app_assoc.
Qed.

(** C9. [saveRecentFile] always returns; when it writes, it writes the new
    entry followed by the entries it found, cut after ten, and otherwise it
    leaves the storage as it is: a list of at most ten entries stays one.
    After a sequence of operations recorded from an empty storage the list
    holds the ten most recent ones (all of them when there are fewer), the
    newest first; after eleven operations, all but the first. *)
Theorem recent_files_capped (item : storedItem) (toolName filename : string)
        (size now : Z) (quota_ok : bool) (ops : list operation) :
  (exists item',
      result (saveRecentFile formatFileSize toISOString
                toolName filename size now quota_ok item) = Returned item'
      /\ (item' = item
          \/ item' = StoredArray
                       (firstn 10 (mkEntry now toolName filename (formatFileSize size)
                                           (toISOString now) :: entries_of item)))
      /\ (List.length (entries_of item) <= 10 -> List.length (entries_of item') <= 10)%nat)
  /\ (let recorded := entries_of (record_operations formatFileSize toISOString ops NoItem) in
      let entries := map (entry_of formatFileSize toISOString) ops in
      recorded = firstn 10 (List.rev entries)
      /\ recorded = List.rev (skipn (List.length ops - 10) entries)
      /\ (List.length recorded <= 10)%nat
      /\ (List.length ops = 11%nat -> recorded = List.rev (tl entries))).
Proof.
  split.
  - eexists. split; [apply saveRecentFile_result|]. split.
    + destruct item as [|entries|message]; destruct quota_ok; auto.
    + intros Hlen.
      destruct item as [|entries|message]; destruct quota_ok;
        cbn [entries_of] in *; try assumption; apply firstn_le_length.
  - cbv zeta.
    assert (entries_of (record_operations formatFileSize toISOString ops NoItem)
            = firstn 10 (List.rev (map (entry_of formatFileSize toISOString) ops))) as Hrec.
    { rewrite record_operations_entries by discriminate.
      destruct ops; [reflexivity|]. cbn [entries_of]. now rewrite List.app_nil_r. }
    rewrite Hrec. split; [reflexivity|]. split; [|split].
    + now rewrite firstn_rev, length_map.
    + apply firstn_le_length.
    + intros Hlen. rewrite firstn_rev, length_map, Hlen.
      destruct ops; [discriminate|reflexivity].
Qed.

End RecentFilesFacts.

(** ** Page-level failures *)

Module FailureFacts.

Import Async AsyncFacts PickFacts DocumentFacts.

(** A loop over the indices of a list that looks the element up is a fold
    over the list. *)
Lemma fold_left_indices {A S} (f : S -> A -> S) (rest : list A) : forall pre s,
  fold_left (fun s i => match nth_error (pre ++ rest) i with
                        | Some x => f s x
                        | None => s
                        end) (seq (List.length pre) (List.length rest)) s
  = fold_left f rest s.
Proof.
  induction rest as [|x rest IH]; intros pre s; [reflexivity|].
  cbn [List.length seq fold_left].
  rewrite nth_error_app2, Nat.sub_diag by lia. cbn [nth_error].
  specialize (IH (pre ++ [x])%list (f s x)).
  rewrite <- app_assoc, length_app, Nat.add_1_r in IH. exact IH.
Qed.

Lemma fold_left_all_indices {A S} (f : S -> A -> S) (l : list A) (s : S) :
  fold_left (fun s i => match nth_error l i with
                        | Some x => f s x
                        | None => s
                        end) (seq 0 (List.length l)) s
  = fold_left f l s.
Proof. exact (fold_left_indices f l [] s). Qed.

(** A loop throws as soon as one of its iterations has to. *)
Lemma for_of_must_throw {A S} (body : A -> S -> async S) (bad : A -> Prop)
      (l : list A) : forall s,
  (forall x s, In x l -> bad x -> exists e, result (body x s) = Thrown e) ->
  (exists x, In x l /\ bad x) ->
  exists e, result (for_of l body s) = Thrown e.
Proof.
  induction l as [|x l IH]; intros s Hbad (y & Hy & Hby); [contradiction|].
  cbn [for_of]. rewrite result_bind.
  destruct (result (body x s)) as [s1|e] eqn:Hres; [|now exists e].
  destruct Hy as [->|Hy].
  - destruct (Hbad y s (or_introl eq_refl) Hby) as (e & He). congruence.
  - apply IH.
    + intros z s' Hz. apply Hbad. now right.
    + now exists y.
Qed.

Section WithContent.

Context {Content Image : Type}.

(** *** [repair] *)

Lemma fold_left_readable (doc : document Content) : forall s : document Content,
  fold_left keep_readable doc s = (s ++ map Readable (readable_pages doc))%list.
Proof.
  induction doc as [|[p|m] doc IH]; intros s; cbn [fold_left].
  - now rewrite List.app_nil_r.
  - rewrite IH. unfold readable_pages. simpl. now rewrite <- app_assoc.
  - apply IH.
Qed.

Lemma repair_body_result (doc : document Content) cb total i (s : document Content) :
  result
    (report cb
       (Percent.plus 50 (Percent.times (Percent.ratio (Z.of_nat i + 1) total) 50))
       ("Repairing page " ++ str (Z.of_nat i + 1) ++ " of " ++ str total) ;;;
     try_catch
       (copiedPage <- copyPage doc (Int (Z.of_nat i)) ;;
        ret (addPage s copiedPage))
       (fun pageError =>
          warn ["Skipping corrupted page " ++ str (Z.of_nat i + 1) ++ ":"; pageError] ;;;
          ret s))
  = Returned (repair_step doc s i).
Proof.
  rewrite result_bind, result_report, result_try_catch, result_bind, result_copyPage.
  unfold repair_step. destruct (nth_error doc i) as [[p|m]|]; reflexivity.
Qed.

Lemma repair_loop_result (doc : document Content) cb :
  result (for_loop (List.length doc) 0 (fun i newPdf =>
      report cb
        (Percent.plus 50
           (Percent.times (Percent.ratio (Z.of_nat i + 1) (Z.of_nat (List.length doc))) 50))
        ("Repairing page " ++ str (Z.of_nat i + 1) ++ " of "
                           ++ str (Z.of_nat (List.length doc))) ;;;
      try_catch
        (copiedPage <- copyPage doc (Int (Z.of_nat i)) ;;
         ret (addPage newPdf copiedPage))
        (fun pageError =>
           warn ["Skipping corrupted page " ++ str (Z.of_nat i + 1) ++ ":"; pageError] ;;;
           ret newPdf)) create)
  = Returned (map Readable (readable_pages doc)).
Proof.
  rewrite for_loop_for_of, (for_of_fold (repair_step doc)).
  - unfold repair_step. rewrite (fold_left_all_indices keep_readable doc create).
    now rewrite fold_left_readable.
  - intros i s _. apply repair_body_result.
Qed.

Lemma repair_result (doc : document Content) cb :
  result (repair (Parsed doc) cb)
  = match readable_pages doc with
    | [] => Thrown "Repair failed: No valid pages found in PDF"
    | _ :: _ => Returned (Parsed (map Readable (readable_pages doc)))
    end.
Proof.
  unfold repair. rewrite result_try_catch, result_bind, result_report.
  cbn [load]. rewrite bind_ret, result_bind, result_report, result_bind.
  unfold getPageCount. rewrite repair_loop_result, length_map.
  destruct (readable_pages doc); reflexivity.
Qed.

Lemma repair_malformed message cb :
  result (repair (@Malformed Content message) cb)
  = Thrown ("Repair failed: " ++ message).
Proof.
  unfold repair. rewrite result_try_catch, result_bind, result_report. reflexivity.
Qed.

(** Every iteration of a loop that always returns leaves its events. *)
Lemma for_of_events_included {A S} (body : A -> S -> async S) (l : list A) :
  (forall x s, In x l -> exists s', result (body x s) = Returned s') ->
  forall s x e, In x l -> (forall s', In e (events (body x s'))) ->
                In e (events (for_of l body s)).
Proof.
  induction l as [|y l IH]; intros Hret s x e Hx He; [contradiction|].
  cbn [for_of]. rewrite events_bind. apply in_or_app.
  destruct Hx as [->|Hx]; [left; apply He|].
  right. destruct (Hret y s (or_introl eq_refl)) as (s1 & ->).
  apply (IH (fun z s' Hz => Hret z s' (or_intror Hz)) s1 x e Hx He).
Qed.

Lemma in_warnings {A} (m : async A) (a : list string) :
  In a (warnings m) <-> In (Warning a) (events m).
Proof.
  unfold warnings. rewrite in_flat_map. split.
  - intros ([v t|a'] & He & Ha); [contradiction|].
    destruct Ha as [->|[]]. exact He.
  - intros He. exists (Warning a). split; [assumption|now left].
Qed.

Lemma repair_warns (doc : document Content) cb i message :
  nth_error doc i = Some (Unreadable message) ->
  In (skipped_page_warning i message) (warnings (repair (Parsed doc) cb)).
Proof.
  intros Hi. apply in_warnings. unfold repair.
  rewrite events_try_catch. apply in_or_app. left.
  rewrite events_bind, result_report. apply in_or_app. right.
  cbn [load]. rewrite bind_ret, events_bind, result_report. apply in_or_app. right.
  rewrite events_bind. apply in_or_app. left.
  rewrite for_loop_for_of.
  apply (for_of_events_included _ _ (fun x s _ => ex_intro _ _ (repair_body_result doc cb _ x s))
           create i).
  - apply in_seq. split; [lia|]. apply nth_error_Some. congruence.
  - intros s'. rewrite events_bind, result_report. apply in_or_app. right.
    rewrite events_try_catch, result_bind, result_copyPage, Hi.
    apply in_or_app. right. now left.
Qed.

(** *** [imagesToPDF] *)

Variable image_page : Image -> Content.

Lemma fold_left_image_step (files : list (imageFile Image)) :
  forall s : document Content,
  fold_left (image_step image_page) files s = (s ++ image_pages image_page files)%list.
Proof.
  induction files as [|f files IH]; intros s; cbn [fold_left].
  - now rewrite List.app_nil_r.
  - rewrite IH. unfold image_pages, image_step. cbn [flat_map].
    destruct (embeddable f); [now rewrite <- app_assoc|reflexivity].
Qed.

Lemma imagesToPDF_result (files : list (imageFile Image)) cb :
  result (imagesToPDF image_page files cb)
  = Returned (Parsed (image_pages image_page files)).
Proof.
  unfold imagesToPDF. rewrite result_bind, for_loop_for_of.
  rewrite (for_of_fold (fun s i => match nth_error files i with
                                   | Some f => image_step image_page s f
                                   | None => s
                                   end)).
  - rewrite fold_left_all_indices, fold_left_image_step. reflexivity.
  - intros i s Hi. apply in_seq in Hi.
    rewrite result_bind, result_report.
    destruct (nth_error files i) as [f|] eqn:E;
      [|apply nth_error_None in E; lia].
    rewrite result_bind, result_try_catch. unfold image_step, embeddable.
    destruct (String.eqb (image_type f) "image/jpeg" || String.eqb (image_type f) "image/jpg")%bool.
    + destruct (image_data f); reflexivity.
    + destruct (String.eqb (image_type f) "image/png"); [|reflexivity].
      destruct (image_data f); reflexivity.
Qed.

(** *** The operations that copy pages outside a [try] *)

Lemma copyPage_unreadable (doc : document Content) i :
  unreadable_at doc i ->
  exists e, result (copyPage doc (Int (Z.of_nat i))) = Thrown e.
Proof.
  intros (m & Hm). exists m. now rewrite result_copyPage, Hm.
Qed.

Lemma unreadable_in_range (doc : document Content) i :
  unreadable_at doc i -> (i < List.length doc)%nat.
Proof. intros (m & Hm). apply nth_error_Some. congruence. Qed.

Lemma reverse_propagates (doc : document Content) cb i :
  unreadable_at doc i -> exists e, result (reverse (Parsed doc) cb) = Thrown e.
Proof.
  intros Hi. unfold reverse. cbn [load]. rewrite bind_ret, result_bind.
  rewrite for_down_for_of.
  destruct (for_of_must_throw
              (fun i newPdf =>
                 report cb
                   (Percent.times
                      (Percent.ratio (Z.of_nat (getPageCount doc) - Z.of_nat i)
                                     (Z.of_nat (getPageCount doc))) 100)
                   ("Processing page " ++ str (Z.of_nat (getPageCount doc) - Z.of_nat i)
                      ++ " of " ++ str (Z.of_nat (getPageCount doc))) ;;;
                 copiedPage <- copyPage doc (Int (Z.of_nat i)) ;;
                 ret (addPage newPdf copiedPage))
              (unreadable_at doc) (List.rev (seq 0 (getPageCount doc))) create)
    as (e & He).
  - intros x s _ Hx. destruct (copyPage_unreadable doc x Hx) as (e & He).
    exists e. now rewrite result_bind, result_report, result_bind, He.
  - exists i. split; [|assumption].
    apply in_rev. rewrite List.rev_involutive. apply in_seq.
    pose proof (unreadable_in_range doc i Hi). unfold getPageCount. lia.
  - exists e. now rewrite He.
Qed.

Lemma splitPDF_propagates (doc : document Content) cb i :
  unreadable_at doc i -> exists e, result (splitPDF (Parsed doc) cb) = Thrown e.
Proof.
  intros Hi. unfold splitPDF. cbn [load]. rewrite bind_ret, for_loop_for_of.
  apply (for_of_must_throw _ (unreadable_at doc)).
  - intros x s _ Hx. destruct (copyPage_unreadable doc x Hx) as (e & He).
    exists e. now rewrite result_bind, result_report, result_bind, He.
  - exists i. split; [|assumption]. apply in_seq.
    pose proof (unreadable_in_range doc i Hi). unfold getPageCount. lia.
Qed.

Lemma deletePages_propagates (doc : document Content) pageNumbers cb i :
  unreadable_at doc i -> listed (Z.of_nat i + 1) pageNumbers = false ->
  exists e, result (deletePages (Parsed doc) pageNumbers cb) = Thrown e.
Proof.
  intros Hi Hkeep. unfold deletePages. cbn [load]. rewrite bind_ret, result_bind.
  rewrite for_loop_for_of.
  match goal with
  | |- context [for_of ?l ?body ?s] =>
      destruct (for_of_must_throw body
                  (fun i => unreadable_at doc i
                            /\ listed (Z.of_nat i + 1) pageNumbers = false) l s)
        as (e & He)
  end.
  - intros x [c pdf] _ [Hx Hl]. destruct (copyPage_unreadable doc x Hx) as (e & He).
    exists e. rewrite has_delete_set, Hl. cbn [negb].
    rewrite result_bind. destruct cb.
    + rewrite result_bind, result_report. cbn [result ret snd].
      now rewrite result_bind, He.
    + cbn [result ret snd]. now rewrite result_bind, He.
  - exists i. split; [|now split]. apply in_seq.
    pose proof (unreadable_in_range doc i Hi). unfold getPageCount. lia.
  - exists e. now rewrite He.
Qed.

Lemma extract_propagates (doc : document Content) pageNumbers cb i :
  unreadable_at doc i -> In (Int (Z.of_nat i + 1)) pageNumbers ->
  exists e, result (extract (Parsed doc) pageNumbers cb) = Thrown e.
Proof.
  intros Hi Hreq. pose proof (unreadable_in_range doc i Hi) as Hrange.
  unfold extract. cbn [load]. rewrite bind_ret.
  unfold getPageCount. rewrite valid_pages_filter.
  destruct (NumberFacts.sort_ascending_Int (requested_indices (List.length doc) pageNumbers))
    as (indices & -> & _ & Hperm).
  assert (In (Z.of_nat i) indices) as Hin.
  { apply (Permutation_in _ Hperm), in_requested_indices. split; [assumption|lia]. }
  destruct (In_nth indices (Z.of_nat i) 0 Hin) as (pos & Hpos & Hnth).
  rewrite result_bind, length_map, for_loop_for_of.
  match goal with
  | |- context [for_of ?l ?body ?s] =>
      destruct (for_of_must_throw body
                  (fun pos => (pos < List.length indices)%nat
                              /\ nth pos indices 0 = Z.of_nat i) l s)
        as (e & He)
  end.
  - intros x s _ [Hx Hxi]. destruct (copyPage_unreadable doc i Hi) as (e & He).
    exists e. rewrite result_bind, result_report, result_bind.
    rewrite (nth_indep _ NaN (Int 0)) by (rewrite length_map; lia).
    now rewrite (map_nth Int indices 0 x), Hxi, He.
  - exists pos. split; [apply in_seq; lia|now split].
  - exists e. now rewrite He.
Qed.

Lemma copyPages_throws (doc : document Content) (l : list nat) i :
  In i l -> unreadable_at doc i ->
  exists e, result (copyPages doc (map (fun i => Int (Z.of_nat i)) l)) = Thrown e.
Proof.
  intros Hin Hi. induction l as [|j l IH]; [contradiction|].
  cbn [map copyPages]. rewrite result_bind.
  destruct (result (copyPage doc (Int (Z.of_nat j)))) as [p|e] eqn:Hres; [|now exists e].
  destruct Hin as [->|Hin].
  - destruct (copyPage_unreadable doc i Hi) as (e & He). congruence.
  - destruct (IH Hin) as (e & He). exists e. now rewrite result_bind, He.
Qed.

Lemma mergePDFs_propagates (files : list (pdfFile Content)) cb doc i :
  In (Parsed doc) files -> unreadable_at doc i ->
  exists e, result (mergePDFs files cb) = Thrown e.
Proof.
  intros Hf Hi. unfold mergePDFs. rewrite result_bind.
  match goal with
  | |- context [for_of ?l ?body ?s] =>
      destruct (for_of_must_throw body (fun f => f = Parsed doc) l s) as (e & He)
  end.
  - intros f [n merged] _ ->.
    destruct (copyPages_throws doc (seq 0 (List.length doc)) i) as (e & He).
    + apply in_seq. pose proof (unreadable_in_range doc i Hi). lia.
    + assumption.
    + exists e. rewrite result_bind, result_report. cbn [load].
      rewrite bind_ret, result_bind. unfold getPageIndices. now rewrite He.
  - now exists (Parsed doc).
  - exists e. now rewrite He.
Qed.

End WithContent.

End FailureFacts.



(** C4: the code at the failing input.  Deleting page 5 of a three-page
    document deletes nothing, but the loop takes the size of the delete set
    off the total: the callback is called with 50, 100 and 150 percent, the
    last one for "page 3 of 2". *)
Lemma deletePages_progress_exceeds_100 :
  let source := readable_file [mkPage "A" 0; mkPage "B" 0; mkPage "C" 0] in
  let run := deletePages source [Int 5] true in
  Async.result run = Returned source
  /\ exists q1 q2 q3,
       Async.events run = [Progress (Pct q1) "Processing page 1 of 2";
                           Progress (Pct q2) "Processing page 2 of 2";
                           Progress (Pct q3) "Processing page 3 of 2"]
       /\ (q1 == 50)%Q /\ (q2 == 100)%Q /\ (q3 == 150)%Q /\ (100 < q3)%Q.
Proof.
  cbv zeta. split; [reflexivity|].
  eexists _, _, _. split; [vm_compute; reflexivity|].
  repeat split.
Qed.

(** ** The percents passed to the progress callback *)

Module ProgressFacts.

Import Async AsyncFacts DocumentFacts.

Lemma scaled_ratio_bounds (a b : Z) (k : Q) :
  0 <= a <= b -> 0 < b -> (0 <= k)%Q ->
  (0 <= inject_Z a / inject_Z b * k /\ inject_Z a / inject_Z b * k <= k)%Q.
Proof.
  intros Ha Hb Hk.
  assert (0 <= inject_Z a / inject_Z b)%Q as H0.
  { apply Qle_shift_div_l.
    - change 0%Q with (inject_Z 0). rewrite <- Zlt_Qlt. lia.
    - rewrite Qmult_0_l. change 0%Q with (inject_Z 0). rewrite <- Zle_Qle. lia. }
  assert (inject_Z a / inject_Z b <= 1)%Q as H1.
  { apply Qle_shift_div_r.
    - change 0%Q with (inject_Z 0). rewrite <- Zlt_Qlt. lia.
    - rewrite Qmult_1_l, <- Zle_Qle. lia. }
  split.
  - now apply Qmult_le_0_compat.
  - rewrite <- (Qmult_1_l k) at 2. now apply Qmult_le_compat_r.
Qed.

(** [(a / b) * 100] for [0 <= a <= b] and [0 < b]. *)
Lemma ratio_percent_in_range a b :
  0 <= a <= b -> 0 < b ->
  Percent.in_range (Percent.times (Percent.ratio a b) 100).
Proof.
  intros Ha Hb. unfold Percent.ratio.
  destruct (Z.eqb_spec b 0) as [->|_]; [lia|].
  apply scaled_ratio_bounds; [assumption..|discriminate].
Qed.

(** [50 + (a / b) * 50]. *)
Lemma upper_half_in_range a b :
  0 <= a <= b -> 0 < b ->
  Percent.in_range (Percent.plus 50 (Percent.times (Percent.ratio a b) 50)).
Proof.
  intros Ha Hb. unfold Percent.ratio.
  destruct (Z.eqb_spec b 0) as [->|_]; [lia|].
  destruct (scaled_ratio_bounds a b 50 Ha Hb ltac:(discriminate)) as [H0 H1].
  cbn [Percent.times Percent.plus Percent.in_range]. split.
  - apply (Qle_trans _ (50 + 0)); [discriminate|]. now apply Qplus_le_r.
  - apply (Qle_trans _ (50 + 50)); [|discriminate]. now apply Qplus_le_r.
Qed.

Lemma constant_in_range (q : Q) :
  (0 <= q)%Q -> (q <= 100)%Q -> Percent.in_range (Pct q).
Proof. intros; now split. Qed.

(** *** Operations whose percents are in range, composed *)

Lemma in_bounds_ret {A} (a : A) : in_bounds (ret a).
Proof. constructor. Qed.

Lemma in_bounds_throw {A} message : in_bounds (@throw A message).
Proof. constructor. Qed.

Lemma in_bounds_bind {A B} (m : async A) (k : A -> async B) :
  in_bounds m -> (forall a, result m = Returned a -> in_bounds (k a)) ->
  in_bounds (bind m k).
Proof.
  unfold in_bounds. intros Hm Hk. rewrite events_bind. apply Forall_app. split; [assumption|].
  destruct (result m) as [a|e]; [now apply Hk|constructor].
Qed.

Lemma in_bounds_try_catch {A} (m : async A) (handler : string -> async A) :
  in_bounds m -> (forall e, in_bounds (handler e)) -> in_bounds (try_catch m handler).
Proof.
  unfold in_bounds. intros Hm Hh. rewrite events_try_catch. apply Forall_app.
  split; [assumption|]. destruct (result m) as [a|e]; [constructor|apply Hh].
Qed.

Lemma in_bounds_report cb v text :
  Percent.in_range v -> in_bounds (report cb v text).
Proof.
  intros Hv. unfold in_bounds. rewrite events_report.
  destruct cb; repeat constructor. exact Hv.
Qed.

Lemma in_bounds_warn arguments : in_bounds (warn arguments).
Proof. repeat constructor. Qed.

(** A loop whose iterations keep an invariant and stay in range. *)
Lemma in_bounds_for_of {A S} (I : list A -> S -> Prop)
      (body : A -> S -> async S) (l : list A) (s0 : S) :
  I [] s0 ->
  (forall pre x post s, l = (pre ++ x :: post)%list -> I pre s ->
     in_bounds (body x s)
     /\ forall s', result (body x s) = Returned s' -> I (pre ++ [x])%list s') ->
  in_bounds (for_of l body s0).
Proof.
  intros H0 Hstep. exact (proj1 (for_of_invariant I progress_ok body l s0 H0 Hstep)).
Qed.

Lemma in_bounds_for_each {A S} (body : A -> S -> async S) (l : list A) (s0 : S) :
  (forall x s, In x l -> in_bounds (body x s)) -> in_bounds (for_of l body s0).
Proof.
  intros Hbody. apply (in_bounds_for_of (fun _ _ => True)); [exact I|].
  intros pre x post s -> _. split; [|trivial].
  apply Hbody, in_or_app. right. now left.
Qed.

Lemma percents_in_range {A} (m : async A) :
  in_bounds m -> Forall Percent.in_range (percents m).
Proof.
  unfold in_bounds, percents. induction 1 as [|[v t|a] l He _ IH]; simpl; auto.
Qed.

Section WithContent.

Context {Content Image : Type}.

Lemma in_bounds_load (f : pdfFile Content) : in_bounds (load f).
Proof. destruct f; constructor. Qed.

Lemma in_bounds_copyPage (doc : document Content) index : in_bounds (copyPage doc index).
Proof. unfold in_bounds. rewrite events_copyPage. constructor. Qed.

Lemma in_bounds_copyPages (doc : document Content) indices :
  in_bounds (copyPages doc indices).
Proof.
  induction indices as [|i l IH]; [constructor|].
  cbn [copyPages]. apply in_bounds_bind; [apply in_bounds_copyPage|].
  intros p _. apply in_bounds_bind; [exact IH|]. intros; apply in_bounds_ret.
Qed.

Lemma in_bounds_getRotation (doc : document Content) i : in_bounds (getRotation doc i).
Proof. unfold getRotation. destruct (nth_error doc i) as [[p|m]|]; constructor. Qed.

Lemma in_bounds_setRotation (doc : document Content) : forall i angle,
  in_bounds (setRotation doc i angle).
Proof.
  induction doc as [|[p|m] doc IH]; intros [|i] angle; cbn [setRotation];
    try constructor;
    (apply in_bounds_bind; [apply IH|intros; apply in_bounds_ret]).
Qed.

Lemma in_bounds_save (doc : document Content) : in_bounds (save doc).
Proof. constructor. Qed.

Lemma index_ratio_in_range (i n : nat) :
  (i < n)%nat ->
  Percent.in_range (Percent.times (Percent.ratio (Z.of_nat i + 1) (Z.of_nat n)) 100).
Proof. intros Hi. apply ratio_percent_in_range; lia. Qed.

Lemma extract_in_bounds (f : pdfFile Content) pageNumbers cb :
  in_bounds (extract f pageNumbers cb).
Proof.
  unfold extract. apply in_bounds_bind; [apply in_bounds_load|]. intros srcPdf _.
  apply in_bounds_bind; [|intros; apply in_bounds_save].
  rewrite for_loop_for_of. apply in_bounds_for_each. intros i s Hi. apply in_seq in Hi.
  apply in_bounds_bind; [apply in_bounds_report, index_ratio_in_range; lia|]. intros _ _.
  apply in_bounds_bind; [apply in_bounds_copyPage|intros; apply in_bounds_ret].
Qed.

Lemma rotateAll_in_bounds (f : pdfFile Content) delta cb :
  in_bounds (rotateAll f delta cb).
Proof.
  unfold rotateAll. apply in_bounds_bind; [apply in_bounds_load|]. intros pdfDoc _.
  apply in_bounds_bind; [|intros; apply in_bounds_save].
  rewrite for_loop_for_of. apply in_bounds_for_each. intros i s Hi. apply in_seq in Hi.
  apply in_bounds_bind; [apply in_bounds_report, index_ratio_in_range; lia|]. intros _ _.
  apply in_bounds_bind; [apply in_bounds_getRotation|intros; apply in_bounds_setRotation].
Qed.

Lemma reverse_in_bounds (f : pdfFile Content) cb : in_bounds (reverse f cb).
Proof.
  unfold reverse. apply in_bounds_bind; [apply in_bounds_load|]. intros srcPdf _.
  apply in_bounds_bind; [|intros; apply in_bounds_save].
  rewrite for_down_for_of. apply in_bounds_for_each. intros i s Hi.
  apply in_seq_rev_bound in Hi.
  apply in_bounds_bind; [apply in_bounds_report, ratio_percent_in_range; lia|]. intros _ _.
  apply in_bounds_bind; [apply in_bounds_copyPage|intros; apply in_bounds_ret].
Qed.

Lemma splitPDF_in_bounds (f : pdfFile Content) cb : in_bounds (splitPDF f cb).
Proof.
  unfold splitPDF. apply in_bounds_bind; [apply in_bounds_load|]. intros srcPdf _.
  rewrite for_loop_for_of. apply in_bounds_for_each. intros i s Hi. apply in_seq in Hi.
  apply in_bounds_bind; [apply in_bounds_report, index_ratio_in_range; lia|]. intros _ _.
  apply in_bounds_bind; [apply in_bounds_copyPage|]. intros p _.
  apply in_bounds_bind; [apply in_bounds_save|intros; apply in_bounds_ret].
Qed.

Lemma mergePDFs_in_bounds (files : list (pdfFile Content)) cb :
  in_bounds (mergePDFs files cb).
Proof.
  unfold mergePDFs. apply in_bounds_bind; [|intros; apply in_bounds_save].
  apply (in_bounds_for_of (fun pre (st : Z * document Content) =>
                             fst st = Z.of_nat (List.length pre))); [reflexivity|].
  intros pre f post [n merged] Hfiles Hn. cbn [fst] in Hn. subst n.
  assert (List.length files = List.length pre + S (List.length post))%nat as Hlen
      by (rewrite Hfiles, length_app; reflexivity).
  split.
  - apply in_bounds_bind; [apply in_bounds_report, ratio_percent_in_range; lia|].
    intros _ _. apply in_bounds_bind; [apply in_bounds_load|]. intros pdf _.
    apply in_bounds_bind; [apply in_bounds_copyPages|intros; apply in_bounds_ret].
  - intros [n' merged']. rewrite result_bind, result_report, result_bind.
    destruct (result (load f)) as [pdf|e]; [|discriminate].
    rewrite result_bind.
    destruct (result (copyPages pdf (getPageIndices pdf))) as [copied|e]; [|discriminate].
    intros [= <- _]. cbn [fst]. rewrite length_app. cbn [List.length]. lia.
Qed.

Lemma repair_in_bounds (f : pdfFile Content) cb : in_bounds (repair f cb).
Proof.
  unfold repair. apply in_bounds_try_catch; [|intros; apply in_bounds_throw].
  apply in_bounds_bind; [apply in_bounds_report, constant_in_range; discriminate|].
  intros _ _. apply in_bounds_bind; [apply in_bounds_load|]. intros srcPdf _.
  apply in_bounds_bind; [apply in_bounds_report, constant_in_range; discriminate|].
  intros _ _. apply in_bounds_bind.
  - rewrite for_loop_for_of. apply in_bounds_for_each. intros i s Hi. apply in_seq in Hi.
    unfold getPageCount in *.
    apply in_bounds_bind; [apply in_bounds_report, upper_half_in_range; lia|].
    intros _ _. apply in_bounds_try_catch.
    + apply in_bounds_bind; [apply in_bounds_copyPage|intros; apply in_bounds_ret].
    + intros e. apply in_bounds_bind; [apply in_bounds_warn|intros; apply in_bounds_ret].
  - intros newPdf _. destruct (Nat.eqb (getPageCount newPdf) 0);
      [apply in_bounds_throw|apply in_bounds_save].
Qed.

Lemma imagesToPDF_in_bounds (image_page : Image -> Content)
      (files : list (imageFile Image)) cb :
  in_bounds (imagesToPDF image_page files cb).
Proof.
  unfold imagesToPDF. apply in_bounds_bind; [|intros; apply in_bounds_save].
  rewrite for_loop_for_of. apply in_bounds_for_each. intros i s Hi. apply in_seq in Hi.
  apply in_bounds_bind; [apply in_bounds_report, index_ratio_in_range; lia|]. intros _ _.
  destruct (nth_error files i) as [f|]; [|apply in_bounds_throw].
  apply in_bounds_bind.
  - apply in_bounds_try_catch.
    + destruct (String.eqb (image_type f) "image/jpeg"
                || String.eqb (image_type f) "image/jpg")%bool.
      * apply in_bounds_bind; [destruct (image_data f); constructor
                              |intros; apply in_bounds_ret].
      * destruct (String.eqb (image_type f) "image/png"); [|apply in_bounds_ret].
        apply in_bounds_bind; [destruct (image_data f); constructor
                              |intros; apply in_bounds_ret].
    + intros e. apply in_bounds_bind; [apply in_bounds_warn|intros; apply in_bounds_ret].
  - intros [[image|]|] _; apply in_bounds_ret.
Qed.

(** *** [deletePages] when every listed number is a page of the source *)

Lemma has_true_iff x (s : JSSet.t) : JSSet.has x s = true <-> In x s.
Proof.
  unfold JSSet.has. rewrite existsb_exists. split.
  - intros (y & Hy & Heq). apply same_value_zero_eq in Heq. now subst.
  - intros Hx. exists x. split; [assumption|]. now apply same_value_zero_eq.
Qed.

Lemma in_of_array x l : In x (JSSet.of_array l) <-> In x l.
Proof.
  rewrite <- has_true_iff, has_of_array, existsb_exists. split.
  - intros (y & Hy & Heq). apply same_value_zero_eq in Heq. now subst.
  - intros Hx. exists x. split; [assumption|]. now apply same_value_zero_eq.
Qed.

Lemma add_NoDup x (s : JSSet.t) : NoDup s -> NoDup (JSSet.add x s).
Proof.
  intros Hs. unfold JSSet.add. destruct (JSSet.has x s) eqn:Hx; [assumption|].
  assert (~ In x s) as Hnot by (rewrite <- has_true_iff; congruence).
  rewrite <- (List.rev_involutive (s ++ [x])). apply NoDup_rev.
  rewrite List.rev_app_distr. simpl. constructor; [now rewrite <- in_rev|now apply NoDup_rev].
Qed.

Lemma of_array_NoDup l : NoDup (JSSet.of_array l).
Proof.
  unfold JSSet.of_array.
  assert (forall s, NoDup s -> NoDup (fold_left (fun s x => JSSet.add x s) l s)) as H.
  { induction l as [|x l IH]; intros s Hs; [assumption|]. simpl. now apply IH, add_NoDup. }
  apply H. constructor.
Qed.

Lemma delete_set_size (count : nat) (pageNumbers : list number) :
  pages_of_source count pageNumbers ->
  JSSet.size (JSSet.of_array
                (map (fun n => js_sub (parseInt_number n) (Int 1)) pageNumbers))
  = Z.of_nat (List.length (listed_pages count pageNumbers)).
Proof.
  intros Hsrc. unfold JSSet.size. f_equal.
  rewrite <- (length_map (fun i => Int (Z.of_nat i)) (listed_pages count pageNumbers)).
  apply Permutation_length, NoDup_Permutation.
  - apply of_array_NoDup.
  - apply Finite.Injective_map_NoDup.
    + intros i j [= H]. lia.
    + apply NoDup_filter, seq_NoDup.
  - intros x. rewrite in_of_array, !in_map_iff. split.
    + intros (n & <- & Hn). rewrite decrement_number.
      unfold pages_of_source in Hsrc. rewrite Forall_forall in Hsrc.
      destruct (Hsrc n Hn) as (z & -> & Hz).
      exists (Z.to_nat (z - 1)). split; [f_equal; lia|].
      apply filter_In. split; [apply in_seq; lia|].
      unfold listed. apply existsb_exists. exists (Int z). split; [assumption|].
      simpl. apply Z.eqb_eq. lia.
    + intros (i & <- & Hi). apply filter_In in Hi as [_ Hi].
      unfold listed in Hi. apply existsb_exists in Hi as (n & Hn & Heq).
      apply same_value_zero_eq in Heq. subst n.
      exists (Int (Z.of_nat i + 1)). split; [|assumption].
      rewrite decrement_number. f_equal. lia.
Qed.

Lemma deletePages_in_bounds (doc : document Content) pageNumbers cb :
  pages_of_source (List.length doc) pageNumbers ->
  in_bounds (deletePages (Parsed doc) pageNumbers cb).
Proof.
  intros Hsrc. unfold deletePages. cbn [load]. rewrite bind_ret.
  apply in_bounds_bind; [|intros; apply in_bounds_save].
  unfold getPageCount. rewrite (delete_set_size _ _ Hsrc), for_loop_for_of.
  set (unlisted := fun i => negb (listed (Z.of_nat i + 1) pageNumbers)).
  apply (in_bounds_for_of
           (fun pre (st : Z * document Content) =>
              fst st = if cb then Z.of_nat (List.length (filter unlisted pre)) else 0));
    [now destruct cb|].
  intros pre i post [c pdf] Hseq Hc. cbn [fst] in Hc.
  rewrite has_delete_set. fold (unlisted i).
  assert (List.length (filter unlisted pre)
          + List.length (filter unlisted [i])
          + List.length (filter unlisted post)
          = List.length doc - List.length (listed_pages (List.length doc) pageNumbers))%nat
    as Hcount.
  { assert (List.length (filter unlisted (seq 0 (List.length doc)))
            = List.length doc - List.length (listed_pages (List.length doc) pageNumbers))%nat
      as Hall.
    { unfold unlisted, listed_pages.
      now rewrite PickFacts.filter_complement_length, length_seq. }
    rewrite Hseq in Hall. change (i :: post) with ([i] ++ post)%list in Hall.
    rewrite !filter_app, !length_app in Hall. lia. }
  pose proof (filter_length_le (fun i => listed (Z.of_nat i + 1) pageNumbers)
                (seq 0 (List.length doc))) as Hle.
  fold (listed_pages (List.length doc) pageNumbers) in Hle. rewrite length_seq in Hle.
  rewrite filter_app, length_app. cbn [filter] in *.
  destruct (unlisted i); cbn [List.length] in *.
  - split.
    + apply in_bounds_bind.
      * destruct cb; [|apply in_bounds_ret].
        apply in_bounds_bind; [|intros; apply in_bounds_ret].
        apply in_bounds_report, ratio_percent_in_range; lia.
      * intros c' _. apply in_bounds_bind; [apply in_bounds_copyPage|].
        intros; apply in_bounds_ret.
    + intros [c' pdf']. rewrite result_bind. destruct cb.
      * rewrite result_bind, result_report. cbn [result ret snd].
        rewrite result_bind.
        destruct (result (copyPage doc (Int (Z.of_nat i)))); [|discriminate].
        intros [= <- _]. cbn [fst]. lia.
      * cbn [result ret snd]. rewrite result_bind.
        destruct (result (copyPage doc (Int (Z.of_nat i)))); [|discriminate].
        intros [= <- _]. exact Hc.
  - split; [apply in_bounds_ret|].
    intros st' [= <-]. cbn [fst]. rewrite Hc. destruct cb; [f_equal; lia|reflexivity].
Qed.

End WithContent.

End ProgressFacts.

(** The percents that [extract], [rotateAll], [reverse], [split], [merge],
    [repair] and [imagesToPDF] pass to the progress callback lie in
    [0, 100], on every input and also when the operation ends with an
    exception. *)
Theorem progress_within_bounds {Content Image : Type} (image_page : Image -> Content)
        (f : pdfFile Content) (files : list (pdfFile Content))
        (images : list (imageFile Image)) (pageNumbers : list number)
        (delta : Z) (cb : bool) :
  Forall Percent.in_range (Async.percents (extract f pageNumbers cb))
  /\ Forall Percent.in_range (Async.percents (rotateAll f delta cb))
  /\ Forall Percent.in_range (Async.percents (reverse f cb))
  /\ Forall Percent.in_range (Async.percents (split f cb))
  /\ Forall Percent.in_range (Async.percents (merge files cb))
  /\ Forall Percent.in_range (Async.percents (repair f cb))
  /\ Forall Percent.in_range (Async.percents (imagesToPDF image_page images cb)).
Proof.
  repeat split; apply ProgressFacts.percents_in_range.
  - apply ProgressFacts.extract_in_bounds.
  - apply ProgressFacts.rotateAll_in_bounds.
  - apply ProgressFacts.reverse_in_bounds.
  - apply ProgressFacts.splitPDF_in_bounds.
  - apply ProgressFacts.mergePDFs_in_bounds.
  - apply ProgressFacts.repair_in_bounds.
  - apply ProgressFacts.imagesToPDF_in_bounds.
Qed.

(** When every page number to delete is a page of the source, the percents
    [deletePages] passes to the progress callback lie in [0, 100]. *)
Theorem deletePages_progress_within_bounds {Content : Type} (doc : document Content)
        (pageNumbers : list number) (cb : bool)
        (Hsource : pages_of_source (List.length doc) pageNumbers) :
  Forall Percent.in_range (Async.percents (deletePages (Parsed doc) pageNumbers cb)).
Proof.
  apply ProgressFacts.percents_in_range.
  now apply ProgressFacts.deletePages_in_bounds.
Qed.

(** Pages 2 and 3 (page 2 listed twice) of a three-page document. *)
Lemma deletePages_progress_within_bounds_witness :
  Forall Percent.in_range
         (Async.percents
            (deletePages (readable_file [mkPage "A" 0; mkPage "B" 0; mkPage "C" 0])
                         [Int 2; Int 2; Int 3] true)).
Proof.
  apply (deletePages_progress_within_bounds
           (map Readable [mkPage "A" 0; mkPage "B" 0; mkPage "C" 0])
           [Int 2; Int 2; Int 3] true).
  repeat constructor; eexists; (split; [reflexivity|simpl; lia]).
Defined.


(** * More of the code *)

(** ** The page-range parser on every input *)

Module ParserAnyInput.

Import StringFacts DocumentFacts ProgressFacts.

Lemma all_units_trimStart P s :
  all_units P s = true -> all_units P (JSString.trimStart s) = true.
Proof.
  induction s as [|c s IH]; [reflexivity|].
  intros H. cbn [JSString.trimStart]. destruct (JSString.is_white_space c); [|exact H].
  apply IH. simpl in H. now apply andb_prop in H as [_ H].
Qed.

Lemma all_units_trimEnd P s :
  all_units P s = true -> all_units P (JSString.trimEnd s) = true.
Proof.
  induction s as [|c s IH]; [reflexivity|].
  intros H. simpl in H. apply andb_prop in H as [Hc Hs].
  cbn [JSString.trimEnd]. specialize (IH Hs).
  destruct (JSString.trimEnd s) as [|d t].
  - destruct (JSString.is_white_space c); [reflexivity|]. simpl. now rewrite Hc.
  - cbn [all_units] in *. now rewrite Hc, IH.
Qed.

Lemma all_units_trim P s :
  all_units P s = true -> all_units P (JSString.trim s) = true.
Proof. intros H. now apply all_units_trimEnd, all_units_trimStart. Qed.

Lemma includes_false_units c s :
  JSString.includes c s = false ->
  all_units (fun d => negb (Ascii.eqb d c)) s = true.
Proof.
  induction s as [|d s IH]; [reflexivity|].
  simpl. destruct (Ascii.eqb d c); [discriminate|]. exact IH.
Qed.

(** The pieces of a split hold no separator. *)
Lemma split_pieces sep s :
  Forall (fun piece => all_units (fun d => negb (Ascii.eqb d sep)) piece = true)
         (JSString.split sep s).
Proof.
  induction s as [|c s IH]; [repeat constructor|].
  cbn [JSString.split]. destruct (Ascii.eqb c sep) eqn:Hc.
  - constructor; [reflexivity|exact IH].
  - destruct (JSString.split sep s) as [|piece pieces]; [repeat constructor; simpl; now rewrite Hc|].
    inversion IH as [|? ? Hp Hps]; subst. constructor; [|assumption].
    simpl. now rewrite Hc, Hp.
Qed.

Lemma digit_value_not_negative radix c d :
  JSString.digit_value radix c = Some d -> 0 <= d.
Proof.
  unfold JSString.digit_value.
  set (n := Z.of_nat (nat_of_ascii c)).
  destruct (Z.leb_spec 48 n), (Z.leb_spec n 57); simpl;
    try (destruct (_ <? radix); intros [= <-]; lia);
    destruct (Z.leb_spec 97 n), (Z.leb_spec n 122); simpl;
    try (destruct (_ <? radix); intros [= <-]; lia);
    destruct (Z.leb_spec 65 n), (Z.leb_spec n 90); simpl;
    try (destruct (_ <? radix); intros [= <-]; lia); discriminate.
Qed.

Lemma parse_digits_not_negative radix s : forall acc seen v,
  0 <= radix -> 0 <= acc ->
  JSString.parse_digits radix acc seen s = Some v -> 0 <= v.
Proof.
  induction s as [|c s IH]; intros acc seen v Hr Hacc; cbn [JSString.parse_digits].
  - destruct seen; intros [= <-]; assumption.
  - destruct (JSString.digit_value radix c) as [d|] eqn:Hd.
    + apply IH; [assumption|]. pose proof (digit_value_not_negative radix c d Hd). nia.
    + destruct seen; intros [= <-]; assumption.
Qed.

Lemma magnitude_not_negative s v : JSString.magnitude s = Some v -> 0 <= v.
Proof.
  unfold JSString.magnitude.
  destruct (JSString.strip_prefix s) as [radix digits] eqn:E.
  assert (0 <= radix) as Hr.
  { unfold JSString.strip_prefix in E.
    repeat match type of E with
           | match ?x with _ => _ end = _ => destruct x
           | (if ?b then _ else _) = _ => destruct b
           end; injection E as <- _; lia. }
  now apply parse_digits_not_negative.
Qed.

(** [parseInt] of a string without a minus sign is not negative. *)
Lemma parseInt_not_negative s :
  all_units (fun d => negb (Ascii.eqb d "-")) s = true ->
  not_negative (JSString.parseInt s).
Proof.
  intros Hs. apply all_units_trimStart in Hs. unfold JSString.parseInt.
  destruct (JSString.trimStart s) as [|c r] eqn:E.
  - destruct (JSString.magnitude "") eqn:Hm; [|exact I].
    simpl. now apply magnitude_not_negative in Hm.
  - destruct (Ascii.eqb_spec c "-") as [->|Hc]; [discriminate|].
    assert (exists s2, (let '(negative, s2) :=
                          match String c r with
                          | String "-" r => (true, r)
                          | String "+" r => (false, r)
                          | _ => (false, String c r)
                          end in
                        match JSString.magnitude s2 with
                        | Some v => Int (if negative then - v else v)
                        | None => NaN
                        end)
                       = match JSString.magnitude s2 with
                         | Some v => Int v
                         | None => NaN
                         end) as (s2 & ->).
    { destruct c as [[|] [|] [|] [|] [|] [|] [|] [|]];
        try (eexists; reflexivity).
      now destruct Hc. }
    destruct (JSString.magnitude s2) eqn:Hm; [|exact I].
    simpl. now apply magnitude_not_negative in Hm.
Qed.

Lemma pages_ok_add x pages :
  not_negative x -> pages_ok pages -> pages_ok (JSSet.add x pages).
Proof.
  intros Hx [Hnd Hall]. split; [now apply add_NoDup|].
  unfold JSSet.add. destruct (JSSet.has x pages); [assumption|].
  apply Forall_app. split; [assumption|now repeat constructor].
Qed.

Lemma pages_ok_add_range count : forall i pages,
  0 <= i -> pages_ok pages -> pages_ok (add_range count i pages).
Proof.
  induction count as [|count IH]; intros i pages Hi Hok; [assumption|].
  cbn [add_range]. apply IH; [lia|]. now apply pages_ok_add.
Qed.

Lemma pages_ok_parse_part pages part :
  pages_ok pages -> pages_ok (parse_part pages part).
Proof.
  intros Hok. unfold parse_part.
  destruct (JSString.includes "-" (JSString.trim part)) eqn:Hinc.
  - pose proof (split_pieces "-" (JSString.trim part)) as Hpieces.
    assert (Forall not_negative
              (map (fun n => JSString.parseInt (JSString.trim n))
                   (JSString.split "-" (JSString.trim part)))) as Hbounds.
    { apply Forall_map. eapply Forall_impl; [|exact Hpieces].
      intros piece Hp. apply parseInt_not_negative, all_units_trim. exact Hp. }
    set (bounds := map _ _) in *.
    assert (not_negative (nth 0 bounds NaN)) as H0.
    { destruct (nth_in_or_default 0 bounds NaN) as [Hin| ->]; [|exact I].
      rewrite Forall_forall in Hbounds. now apply Hbounds. }
    unfold for_range. destruct (nth 0 bounds NaN) as [|a]; [assumption|].
    destruct (nth 1 bounds NaN) as [|b]; [assumption|].
    now apply pages_ok_add_range.
  - apply pages_ok_add; [|assumption].
    now apply parseInt_not_negative, includes_false_units.
Qed.

Lemma pages_ok_parse_parts parts : forall pages,
  pages_ok pages -> pages_ok (fold_left parse_part parts pages).
Proof.
  induction parts as [|part parts IH]; intros pages Hok; [assumption|].
  cbn [fold_left]. now apply IH, pages_ok_parse_part.
Qed.

Lemma sort_insert_permutation x l : Permutation (x :: l) (sort_insert x l).
Proof.
  induction l as [|y l IH]; [reflexivity|].
  cbn [sort_insert]. destruct (goes_after x y); [|reflexivity].
  rewrite perm_swap. now constructor.
Qed.

Lemma sort_ascending_permutation l : Permutation l (sort_ascending l).
Proof.
  unfold sort_ascending. induction l as [|x l IH]; [reflexivity|].
  cbn [fold_right]. rewrite <- sort_insert_permutation. now constructor.
Qed.

End ParserAnyInput.

(** On every input string, well formed or not, the result of
    [parsePageRange] has no repeated element (so at most one [NaN]) and no
    negative number: a minus sign always makes a range, never a sign. *)
Theorem parsePageRange_distinct_not_negative (input : string) :
  NoDup (parsePageRange input)
  /\ forall z, In (Int z) (parsePageRange input) -> 0 <= z.
Proof.
  unfold parsePageRange.
  destruct (ParserAnyInput.pages_ok_parse_parts (JSString.split "," input) [])
    as [Hnd Hall]; [split; constructor|].
  pose proof (ParserAnyInput.sort_ascending_permutation
                (fold_left parse_part (JSString.split "," input) [])) as Hperm.
  split.
  - now apply (Permutation_NoDup Hperm).
  - intros z Hz. apply Permutation_sym in Hperm.
    apply (Permutation_in _ Hperm) in Hz.
    rewrite Forall_forall in Hall. exact (Hall (Int z) Hz).
Qed.

(** ** File intake of the application controller *)

Module IntakeFacts.

Lemma splice_one_incl {A : Type} (index : nat) (l : list A) :
  incl (splice_one index l) l.
Proof.
  revert index. induction l as [|x l IH]; intros [|i]; simpl.
  - apply incl_refl.
  - apply incl_refl.
  - apply incl_tl, incl_refl.
  - intros y [->|Hy]; [now left | right; exact (IH i y Hy)].
Qed.

Lemma splice_one_length {A : Type} (index : nat) (l : list A) :
  (List.length (splice_one index l) <= List.length l)%nat.
Proof.
  revert index. induction l as [|x l IH]; intros [|i]; simpl; try lia.
  specialize (IH i). lia.
Qed.

Lemma find_tool_id (id : string) (t : toolDef) :
  find (fun t => String.eqb (tool_id t) id) toolDefs = Some t ->
  In t toolDefs /\ tool_id t = id.
Proof.
  intros H. apply find_some in H as [Hin Heq].
  split; [exact Hin | now apply String.eqb_eq].
Qed.

Lemma handleFiles_ok (fileList : list file) (app : appState) :
  files_ok app -> files_ok (fst (handleFiles fileList app)).
Proof.
  intros Hok. unfold handleFiles.
  destruct (activeTool app) as [t|] eqn:Ht; [|exact Hok].
  destruct (negb (tool_multiple t) && (1 <? List.length fileList)%nat)%bool
    eqn:Hmany; [exact Hok|].
  cbn [files].
  destruct (forallb (file_accepted (tool_id t)) fileList) eqn:Hall;
    cbn [negb].
  - assert (files_ok (mkApp (Some t) fileList)) as Hnew.
    { unfold files_ok. cbn [activeTool files]. split.
      - apply Forall_forall. now apply forallb_forall.
      - intros Hone. rewrite Hone in Hmany. cbn [negb andb] in Hmany.
        apply Nat.ltb_ge in Hmany. exact Hmany. }
    now destruct (String.eqb (tool_id t) "organize"
                  || String.eqb (tool_id t) "split"
                  || String.eqb (tool_id t) "delete-pages")%bool.
  - unfold files_ok. cbn [fst activeTool files List.length].
    split; [constructor | intros _; lia].
Qed.

Lemma selectTool_ok (id : string) (app : appState) :
  files_ok (fst (selectTool id app)).
Proof.
  unfold selectTool.
  destruct (find _ toolDefs) as [t|]; unfold files_ok;
    cbn [fst activeTool files List.length]; [|exact I].
  split; [constructor | intros _; lia].
Qed.

Lemma removeFile_ok (index : nat) (app : appState) :
  files_ok app -> files_ok (removeFile index app).
Proof.
  unfold files_ok, removeFile. cbn [activeTool files].
  destruct (activeTool app) as [t|]; [|trivial].
  intros [Hall Hone]. split.
  - apply Forall_forall. intros f Hf.
    apply (proj1 (Forall_forall _ _) Hall), (splice_one_incl index), Hf.
  - intros Hm. specialize (Hone Hm).
    pose proof (splice_one_length index (files app)). lia.
Qed.

Lemma act_ok (app : appState) (a : action) :
  files_ok app -> files_ok (act app a).
Proof.
  destruct a as [id|fileList|index]; cbn [act]; intros Hok.
  - apply selectTool_ok.
  - now apply handleFiles_ok.
  - now apply removeFile_ok.
Qed.

Lemma fold_act_ok (actions : list action) (app : appState) :
  files_ok app -> files_ok (fold_left act actions app).
Proof.
  revert app. induction actions as [|a actions IH]; intros app Hok;
    cbn [fold_left]; [exact Hok|].
  now apply IH, act_ok.
Qed.

End IntakeFacts.

(** Whatever tools the user selects and whatever files are dropped or
    removed, in any order, the files the application holds all passed the
    check of the tool that is active, and a tool that takes one file never
    holds two.  So [process] only ever gets files that were checked for the
    current tool. *)
Theorem stored_files_passed_the_check (actions : list action) :
  match activeTool (after actions) with
  | None => True
  | Some t =>
      Forall (fun f => file_accepted (tool_id t) f = true)
             (files (after actions))
      /\ (tool_multiple t = false ->
          (List.length (files (after actions)) <= 1)%nat)
  end.
Proof.
  apply (IntakeFacts.fold_act_ok actions initialApp). exact I.
Qed.

(** The check [handleFiles] applies depends on the words in the tool's id:
    of the tools in the list, PDF-to-Word and Word-to-PDF take the office
    document check, Images-to-PDF the image check, and every other tool the
    PDF check.  So the PDF-to-Word tool refuses every file whose type is
    application/pdf, and the Excel-to-PDF and PowerPoint-to-PDF tools refuse
    every file that is not a PDF, although the file dialog they open asks
    for spreadsheets and presentations. *)
Theorem handleFiles_check_by_tool :
  (forall t, In t toolDefs -> forall f,
      file_accepted (tool_id t) f =
        if (String.eqb (tool_id t) "pdf-to-word"
            || String.eqb (tool_id t) "word-to-pdf")%bool then isValidDoc f
        else if String.eqb (tool_id t) "images-to-pdf" then isValidImage f
        else isValidPDF f)
  /\ (forall f, type f = "application/pdf" ->
        file_accepted "pdf-to-word" f = false)
  /\ (forall f, isValidPDF f = false ->
        file_accepted "excel-to-pdf" f = false
        /\ file_accepted "ppt-to-pdf" f = false)
  /\ accept_attribute "excel-to-pdf" = ".xls,.xlsx"
  /\ accept_attribute "ppt-to-pdf" = ".ppt,.pptx".
Proof.
  split; [|split; [|split; [|split; reflexivity]]].
  - intros t Hin f. cbv [toolDefs In] in Hin.
    repeat (destruct Hin as [<-|Hin]; [reflexivity|]).
    destruct Hin.
  - intros f Hf. change (file_accepted "pdf-to-word" f) with (isValidDoc f).
    unfold isValidDoc. rewrite Hf. reflexivity.
  - intros f Hf. split; exact Hf.
Qed.

(** ** Thumbnails, [organize] and the delete-pages tool *)

Module ThumbnailFacts.

Import Async AsyncFacts PickFacts DocumentFacts.

Lemma splice_one_map {A B} (g : A -> B) index (l : list A) :
  map g (splice_one index l) = splice_one index (map g l).
Proof.
  revert index. induction l as [|x l IH]; intros [|i]; simpl; try reflexivity.
  now rewrite IH.
Qed.

Lemma splice_one_permutation {A} index (l : list A) item :
  nth_error l index = Some item -> Permutation l (item :: splice_one index l).
Proof.
  revert index. induction l as [|x l IH]; intros [|i]; simpl; try discriminate.
  - intros [= ->]. apply Permutation_refl.
  - intros H. apply IH in H.
    apply Permutation_trans with (x :: item :: splice_one i l).
    + now apply perm_skip.
    + apply perm_swap.
Qed.

Lemma splice_in_permutation {A} index (item : A) (l : list A) :
  Permutation (item :: l) (splice_in index item l).
Proof.
  unfold splice_in. rewrite <- (firstn_skipn index l) at 1.
  apply Permutation_middle.
Qed.

Lemma onEnd_permutation oldIndex newIndex pageState pageState' :
  onEnd oldIndex newIndex pageState = Some pageState' ->
  Permutation pageState pageState'.
Proof.
  unfold onEnd. destruct (nth_error pageState oldIndex) as [item|] eqn:E;
    [|discriminate].
  intros [= <-].
  eapply Permutation_trans; [apply (splice_one_permutation _ _ _ E)|].
  apply splice_in_permutation.
Qed.

Lemma splice_one_NoDup {A} index (l : list A) :
  NoDup l -> NoDup (splice_one index l).
Proof.
  revert index. induction l as [|x l IH]; intros [|i] Hnd; simpl;
    try assumption; inversion Hnd as [|? ? Hx Hl]; subst; [assumption|].
  constructor; [|now apply IH].
  intros Hin. apply Hx. now apply (IntakeFacts.splice_one_incl i l).
Qed.

Lemma update_at_map {A B} (g : A -> A) (h : A -> B) index (l : list A) :
  (forall x, h (g x) = h x) -> map h (update_at index g l) = map h l.
Proof.
  intros Hg. revert index. induction l as [|x l IH]; intros [|i]; simpl;
    try reflexivity; [now rewrite Hg | now rewrite IH].
Qed.

Lemma update_at_Forall {A} (P : A -> Prop) (g : A -> A) index (l : list A) :
  (forall x, P x -> P (g x)) -> Forall P l -> Forall P (update_at index g l).
Proof.
  intros Hg Hl. revert index.
  induction Hl as [|x l Hx Hl IH]; intros [|i]; simpl; constructor;
    auto.
Qed.

Lemma quarter_turn r :
  In r [0; 90; 180; 270] -> In (Z.rem (r + 90) 360) [0; 90; 180; 270].
Proof.
  intros [<-|[<-|[<-|[<-|[]]]]]; vm_compute; auto.
Qed.

Lemma render_from_result pdf count : forall i pageState,
  exists k, (k <= count)%nat
            /\ fst (render_from pdf count i pageState)
               = (pageState
                  ++ map (fun j => PageState.mk (Z.of_nat j - 1) 0) (seq i k))%list.
Proof.
  induction count as [|count IH]; intros i pageState; cbn [render_from].
  - exists O. split; [lia|]. simpl. now rewrite List.app_nil_r.
  - destruct (nth_error pdf (i - 1)) as [[items|message]|].
    + destruct (IH (S i) (pageState ++ [PageState.mk (Z.of_nat i - 1) 0])%list)
        as (k & Hk & ->).
      exists (S k). split; [lia|]. cbn [seq map]. now rewrite <- app_assoc.
    + exists O. split; [lia|]. simpl. now rewrite List.app_nil_r.
    + exists O. split; [lia|]. simpl. now rewrite List.app_nil_r.
Qed.

Lemma render_from_drawn pdf count : forall i pageState,
  (1 <= i)%nat ->
  (forall j, (i <= j < i + count)%nat -> exists items, nth_error pdf (j - 1) = Some (Drawn items)) ->
  render_from pdf count i pageState
  = ((pageState
      ++ map (fun j => PageState.mk (Z.of_nat j - 1) 0) (seq i count))%list, None).
Proof.
  induction count as [|count IH]; intros i pageState Hi Hall; cbn [render_from].
  - simpl. now rewrite List.app_nil_r.
  - destruct (Hall i ltac:(lia)) as (items & ->).
    rewrite IH; [|lia|intros j Hj; apply Hall; lia].
    cbn [seq map]. now rewrite <- app_assoc.
Qed.

Lemma renderThumbnails_result (file : viewFile) :
  exists k, (k <= pages_shown file)%nat
            /\ fst (renderThumbnails (Some file))
               = map (fun j => PageState.mk (Z.of_nat j) 0) (seq 0 k).
Proof.
  destruct file as [pdf|message]; cbn [renderThumbnails pages_shown].
  - destruct (render_from_result pdf (Nat.min (numPages pdf) 50) 1 []) as (k & Hk & Hres).
    exists k. split; [exact Hk|].
    destruct (render_from pdf _ 1 []) as [pageState [e|]]; cbn [fst] in *;
      rewrite Hres; cbn [List.app]; rewrite <- seq_shift, map_map;
      apply map_ext; intros j; f_equal; lia.
  - exists O. split; [lia|reflexivity].
Qed.

Lemma rendered_ok (count k : nat) :
  (k <= count)%nat ->
  pageState_ok count (map (fun j => PageState.mk (Z.of_nat j) 0) (seq 0 k)).
Proof.
  intros Hk. split.
  - rewrite map_map. cbn [PageState.originalIndex].
    apply Finite.Injective_map_NoDup; [|apply seq_NoDup].
    intros a b H. lia.
  - apply Forall_forall. intros p Hp. apply in_map_iff in Hp as (j & <- & Hj).
    apply in_seq in Hj. cbn [PageState.originalIndex PageState.rotation].
    split; [lia|now left].
Qed.

Lemma rotatePage_ok count index pageState :
  pageState_ok count pageState -> pageState_ok count (rotatePage index pageState).
Proof.
  intros [Hnd Hall]. unfold rotatePage.
  destruct (findIndex _ pageState) as [at_|]; [|now split].
  split.
  - rewrite update_at_map; [exact Hnd|reflexivity].
  - apply update_at_Forall; [|exact Hall].
    intros p [Hp Hr]. cbn [PageState.originalIndex PageState.rotation].
    split; [exact Hp|now apply quarter_turn].
Qed.

Lemma deletePage_ok count index pageState :
  pageState_ok count pageState -> pageState_ok count (deletePage index pageState).
Proof.
  intros [Hnd Hall]. unfold deletePage.
  destruct (findIndex _ pageState) as [arrIdx|]; [|now split].
  split.
  - rewrite splice_one_map. now apply splice_one_NoDup.
  - apply Forall_forall. intros p Hp. rewrite Forall_forall in Hall.
    now apply Hall, (IntakeFacts.splice_one_incl arrIdx).
Qed.

Lemma onEnd_ok count oldIndex newIndex pageState pageState' :
  onEnd oldIndex newIndex pageState = Some pageState' ->
  pageState_ok count pageState -> pageState_ok count pageState'.
Proof.
  intros Hend [Hnd Hall]. apply onEnd_permutation in Hend. split.
  - apply (Permutation_NoDup (Permutation_map _ Hend) Hnd).
  - apply (Permutation_Forall Hend Hall).
Qed.

Lemma shown_ok (file : viewFile) pageState :
  shown file pageState -> pageState_ok (pages_shown file) pageState.
Proof.
  induction 1 as [|index pageState _ IH|index pageState _ IH
                  |oldIndex newIndex pageState pageState' _ IH Hend].
  - destruct (renderThumbnails_result file) as (k & Hk & ->).
    now apply rendered_ok.
  - now apply rotatePage_ok.
  - now apply deletePage_ok.
  - now apply (onEnd_ok _ _ _ _ _ Hend).
Qed.

Section WithContent.

Context {Content : Type}.

Lemma fold_left_configured (ps : list (page Content)) pageConfig :
  forall s : document Content,
  fold_left (fun s config => (s ++ map Readable (configured ps config))%list) pageConfig s
  = (s ++ map Readable (flat_map (configured ps) pageConfig))%list.
Proof.
  induction pageConfig as [|c l IH]; intros s; cbn [fold_left flat_map].
  - now rewrite List.app_nil_r.
  - now rewrite IH, map_app, app_assoc.
Qed.

Lemma organize_result (ps : list (page Content)) pageConfig cb :
  Forall (fun c => 0 <= PageState.originalIndex c < Z.of_nat (List.length ps)) pageConfig ->
  result (organize (readable_file ps) pageConfig cb)
  = Returned (readable_file (flat_map (configured ps) pageConfig)).
Proof.
  intros Hrange. unfold organize, readable_file. cbn [load]. rewrite bind_ret, result_bind.
  rewrite for_loop_for_of.
  rewrite (for_of_fold (fun s i => match nth_error pageConfig i with
                                   | Some c => (s ++ map Readable (configured ps c))%list
                                   | None => s
                                   end)).
  - rewrite (FailureFacts.fold_left_all_indices
               (fun s c => (s ++ map Readable (configured ps c))%list)).
    now rewrite fold_left_configured.
  - intros i s Hi. apply in_seq in Hi.
    rewrite result_bind, result_report. cbv iota beta.
    destruct (nth_error pageConfig i) as [c|] eqn:E;
      [|apply nth_error_None in E; lia].
    rewrite Forall_forall in Hrange. specialize (Hrange c (nth_error_In _ _ E)).
    rewrite result_bind.
    rewrite <- (Z2Nat.id (PageState.originalIndex c)) at 1 by lia.
    rewrite result_copyPage, nth_error_map. unfold configured.
    destruct (nth_error ps (Z.to_nat (PageState.originalIndex c))) as [p|] eqn:Ep;
      [|apply nth_error_None in Ep; lia].
    cbn [option_map]. unfold addPage, rotate_page.
    now destruct (PageState.rotation c =? 0).
Qed.

Lemma configured_length (ps : list (page Content)) pageConfig :
  Forall (fun c => 0 <= PageState.originalIndex c < Z.of_nat (List.length ps)) pageConfig ->
  List.length (flat_map (configured ps) pageConfig) = List.length pageConfig.
Proof.
  induction 1 as [|c l Hc _ IH]; [reflexivity|].
  cbn [flat_map]. rewrite length_app, IH. unfold configured.
  destruct (nth_error ps (Z.to_nat (PageState.originalIndex c))) eqn:E;
    [reflexivity|apply nth_error_None in E; lia].
Qed.

Lemma organize_throws (doc : document Content) pageConfig cb c :
  In c pageConfig ->
  ~ (0 <= PageState.originalIndex c < Z.of_nat (List.length doc)) ->
  exists e, result (organize (Parsed doc) pageConfig cb) = Thrown e.
Proof.
  intros Hin Hout. unfold organize. cbn [load]. rewrite bind_ret, result_bind.
  rewrite for_loop_for_of.
  destruct (In_nth_error _ _ Hin) as (i & Hi).
  match goal with
  | |- context [for_of ?l ?body ?s] =>
      destruct (FailureFacts.for_of_must_throw body (fun j => j = i) l s) as (e & He)
  end.
  - intros j s _ ->. rewrite result_bind, result_report. cbv iota beta.
    rewrite Hi, result_bind. unfold copyPage.
    destruct (Z.ltb_spec (PageState.originalIndex c) 0); [now eexists|].
    destruct (nth_error doc (Z.to_nat (PageState.originalIndex c))) as [[p|m]|] eqn:E;
      [|now eexists|now eexists].
    exfalso. apply Hout. split; [lia|].
    assert (Z.to_nat (PageState.originalIndex c) < List.length doc)%nat
      by (apply nth_error_Some; congruence).
    lia.
  - exists i. split; [|reflexivity]. apply in_seq.
    assert (i < List.length pageConfig)%nat by (apply nth_error_Some; congruence).
    lia.
  - exists e. now rewrite He.
Qed.

Lemma organize_in_bounds (f : pdfFile Content) pageConfig cb :
  in_bounds (organize f pageConfig cb).
Proof.
  unfold organize. apply ProgressFacts.in_bounds_bind; [apply ProgressFacts.in_bounds_load|].
  intros srcPdf _.
  apply ProgressFacts.in_bounds_bind; [|intros; apply ProgressFacts.in_bounds_save].
  rewrite for_loop_for_of. apply ProgressFacts.in_bounds_for_each.
  intros i s Hi. apply in_seq in Hi.
  apply ProgressFacts.in_bounds_bind;
    [apply ProgressFacts.in_bounds_report, ProgressFacts.index_ratio_in_range; lia|].
  intros _ _. destruct (nth_error pageConfig i);
    [|apply ProgressFacts.in_bounds_throw].
  apply ProgressFacts.in_bounds_bind; [apply ProgressFacts.in_bounds_copyPage|].
  intros; apply ProgressFacts.in_bounds_ret.
Qed.

End WithContent.

End ThumbnailFacts.

Module DeleteToolFacts.

Import Async AsyncFacts PickFacts DocumentFacts.

Lemma list_pair_ind {A} (P : list A -> Prop) :
  P [] -> (forall x, P [x]) -> (forall x y l, P l -> P (x :: y :: l)) ->
  forall l, P l.
Proof.
  intros H0 H1 H2. fix IH 1.
  intros [|x [|y l]]; [exact H0 | apply H1 | apply H2, IH].
Qed.

Lemma mod2_even k : (k mod 2 =? 0)%nat = Nat.even k.
Proof.
  induction k as [k IH] using (well_founded_induction lt_wf).
  destruct k as [|[|k]]; [reflexivity|reflexivity|].
  rewrite Nat.even_succ_succ, <- IH by lia.
  replace (S (S k)) with (k + 1 * 2)%nat by lia.
  now rewrite Nat.Div0.mod_add.
Qed.

Lemma pick_filter_seq {A} (P : nat -> bool) (rest : list A) : forall pre,
  pick (pre ++ rest) (filter P (seq (List.length pre) (List.length rest)))
  = map snd (filter (fun ip => P (fst ip))
                    (combine (seq (List.length pre) (List.length rest)) rest)).
Proof.
  induction rest as [|x rest IH]; intros pre; [reflexivity|].
  cbn [List.length seq combine filter fst].
  specialize (IH (pre ++ [x])%list).
  rewrite <- app_assoc, length_app, Nat.add_1_r in IH. cbn [List.app] in IH.
  destruct (P (List.length pre)).
  - unfold pick, pick_with in *. cbn [flat_map map snd].
    rewrite nth_error_app2, Nat.sub_diag by lia. cbn [nth_error List.app].
    f_equal. exact IH.
  - exact IH.
Qed.

Lemma keep_all {A} (P : nat -> bool) (l : list A) : forall k,
  (forall i, (k <= i)%nat -> P i = true) ->
  map snd (filter (fun ip => P (fst ip)) (combine (seq k (List.length l)) l)) = l.
Proof.
  induction l as [|x l IH]; intros k HP; [reflexivity|].
  cbn [List.length seq combine filter fst]. rewrite HP by lia.
  cbn [map snd]. f_equal. apply IH. intros i Hi. apply HP. lia.
Qed.

(** Dropping the even positions below [m] keeps the odd positions of the
    first [m] elements and all the elements after them. *)
Lemma keep_odd_positions {A} (l : list A) : forall k m,
  Nat.even k = true ->
  Nat.even m = true \/ (List.length l <= m)%nat ->
  map snd (filter (fun ip => negb (Nat.even (fst ip) && (fst ip <? k + m)%nat))
                  (combine (seq k (List.length l)) l))
  = (odd_positions (firstn m l) ++ skipn m l)%list.
Proof.
  induction l as [|x|x y l IH] using list_pair_ind; intros k m Hk Hm.
  - now rewrite firstn_nil, skipn_nil.
  - cbn [List.length seq combine filter fst]. rewrite Hk. cbn [andb].
    destruct m as [|m]; [now rewrite Nat.add_0_r, Nat.ltb_irrefl|].
    destruct (Nat.ltb_spec k (k + S m)) as [_|H]; [|lia].
    cbn [negb map firstn skipn]. rewrite firstn_nil, skipn_nil. reflexivity.
  - destruct m as [|[|m]].
    + rewrite Nat.add_0_r. cbn [firstn skipn odd_positions List.app].
      apply (keep_all (fun i => negb (Nat.even i && (i <? k)%nat))). intros i Hi.
      destruct (Nat.ltb_spec i k); [lia|]. now rewrite andb_false_r.
    + destruct Hm as [Hm|Hm]; [discriminate|]. cbn [List.length] in Hm. lia.
    + cbn [List.length seq combine filter fst]. rewrite Hk.
      rewrite Nat.even_succ, <- Nat.negb_even, Hk. cbn [negb andb].
      destruct (Nat.ltb_spec k (k + S (S m))) as [_|H]; [|lia].
      cbn [negb map snd firstn skipn odd_positions List.app]. f_equal.
      specialize (IH (S (S k)) m).
      replace (S (S k) + m)%nat with (k + S (S m))%nat in IH by lia.
      apply IH.
      * now rewrite Nat.even_succ_succ.
      * destruct Hm as [Hm|Hm]; [left; now rewrite Nat.even_succ_succ in Hm|].
        right. cbn [List.length] in Hm. lia.
Qed.

Lemma combine_map_self {A B} (g : A -> B) (l : list A) :
  combine l (map g l) = map (fun x => (x, g x)) l.
Proof. induction l as [|x l IH]; [reflexivity|]. simpl. now rewrite IH. Qed.

Lemma existsb_map {A B} (f : B -> bool) (g : A -> B) (l : list A) :
  existsb f (map g l) = existsb (fun x => f (g x)) l.
Proof. induction l as [|x l IH]; [reflexivity|]. simpl. now rewrite IH. Qed.

(** The page numbers to delete, for thumbnails nobody touched. *)
Lemma pagesToDelete_rendered (m : nat) :
  pagesToDelete (map (fun j => PageState.mk (Z.of_nat j) 0) (seq 0 m))
  = map (fun j => Int (Z.of_nat j + 1)) (filter Nat.even (seq 0 m)).
Proof.
  unfold pagesToDelete. rewrite length_map, length_seq, combine_map_self.
  rewrite filter_map_swap, !map_map. cbn [fst snd PageState.originalIndex].
  f_equal. apply filter_ext. intros j. apply mod2_even.
Qed.

Lemma listed_rendered (m i : nat) :
  listed (Z.of_nat i + 1)
         (pagesToDelete (map (fun j => PageState.mk (Z.of_nat j) 0) (seq 0 m)))
  = (Nat.even i && (i <? m)%nat)%bool.
Proof.
  rewrite pagesToDelete_rendered. unfold listed. rewrite existsb_map.
  apply eq_true_iff_eq. rewrite existsb_exists, andb_true_iff, Nat.ltb_lt.
  split.
  - intros (j & Hj & Heq). apply filter_In in Hj as [Hj Hev]. apply in_seq in Hj.
    cbn [same_value_zero] in Heq. apply Z.eqb_eq in Heq.
    assert (i = j) as -> by lia. split; [exact Hev|lia].
  - intros [Hev Hlt]. exists i. split.
    + apply filter_In. split; [apply in_seq; lia|exact Hev].
    + cbn [same_value_zero]. apply Z.eqb_refl.
Qed.

Lemma renderThumbnails_drawn (pdf : list viewPage) :
  Forall (fun v => exists items, v = Drawn items) pdf ->
  fst (renderThumbnails (Some (Opened pdf)))
  = map (fun j => PageState.mk (Z.of_nat j) 0) (seq 0 (Nat.min (numPages pdf) 50)).
Proof.
  intros Hall. cbn [renderThumbnails].
  rewrite ThumbnailFacts.render_from_drawn; [|lia|].
  - cbn [fst List.app]. rewrite <- seq_shift, map_map.
    apply map_ext. intros j. f_equal. lia.
  - intros j Hj. unfold numPages in Hj.
    destruct (nth_error pdf (j - 1)) as [v|] eqn:E;
      [|apply nth_error_None in E; lia].
    rewrite Forall_forall in Hall.
    destruct (Hall v (nth_error_In _ _ E)) as (items & ->). now exists items.
Qed.

Lemma firstn_min_length {A} (l : list A) n :
  firstn (Nat.min (List.length l) n) l = firstn n l.
Proof.
  destruct (Nat.le_ge_cases (List.length l) n) as [H|H].
  - rewrite Nat.min_l by exact H. now rewrite !firstn_all2 by lia.
  - now rewrite Nat.min_r by exact H.
Qed.

Lemma skipn_min_length {A} (l : list A) n :
  skipn (Nat.min (List.length l) n) l = skipn n l.
Proof.
  destruct (Nat.le_ge_cases (List.length l) n) as [H|H].
  - rewrite Nat.min_l by exact H. now rewrite !skipn_all2 by lia.
  - now rewrite Nat.min_r by exact H.
Qed.

Lemma pick_ext {A} (ps qs : list A) l :
  (forall i, In i l -> nth_error ps i = nth_error qs i) -> pick ps l = pick qs l.
Proof.
  intros H. unfold pick, pick_with.
  induction l as [|i l IH]; [reflexivity|].
  cbn [flat_map]. rewrite (H i (or_introl eq_refl)), IH; [reflexivity|].
  intros j Hj. apply H. now right.
Qed.

Lemma pick_seq_firstn {A} (ps : list A) m :
  (m <= List.length ps)%nat -> pick ps (seq 0 m) = firstn m ps.
Proof.
  intros Hm. rewrite <- (pick_seq (firstn m ps)) at 1.
  rewrite length_firstn, Nat.min_l by exact Hm.
  apply pick_ext. intros i Hi. apply in_seq in Hi.
  rewrite nth_error_firstn. destruct (Nat.ltb_spec i m); [reflexivity|lia].
Qed.

Section WithContent.

Context {Content : Type}.

Lemma configured_rendered (ps : list (page Content)) (l : list nat) :
  flat_map (configured ps) (map (fun j => PageState.mk (Z.of_nat j) 0) l) = pick ps l.
Proof.
  unfold pick, pick_with. rewrite flat_map_concat_map, map_map, <- flat_map_concat_map.
  apply flat_map_ext. intros j. unfold configured.
  cbn [PageState.originalIndex PageState.rotation]. rewrite Nat2Z.id.
  now destruct (nth_error ps j).
Qed.

Lemma organize_rendered (ps : list (page Content)) (pdf : list viewPage) cb :
  Forall (fun v => exists items, v = Drawn items) pdf ->
  numPages pdf = List.length ps ->
  result (organize (readable_file ps) (fst (renderThumbnails (Some (Opened pdf)))) cb)
  = Returned (readable_file (firstn 50 ps)).
Proof.
  intros Hall Hn. rewrite (renderThumbnails_drawn pdf Hall), Hn.
  rewrite ThumbnailFacts.organize_result.
  - rewrite configured_rendered, pick_seq_firstn by lia.
    now rewrite firstn_min_length.
  - apply Forall_forall. intros c Hc. apply in_map_iff in Hc as (j & <- & Hj).
    apply in_seq in Hj. cbn [PageState.originalIndex]. lia.
Qed.

Lemma delete_rendered (ps : list (page Content)) (pdf : list viewPage) cb :
  Forall (fun v => exists items, v = Drawn items) pdf ->
  numPages pdf = List.length ps ->
  result (process_delete_pages (readable_file ps)
            (fst (renderThumbnails (Some (Opened pdf)))) cb)
  = Returned (readable_file (odd_positions (firstn 50 ps) ++ skipn 50 ps)).
Proof.
  intros Hall Hn. rewrite (renderThumbnails_drawn pdf Hall), Hn.
  unfold process_delete_pages, readable_file. rewrite deletePages_result.
  do 3 f_equal. unfold unlisted_pages.
  set (m := Nat.min (List.length ps) 50).
  rewrite (filter_ext _ (fun i => negb (Nat.even i && (i <? 0 + m)%nat)))
    by (intros i; now rewrite listed_rendered).
  rewrite (pick_filter_seq _ ps []), keep_odd_positions.
  - subst m. now rewrite firstn_min_length, skipn_min_length.
  - reflexivity.
  - subst m. destruct (Nat.le_ge_cases (List.length ps) 50) as [H|H].
    + right. now rewrite Nat.min_l.
    + left. now rewrite Nat.min_r.
Qed.

Lemma pagesToDelete_incl (pageState : list PageState.t) n :
  In n (pagesToDelete pageState) ->
  exists p, In p pageState /\ n = Int (PageState.originalIndex p + 1).
Proof.
  unfold pagesToDelete. intros H. apply in_map_iff in H as (p & <- & Hp).
  exists p. split; [|reflexivity].
  apply in_map_iff in Hp as ([i q] & <- & Hq). apply filter_In in Hq as [Hq _].
  now apply in_combine_r in Hq.
Qed.

Lemma delete_shown_in_bounds (doc : document Content) (file : viewFile) pageState cb :
  shown file pageState ->
  (pages_shown file <= List.length doc)%nat ->
  in_bounds (process_delete_pages (Parsed doc) pageState cb).
Proof.
  intros Hshown Hn. apply ProgressFacts.deletePages_in_bounds.
  destruct (ThumbnailFacts.shown_ok file pageState Hshown) as [_ Hall].
  apply Forall_forall. intros n Hin.
  destruct (pagesToDelete_incl _ _ Hin) as (p & Hp & ->).
  rewrite Forall_forall in Hall. destruct (Hall p Hp) as [Hrange _].
  eexists. split; [reflexivity|lia].
Qed.

End WithContent.

Lemma pageState_length count pageState :
  pageState_ok count pageState -> (List.length pageState <= count)%nat.
Proof.
  intros [Hnd Hall].
  assert (List.length (map PageState.originalIndex pageState)
          <= List.length (map Z.of_nat (seq 0 count)))%nat as Hle;
    [|now rewrite !length_map, length_seq in Hle].
  apply NoDup_incl_length; [exact Hnd|].
  intros z Hz. apply in_map_iff in Hz as (p & <- & Hp).
  rewrite Forall_forall in Hall. destruct (Hall p Hp) as [Hrange _].
  apply in_map_iff. exists (Z.to_nat (PageState.originalIndex p)).
  split; [lia|apply in_seq; lia].
Qed.

End DeleteToolFacts.

(** Whatever the user does to the thumbnails of a file (rotate, delete,
    drag), [UI.pageState] names no page twice, names only pages among the
    first 50 of the file, holds at most 50 entries, and every rotation in
    it is 0, 90, 180 or 270. *)
Theorem thumbnails_name_distinct_pages (file : viewFile)
        (pageState : list PageState.t) (Hshown : shown file pageState) :
  NoDup (map PageState.originalIndex pageState)
  /\ Forall (fun p => 0 <= PageState.originalIndex p < Z.of_nat (pages_shown file)
                      /\ In (PageState.rotation p) [0; 90; 180; 270]) pageState
  /\ (pages_shown file <= 50)%nat
  /\ (List.length pageState <= pages_shown file)%nat.
Proof.
  pose proof (ThumbnailFacts.shown_ok file pageState Hshown) as Hok.
  split; [exact (proj1 Hok)|]. split; [exact (proj2 Hok)|]. split.
  - destruct file as [pdf|message]; cbn [pages_shown]; lia.
  - now apply DeleteToolFacts.pageState_length.
Qed.

(** Three pages, the third of which cannot be drawn: the second thumbnail
    is rotated and the first deleted. *)
Lemma thumbnails_name_distinct_pages_witness :
  let file := Opened [Drawn ["a"]; Drawn []; Undrawn "damaged"] in
  let pageState := deletePage 0 (rotatePage 1 (fst (renderThumbnails (Some file)))) in
  NoDup (map PageState.originalIndex pageState)
  /\ Forall (fun p => 0 <= PageState.originalIndex p < Z.of_nat (pages_shown file)
                      /\ In (PageState.rotation p) [0; 90; 180; 270]) pageState
  /\ (pages_shown file <= 50)%nat
  /\ (List.length pageState <= pages_shown file)%nat.
Proof.
  intros file pageState.
  apply (thumbnails_name_distinct_pages file pageState).
  apply shown_deleted, shown_rotated, shown_rendered.
Defined.






(** The percents [organize] reports lie in [0, 100] on every input.  So do
    those of [deletePages] when the delete-pages tool calls it for
    thumbnails of a file in which the PDF library finds at least as many
    pages as were shown: the page numbers it passes are distinct pages of
    the file. *)
Theorem thumbnail_tools_progress_within_bounds {Content : Type}
        (f : pdfFile Content) (pageConfig : list PageState.t)
        (doc : document Content) (file : viewFile) (pageState : list PageState.t)
        (cb : bool)
        (Hshown : shown file pageState)
        (Hpages : (pages_shown file <= List.length doc)%nat) :
  Forall Percent.in_range (Async.percents (organize f pageConfig cb))
  /\ Forall Percent.in_range
            (Async.percents (process_delete_pages (Parsed doc) pageState cb)).
Proof.
  split; apply ProgressFacts.percents_in_range.
  - apply ThumbnailFacts.organize_in_bounds.
  - now apply (DeleteToolFacts.delete_shown_in_bounds doc file).
Qed.

Lemma thumbnail_tools_progress_within_bounds_witness :
  let file := Opened [Drawn []; Drawn []; Drawn []] in
  let pageState := deletePage 1 (fst (renderThumbnails (Some file))) in
  let doc := map Readable [mkPage "A" 0; mkPage "B" 0; mkPage "C" 0] in
  Forall Percent.in_range
         (Async.percents (organize (Parsed doc) [PageState.mk 7 90] true))
  /\ Forall Percent.in_range
            (Async.percents (process_delete_pages (Parsed doc) pageState true)).
Proof.
  intros file pageState doc.
  apply (thumbnail_tools_progress_within_bounds
           (Parsed doc) [PageState.mk 7 90] doc file pageState true).
  - apply shown_deleted, shown_rendered.
  - simpl. lia.
Defined.

(** ** Escaping *)

Module EscapeFacts.

Import StringFacts.

(** What the two properties below need of an entity table. *)
Section Table.

Variable entity : ascii -> option string.

Hypothesis entity_clean : forall c e,
  entity c = Some e -> all_units (fun d => negb (markup_unit d)) e = true.
Hypothesis entity_all : forall c,
  entity c = None -> markup_unit c = false /\ c <> "&"%char.
Hypothesis entity_only : forall c e,
  entity c = Some e -> (markup_unit c || Ascii.eqb c "&")%bool = true.
Hypothesis entity_ampersand : forall c e,
  entity c = Some e -> exists e', e = String "&" e'.
Hypothesis entity_prefix_free : forall c d e e' r r',
  entity c = Some e -> entity d = Some e' -> e ++ r = e' ++ r' -> c = d /\ r = r'.

Lemma replace_units_clean s :
  all_units (fun d => negb (markup_unit d)) (replace_units entity s) = true.
Proof.
  induction s as [|c s IH]; [reflexivity|].
  cbn [replace_units]. rewrite all_units_app, IH, andb_true_r.
  destruct (entity c) as [e|] eqn:E; [now apply (entity_clean c)|].
  cbn [all_units]. now rewrite (proj1 (entity_all c E)).
Qed.

Lemma replace_units_injective s : forall t,
  replace_units entity s = replace_units entity t -> s = t.
Proof.
  induction s as [|c s IH]; intros [|d t]; cbn [replace_units].
  - reflexivity.
  - destruct (entity d) as [e|] eqn:E; [|discriminate].
    destruct (entity_ampersand d e E) as (e' & ->). discriminate.
  - destruct (entity c) as [e|] eqn:E; [|discriminate].
    destruct (entity_ampersand c e E) as (e' & ->). discriminate.
  - destruct (entity c) as [e|] eqn:Ec, (entity d) as [e'|] eqn:Ed.
    + intros H. destruct (entity_prefix_free c d e e' _ _ Ec Ed H) as [-> Hr].
      f_equal. now apply IH.
    + destruct (entity_ampersand c e Ec) as (e1 & ->).
      cbn [append]. intros [= <- _]. now destruct (entity_all _ Ed).
    + destruct (entity_ampersand d e' Ed) as (e1 & ->).
      cbn [append]. intros [= -> _]. now destruct (entity_all _ Ec).
    + cbn [append]. intros [= -> H]. f_equal. now apply IH.
Qed.

Lemma replace_units_plain s :
  all_units (fun c => negb (markup_unit c || Ascii.eqb c "&")) s = true ->
  replace_units entity s = s.
Proof.
  induction s as [|c s IH]; [reflexivity|].
  cbn [all_units replace_units]. intros [Hc Hs]%andb_prop.
  rewrite (IH Hs). destruct (entity c) as [e|] eqn:E; [|reflexivity].
  rewrite (entity_only c e E) in Hc. discriminate.
Qed.

End Table.

Lemma xml_entity_cases c e :
  xml_entity c = Some e ->
  In (c, e) [("<"%char, "&lt;"); (">"%char, "&gt;"); ("&"%char, "&amp;");
             ("'"%char, "&apos;"); ("034"%char, "&quot;")].
Proof.
  destruct c as [[] [] [] [] [] [] [] []]; cbn; intros [= <-]; auto 6.
Qed.

Lemma html_entity_cases c e :
  html_entity c = Some e ->
  In (c, e) [("<"%char, "&lt;"); (">"%char, "&gt;"); ("&"%char, "&amp;");
             ("034"%char, "&quot;"); ("'"%char, "&#039;")].
Proof.
  destruct c as [[] [] [] [] [] [] [] []]; cbn; intros [= <-]; auto 6.
Qed.

Lemma xml_entity_none c :
  xml_entity c = None -> markup_unit c = false /\ c <> "&"%char.
Proof.
  destruct c as [[] [] [] [] [] [] [] []]; cbn; intros H;
    try discriminate H; split; try reflexivity; discriminate.
Qed.

Lemma html_entity_none c :
  html_entity c = None -> markup_unit c = false /\ c <> "&"%char.
Proof.
  destruct c as [[] [] [] [] [] [] [] []]; cbn; intros H;
    try discriminate H; split; try reflexivity; discriminate.
Qed.

Ltac entity_cases H :=
  cbn [In] in H;
  repeat (destruct H as [H|H]; [injection H as <- <-|]); [..|destruct H].

Lemma escapeXml_clean s :
  all_units (fun d => negb (markup_unit d)) (escapeXml s) = true.
Proof.
  apply replace_units_clean.
  - intros c e H%xml_entity_cases. entity_cases H; reflexivity.
  - exact xml_entity_none.
Qed.

Lemma escapeHtml_clean s :
  all_units (fun d => negb (markup_unit d)) (escapeHtml s) = true.
Proof.
  apply replace_units_clean.
  - intros c e H%html_entity_cases. entity_cases H; reflexivity.
  - exact html_entity_none.
Qed.

Lemma escapeXml_injective s t : escapeXml s = escapeXml t -> s = t.
Proof.
  apply replace_units_injective.
  - exact xml_entity_none.
  - intros c e H%xml_entity_cases. entity_cases H; eexists; reflexivity.
  - intros c d e e' r r' H%xml_entity_cases H'%xml_entity_cases.
    entity_cases H; entity_cases H'; cbn [append]; intros Heq;
      try discriminate Heq; injection Heq as ->; now split.
Qed.

Lemma escapeHtml_injective s t : escapeHtml s = escapeHtml t -> s = t.
Proof.
  apply replace_units_injective.
  - exact html_entity_none.
  - intros c e H%html_entity_cases. entity_cases H; eexists; reflexivity.
  - intros c d e e' r r' H%html_entity_cases H'%html_entity_cases.
    entity_cases H; entity_cases H'; cbn [append]; intros Heq;
      try discriminate Heq; injection Heq as ->; now split.
Qed.

Lemma escapeXml_plain s :
  all_units (fun c => negb (markup_unit c || Ascii.eqb c "&")) s = true ->
  escapeXml s = s.
Proof.
  apply replace_units_plain.
  intros c e H%xml_entity_cases. entity_cases H; reflexivity.
Qed.

Lemma escapeHtml_plain s :
  all_units (fun c => negb (markup_unit c || Ascii.eqb c "&")) s = true ->
  escapeHtml s = s.
Proof.
  apply replace_units_plain.
  intros c e H%html_entity_cases. entity_cases H; reflexivity.
Qed.

End EscapeFacts.

(** The text [escapeXml] and [escapeHtml] return holds none of the units
    [<], [>], ['] and the double quote, whatever the input; two different
    inputs never get the same escaped text; and an input without these
    units and without [&] is returned as it is. *)
Theorem escaped_text_has_no_markup (s t : string) :
  all_units (fun c => negb (markup_unit c)) (escapeXml s) = true
  /\ all_units (fun c => negb (markup_unit c)) (escapeHtml s) = true
  /\ (escapeXml s = escapeXml t -> s = t)
  /\ (escapeHtml s = escapeHtml t -> s = t)
  /\ (all_units (fun c => negb (markup_unit c || Ascii.eqb c "&")) s = true ->
      escapeXml s = s /\ escapeHtml s = s).
Proof.
  split; [apply EscapeFacts.escapeXml_clean|].
  split; [apply EscapeFacts.escapeHtml_clean|].
  split; [apply EscapeFacts.escapeXml_injective|].
  split; [apply EscapeFacts.escapeHtml_injective|].
  intros Hplain. split.
  - now apply EscapeFacts.escapeXml_plain.
  - now apply EscapeFacts.escapeHtml_plain.
Qed.

(** ** [removeDuplicates] *)

Module DuplicateFacts.

Import Async AsyncFacts PickFacts DocumentFacts.

Lemma hash_seen_app h hashes more :
  hash_seen h (hashes ++ more) = (hash_seen h hashes || hash_seen h more)%bool.
Proof. apply existsb_app. Qed.

Lemma NoDup_map_in {A B} (g : A -> B) (l : list A) :
  (forall x y, In x l -> In y l -> g x = g y -> x = y) ->
  NoDup l -> NoDup (map g l).
Proof.
  intros Hinj Hnd. induction Hnd as [|x l Hx Hnd IH]; [constructor|].
  cbn [map]. constructor.
  - intros Hin. apply in_map_iff in Hin as (y & Heq & Hy).
    apply Hx. rewrite (Hinj x y); [exact Hy|now left|now right|now symmetry].
  - apply IH. intros a b Ha Hb. apply Hinj; now right.
Qed.

Section WithContent.

Context {Content : Type}.

Lemma fold_duplicates_step (ps : list (page Content)) texts (k : nat) :
  let st := fold_left (duplicates_step ps texts) (seq 0 k) ([], []) in
  (forall h, hash_seen h (fst st)
             = existsb (fun j => String.eqb h (page_hash (nth j texts []))) (seq 0 k))
  /\ snd st = map Readable (pick ps (filter (first_with_hash texts) (seq 0 k))).
Proof.
  induction k as [|k [IHh IHs]]; [split; reflexivity|].
  cbn zeta in *. rewrite seq_S, fold_left_app. cbn [fold_left Nat.add].
  set (st := fold_left (duplicates_step ps texts) (seq 0 k) ([], [])) in *.
  rewrite filter_app. cbn [filter]. unfold pick in *. rewrite pick_with_app, map_app.
  unfold duplicates_step, first_with_hash at 2. rewrite IHh.
  destruct (existsb _ (seq 0 k)) eqn:E; cbn [negb fst snd].
  - split.
    + intros h. rewrite existsb_app. cbn [existsb]. rewrite orb_false_r, <- IHh.
      destruct (String.eqb_spec h (page_hash (nth k texts []))) as [->|_];
        [|now rewrite orb_false_r].
      rewrite IHh, E. reflexivity.
    + rewrite IHs. cbn [pick_with flat_map map]. now rewrite List.app_nil_r.
  - split.
    + intros h. rewrite hash_seen_app, existsb_app, IHh. cbn [hash_seen existsb].
      reflexivity.
    + unfold pick_with at 2. cbn [flat_map]. rewrite IHs.
      destruct (nth_error ps k); cbn [List.app map];
        [reflexivity|now rewrite List.app_nil_r].
Qed.

Lemma removeDuplicates_result (ps : list (page Content)) texts cb :
  List.length texts = List.length ps ->
  result (removeDuplicates (readable_file ps) (Opened (map Drawn texts)) cb)
  = Returned (readable_file
                (pick ps (filter (first_with_hash texts) (seq 0 (List.length ps))))).
Proof.
  intros Hlen. unfold removeDuplicates, readable_file. cbn [load loadPDFForRendering].
  rewrite !bind_ret, result_bind. unfold getPageCount. rewrite length_map.
  rewrite for_loop_for_of, (for_of_fold (duplicates_step ps texts)).
  - cbv iota beta. unfold save, create. cbn [result ret snd].
    destruct (fold_duplicates_step ps texts (List.length ps)) as [_ Hpages].
    do 2 f_equal. exact Hpages.
  - intros i [hashes newPdf] Hi. apply in_seq in Hi.
    rewrite result_bind, result_report. cbv iota beta.
    rewrite Nat.add_1_r. cbn [getTextItems]. rewrite nth_error_map.
    destruct (nth_error texts i) as [items|] eqn:E;
      [|apply nth_error_None in E; lia].
    cbn [option_map]. rewrite bind_ret. unfold duplicates_step, page_hash.
    rewrite (nth_error_nth _ _ _ E). cbn [fst snd].
    destruct (hash_seen _ hashes); cbn [negb]; [reflexivity|].
    rewrite result_bind, result_copyPage, nth_error_map.
    destruct (nth_error ps i) eqn:Ep; [reflexivity|].
    apply nth_error_None in Ep. lia.
Qed.

Lemma removeDuplicates_in_bounds (f : pdfFile Content) view cb :
  in_bounds (removeDuplicates f view cb).
Proof.
  unfold removeDuplicates.
  apply ProgressFacts.in_bounds_bind; [apply ProgressFacts.in_bounds_load|].
  intros srcPdf _. apply ProgressFacts.in_bounds_bind.
  { destruct view; [apply ProgressFacts.in_bounds_ret|apply ProgressFacts.in_bounds_throw]. }
  intros pdf _.
  apply ProgressFacts.in_bounds_bind; [|intros; apply ProgressFacts.in_bounds_save].
  rewrite for_loop_for_of. apply ProgressFacts.in_bounds_for_each.
  intros i [hashes newPdf] Hi. apply in_seq in Hi.
  apply ProgressFacts.in_bounds_bind;
    [apply ProgressFacts.in_bounds_report, ProgressFacts.index_ratio_in_range; lia|].
  intros _ _. apply ProgressFacts.in_bounds_bind.
  { unfold getTextItems. destruct (i + 1)%nat as [|index];
      [apply ProgressFacts.in_bounds_throw|].
    destruct (nth_error pdf index) as [[items|message]|];
      [apply ProgressFacts.in_bounds_ret|apply ProgressFacts.in_bounds_throw
      |apply ProgressFacts.in_bounds_throw]. }
  intros items _. destruct (negb _); [|apply ProgressFacts.in_bounds_ret].
  apply ProgressFacts.in_bounds_bind; [apply ProgressFacts.in_bounds_copyPage|].
  intros; apply ProgressFacts.in_bounds_ret.
Qed.

End WithContent.

Lemma first_with_hash_false texts i :
  first_with_hash texts i = false ->
  exists j, (j < i)%nat /\ page_hash (nth j texts []) = page_hash (nth i texts []).
Proof.
  unfold first_with_hash. intros H. apply negb_false_iff, existsb_exists in H.
  destruct H as (j & Hj & Heq). apply in_seq in Hj. apply String.eqb_eq in Heq.
  exists j. split; [lia|now symmetry].
Qed.

Lemma first_with_hash_true texts i j :
  first_with_hash texts i = true -> (j < i)%nat ->
  page_hash (nth j texts []) <> page_hash (nth i texts []).
Proof.
  unfold first_with_hash. intros H Hj Heq. apply negb_true_iff in H.
  assert (existsb (fun j => String.eqb (page_hash (nth i texts []))
                                       (page_hash (nth j texts []))) (seq 0 i) = true)
    as Hex; [|congruence].
  apply existsb_exists. exists j. split; [apply in_seq; lia|].
  apply String.eqb_eq. now symmetry.
Qed.

Lemma kept_hashes_distinct texts n :
  NoDup (map (fun i => page_hash (nth i texts []))
             (filter (first_with_hash texts) (seq 0 n))).
Proof.
  apply NoDup_map_in; [|apply NoDup_filter, seq_NoDup].
  intros i j Hi Hj Heq. apply filter_In in Hi as [_ Hi], Hj as [_ Hj].
  destruct (Nat.lt_trichotomy i j) as [H|[H|H]]; [|exact H|].
  - now destruct (first_with_hash_true texts j i Hj H).
  - destruct (first_with_hash_true texts i j Hi H). now symmetry.
Qed.

Lemma every_hash_kept texts n j :
  (j < n)%nat ->
  exists i, In i (filter (first_with_hash texts) (seq 0 n)) /\ (i <= j)%nat
            /\ page_hash (nth i texts []) = page_hash (nth j texts []).
Proof.
  induction j as [j IH] using (well_founded_induction lt_wf). intros Hj.
  destruct (first_with_hash texts j) eqn:E.
  - exists j. split; [|split; [lia|reflexivity]].
    apply filter_In. split; [apply in_seq; lia|exact E].
  - destruct (first_with_hash_false texts j E) as (j' & Hlt & Heq).
    destruct (IH j' Hlt ltac:(lia)) as (i & Hi & Hle & Hh).
    exists i. split; [exact Hi|]. split; [lia|congruence].
Qed.

Lemma filter_none {A} (f : A -> bool) (l : list A) :
  (forall x, In x l -> f x = false) -> filter f l = [].
Proof.
  induction l as [|x l IH]; intros H; [reflexivity|].
  cbn [filter]. rewrite (H x (or_introl eq_refl)). apply IH.
  intros y Hy. apply H. now right.
Qed.

Lemma same_hash_first_only texts n :
  (forall i j, (i < n)%nat -> (j < n)%nat ->
               page_hash (nth i texts []) = page_hash (nth j texts [])) ->
  filter (first_with_hash texts) (seq 0 n) = firstn 1 (seq 0 n).
Proof.
  intros Hsame. destruct n as [|n]; [reflexivity|].
  cbn [seq filter firstn]. change (first_with_hash texts 0) with true. cbv iota.
  f_equal. apply filter_none. intros i Hi. apply in_seq in Hi.
  destruct (first_with_hash texts i) eqn:E; [|reflexivity].
  destruct (first_with_hash_true texts i 0 E ltac:(lia)).
  apply Hsame; lia.
Qed.

End DuplicateFacts.



(** ** More operations that copy a document *)

Module CopyFacts.

Import Async AsyncFacts DocumentFacts.

Lemma for_loop_ext {S} (body body' : nat -> S -> async S) count : forall i s,
  (forall j s, body j s = body' j s) ->
  for_loop count i body s = for_loop count i body' s.
Proof.
  induction count as [|count IH]; intros i s H; [reflexivity|].
  cbn [for_loop]. rewrite H. apply bind_ext. intros s'. now apply IH.
Qed.

(** A loop over the indices of an array that reads the element at the
    index is a loop over the elements. *)
Lemma for_loop_elements {A S} (body : A -> S -> async S)
      (other : nat -> S -> async S) (rest : list A) : forall pre s,
  for_loop (List.length rest) (List.length pre)
           (fun i s => match nth_error (pre ++ rest) i with
                       | Some x => body x s
                       | None => other i s
                       end) s
  = for_of rest body s.
Proof.
  induction rest as [|x rest IH]; intros pre s; [reflexivity|].
  cbn [List.length for_loop for_of].
  rewrite nth_error_app2, Nat.sub_diag by lia. cbn [nth_error].
  apply bind_ext. intros s'.
  specialize (IH (pre ++ [x])%list s').
  rewrite <- app_assoc, length_app, Nat.add_1_r in IH. exact IH.
Qed.

Section WithContent.

Context {Content Image : Type}.

Lemma createPDFFromImages_imagesToPDF (image_page : Image -> Content)
      (files : list (imageFile Image)) :
  createPDFFromImages image_page files = imagesToPDF image_page files false.
Proof.
  unfold createPDFFromImages, imagesToPDF. f_equal.
  rewrite <- (for_loop_elements _ (fun _ _ => throw "undefined file") files []).
  apply for_loop_ext. intros i s. cbn [List.app report].
  rewrite bind_ret. reflexivity.
Qed.

Lemma copy_all_result (ps : list (page Content)) :
  result (copiedPages <- copyPages (map Readable ps) (getPageIndices (map Readable ps)) ;;
          ret (fold_left addPage copiedPages create))
  = Returned (map Readable ps).
Proof.
  rewrite copyPages_all, bind_ret. cbn [result ret snd].
  now rewrite fold_left_addPage.
Qed.

Lemma linearize_result (ps : list (page Content)) cb :
  result (linearize (readable_file ps) cb) = Returned (readable_file ps).
Proof.
  unfold linearize, readable_file. cbn [load].
  rewrite result_bind, result_report, bind_ret. cbv iota beta.
  rewrite result_bind, result_report, copyPages_all, bind_ret. cbv iota beta.
  rewrite result_bind, result_report. cbv iota beta. unfold save.
  rewrite bind_ret, result_bind, result_report. cbv iota beta.
  cbn [result ret snd]. now rewrite fold_left_addPage.
Qed.

Lemma unlock_result (ps : list (page Content)) password cb :
  result (unlock (readable_file ps) password cb) = Returned (readable_file ps).
Proof.
  unfold unlock, readable_file. cbn [load].
  rewrite result_bind, result_report. cbv iota beta.
  rewrite result_try_catch, bind_ret, result_bind, result_report. cbv iota beta.
  rewrite copyPages_all, bind_ret, result_bind, result_report. cbv iota beta.
  unfold save. cbn [result ret snd]. now rewrite fold_left_addPage.
Qed.

Lemma copyPages_unreadable (doc : document Content) i :
  unreadable_at doc i ->
  exists e, result (copyPages doc (getPageIndices doc)) = Thrown e.
Proof.
  intros Hi. apply (FailureFacts.copyPages_throws doc _ i); [|exact Hi].
  apply in_seq. pose proof (FailureFacts.unreadable_in_range doc i Hi). lia.
Qed.

Lemma linearize_propagates (doc : document Content) cb i :
  unreadable_at doc i -> exists e, result (linearize (Parsed doc) cb) = Thrown e.
Proof.
  intros Hi. destruct (copyPages_unreadable doc i Hi) as (e & He).
  exists e. unfold linearize. cbn [load].
  rewrite result_bind, result_report, bind_ret. cbv iota beta.
  now rewrite result_bind, result_report, result_bind, He.
Qed.

Lemma unlock_propagates (doc : document Content) password cb i :
  unreadable_at doc i ->
  exists e, result (unlock (Parsed doc) password cb)
            = Thrown ("Failed to unlock PDF: " ++ e
                      ++ ". Password may be incorrect or PDF uses unsupported encryption.").
Proof.
  intros Hi. destruct (copyPages_unreadable doc i Hi) as (e & He).
  exists e. unfold unlock. cbn [load].
  rewrite result_bind, result_report. cbv iota beta.
  rewrite result_try_catch, bind_ret, result_bind, result_report. cbv iota beta.
  now rewrite result_bind, He.
Qed.

Lemma unlock_malformed message password cb :
  result (unlock (Content := Content) (Malformed message) password cb)
  = Thrown ("Failed to unlock PDF: " ++ message
            ++ ". Password may be incorrect or PDF uses unsupported encryption.").
Proof.
  unfold unlock. cbn [load].
  rewrite result_bind, result_report. cbv iota beta.
  now rewrite result_try_catch.
Qed.

End WithContent.

End CopyFacts.



(** ** Watermarks and page numbers *)

Module DrawingFacts.

Import Async AsyncFacts StringFacts.

Lemma startsWith_app pattern rest : JSText.startsWith pattern (pattern ++ rest) = true.
Proof.
  induction pattern as [|c p IH]; [reflexivity|].
  cbn [append JSText.startsWith]. now rewrite Ascii.eqb_refl, IH.
Qed.

Lemma skip_units_app pattern rest :
  skip_units (String.length pattern) (pattern ++ rest) = rest.
Proof. induction pattern as [|c p IH]; [now destruct rest|exact IH]. Qed.

Lemma replace_first_here pattern replacement rest :
  replace_first pattern replacement (pattern ++ rest) = replacement ++ rest.
Proof.
  destruct pattern as [|c p]; [now destruct rest|].
  cbn [append replace_first]. fold (append p rest).
  change (String c (p ++ rest)) with (String c p ++ rest).
  now rewrite startsWith_app, skip_units_app.
Qed.

Lemma append_assoc (a b c : string) : (a ++ b) ++ c = a ++ (b ++ c).
Proof. induction a as [|x a IH]; [reflexivity|]. cbn [append]. now rewrite IH. Qed.

Lemma append_empty_r (a : string) : a ++ "" = a.
Proof. induction a as [|x a IH]; [reflexivity|]. cbn [append]. now rewrite IH. Qed.

(** The first occurrence of a pattern that starts with a brace is not in a
    text without braces. *)
Lemma replace_first_after p replacement a rest :
  all_units not_brace a = true ->
  replace_first (String "{" p) replacement (a ++ String "{" p ++ rest)
  = a ++ replacement ++ rest.
Proof.
  induction a as [|c a IH]; intros Ha.
  - exact (replace_first_here (String "{" p) replacement rest).
  - cbn [all_units] in Ha. apply andb_prop in Ha as [Hc Ha].
    cbn [append replace_first JSText.startsWith].
    unfold not_brace in Hc. apply negb_true_iff in Hc.
    rewrite Ascii.eqb_sym, Hc. cbn [andb]. f_equal. now apply IH.
Qed.

Lemma replace_first_absent pattern replacement s :
  JSText.includes pattern s = false -> replace_first pattern replacement s = s.
Proof.
  induction s as [|c s IH]; cbn [JSText.includes replace_first];
    intros [H1 H2]%orb_false_iff; rewrite H1; [reflexivity|].
  f_equal. now apply IH.
Qed.

Lemma includes_after p a s :
  all_units not_brace a = true ->
  JSText.includes (String "{" p) (a ++ s) = JSText.includes (String "{" p) s.
Proof.
  induction a as [|c a IH]; intros Ha; [reflexivity|].
  cbn [all_units] in Ha. apply andb_prop in Ha as [Hc Ha].
  unfold not_brace in Hc. apply negb_true_iff in Hc.
  cbn [append JSText.includes JSText.startsWith].
  rewrite Ascii.eqb_sym, Hc. cbn [andb orb]. now apply IH.
Qed.

Lemma digit_not_brace c : is_decimal_digit c = true -> not_brace c = true.
Proof.
  destruct c as [[] [] [] [] [] [] [] []]; cbn; intros H; try discriminate H; reflexivity.
Qed.

Lemma str_not_brace z : 0 <= z -> all_units not_brace (str z) = true.
Proof.
  intros Hz. unfold str, JSString.ToString.
  destruct z as [|p|p]; [reflexivity| |lia].
  cbn [Z.to_int NilZero.string_of_int NilZero.string_of_uint].
  pose proof (numeral_text_digits (Pos.to_uint p)) as Hd. unfold numeral_text in Hd.
  assert (all_units not_brace (NilEmpty.string_of_uint (Pos.to_uint p)) = true) as Hb
    by (apply (all_units_weaken is_decimal_digit); [exact digit_not_brace|exact Hd]).
  unfold NilZero.string_of_uint. now destruct (Pos.to_uint p).
Qed.

Lemma pageText_both a b c i total :
  all_units not_brace a = true -> all_units not_brace b = true ->
  pageText (a ++ "{page}" ++ b ++ "{total}" ++ c) i total
  = a ++ str (Z.of_nat i + 1) ++ b ++ str (Z.of_nat total) ++ c.
Proof.
  intros Ha Hb. unfold pageText.
  rewrite (replace_first_after "page}" _ a _ Ha).
  rewrite <- !append_assoc.
  rewrite (append_assoc _ "{total}" c).
  rewrite (replace_first_after "total}").
  - now rewrite !append_assoc.
  - rewrite !all_units_app, Ha, Hb, str_not_brace by lia. reflexivity.
Qed.

Lemma pageText_plain format i total :
  JSText.includes "{page}" format = false ->
  JSText.includes "{total}" format = false ->
  pageText format i total = format.
Proof.
  intros Hp Ht. unfold pageText.
  rewrite (replace_first_absent "{page}" _ _ Hp). now apply replace_first_absent.
Qed.

Lemma pageText_page_only a rest i total :
  all_units not_brace a = true ->
  JSText.includes "{total}" rest = false ->
  pageText (a ++ "{page}" ++ rest) i total = a ++ str (Z.of_nat i + 1) ++ rest.
Proof.
  intros Ha Hrest. unfold pageText.
  rewrite (replace_first_after "page}" _ a _ Ha).
  apply replace_first_absent.
  rewrite (includes_after "total}" a _ Ha).
  rewrite (includes_after "total}"); [exact Hrest|].
  apply str_not_brace. lia.
Qed.

Lemma offset_ratio_in_range (c k : Q) a b :
  0 <= a <= b -> 0 < b -> (0 <= c)%Q -> (0 <= k)%Q -> (c + k <= 100)%Q ->
  Percent.in_range (Percent.plus c (Percent.times (Percent.ratio a b) k)).
Proof.
  intros Ha Hb Hc Hk Hck. unfold Percent.ratio.
  destruct (Z.eqb_spec b 0) as [->|_]; [lia|].
  destruct (ProgressFacts.scaled_ratio_bounds a b k Ha Hb Hk) as [H0 H1].
  cbn [Percent.times Percent.plus Percent.in_range]. split.
  - apply (Qle_trans _ (c + 0)); [now rewrite Qplus_0_r|]. now apply Qplus_le_r.
  - apply (Qle_trans _ (c + k)); [|exact Hck]. now apply Qplus_le_r.
Qed.

(** A loop whose iterations return the next state as long as the states
    keep an invariant. *)
Lemma for_of_fold_when {A S} (J : S -> Prop) (step : S -> A -> S)
      (body : A -> S -> async S) (l : list A) : forall s,
  J s ->
  (forall x s, In x l -> J s -> result (body x s) = Returned (step s x) /\ J (step s x)) ->
  result (for_of l body s) = Returned (fold_left step l s).
Proof.
  induction l as [|x l IH]; intros s Hs H; [reflexivity|].
  cbn [for_of fold_left]. destruct (H x s (or_introl eq_refl) Hs) as [Hres Hnext].
  rewrite result_bind, Hres. apply IH; [exact Hnext|].
  intros y s' Hy. apply H. now right.
Qed.

Lemma update_at_length {A} (g : A -> A) i (l : list A) :
  List.length (update_at i g l) = List.length l.
Proof.
  revert i. induction l as [|x l IH]; intros [|i]; cbn [update_at List.length];
    try reflexivity. now rewrite IH.
Qed.

Lemma update_at_app {A} (g : A -> A) (pre : list A) x rest :
  update_at (List.length pre) g (pre ++ x :: rest) = (pre ++ g x :: rest)%list.
Proof.
  induction pre as [|y pre IH]; [reflexivity|].
  cbn [List.length List.app update_at]. now rewrite IH.
Qed.

(** Updating every element at its index, from the left. *)
Lemma fold_left_update_at {A} (h : nat -> A -> A) (rest : list A) : forall pre,
  fold_left (fun l i => match nth_error l i with
                        | Some x => update_at i (fun _ => h i x) l
                        | None => l
                        end)
            (seq (List.length pre) (List.length rest)) (pre ++ rest)%list
  = (pre ++ mapi_from h (List.length pre) rest)%list.
Proof.
  induction rest as [|x rest IH]; intros pre; [reflexivity|].
  cbn [List.length seq fold_left mapi_from].
  rewrite nth_error_app2, Nat.sub_diag by lia. cbn [nth_error].
  rewrite update_at_app.
  specialize (IH (pre ++ [h (List.length pre) x])%list).
  rewrite <- !app_assoc, length_app, Nat.add_1_r in IH. exact IH.
Qed.

Section WithContent.

Context {Content Style : Type}.

Variable drawText : Style -> string -> page Content -> outcome (page Content).

Lemma getPages_readable (ps : list (page Content)) :
  getPages (map Readable ps) = ret ps.
Proof.
  induction ps as [|p ps IH]; [reflexivity|].
  cbn [map getPages]. now rewrite IH, bind_ret.
Qed.

Lemma in_bounds_getPages (doc : document Content) : in_bounds (getPages doc).
Proof.
  induction doc as [|[p|message] doc IH]; cbn [getPages].
  - apply ProgressFacts.in_bounds_ret.
  - apply ProgressFacts.in_bounds_bind; [exact IH|].
    intros; apply ProgressFacts.in_bounds_ret.
  - apply ProgressFacts.in_bounds_throw.
Qed.

Lemma in_bounds_draw style text p : in_bounds (draw drawText style text p).
Proof. constructor. Qed.

Lemma in_bounds_constant cb (q : Q) text :
  (0 <= q)%Q -> (q <= 100)%Q -> in_bounds (report cb (Pct q) text).
Proof. intros. now apply ProgressFacts.in_bounds_report, ProgressFacts.constant_in_range. Qed.

Lemma addWatermark_in_bounds (f : pdfFile Content) text style cb :
  in_bounds (addWatermark drawText f text style cb).
Proof.
  unfold addWatermark.
  apply ProgressFacts.in_bounds_bind; [apply in_bounds_constant; discriminate|].
  intros _ _. apply ProgressFacts.in_bounds_bind; [apply ProgressFacts.in_bounds_load|].
  intros pdfDoc _. apply ProgressFacts.in_bounds_bind; [apply in_bounds_getPages|].
  intros pages _.
  apply ProgressFacts.in_bounds_bind; [apply in_bounds_constant; discriminate|].
  intros _ _. apply ProgressFacts.in_bounds_bind.
  - rewrite for_loop_for_of. apply ProgressFacts.in_bounds_for_each.
    intros i s Hi. apply in_seq in Hi.
    apply ProgressFacts.in_bounds_bind.
    + apply ProgressFacts.in_bounds_report, offset_ratio_in_range;
        try lia; discriminate.
    + intros _ _. destruct (nth_error s i); [|apply ProgressFacts.in_bounds_throw].
      apply ProgressFacts.in_bounds_bind; [apply in_bounds_draw|].
      intros; apply ProgressFacts.in_bounds_ret.
  - intros pages' _.
    apply ProgressFacts.in_bounds_bind; [apply in_bounds_constant; discriminate|].
    intros; apply ProgressFacts.in_bounds_save.
Qed.

Lemma addPageNumbers_in_bounds (f : pdfFile Content) format startPage style cb :
  in_bounds (addPageNumbers drawText f format startPage style cb).
Proof.
  unfold addPageNumbers.
  apply ProgressFacts.in_bounds_bind; [apply in_bounds_constant; discriminate|].
  intros _ _. apply ProgressFacts.in_bounds_bind; [apply ProgressFacts.in_bounds_load|].
  intros pdfDoc _. apply ProgressFacts.in_bounds_bind; [apply in_bounds_getPages|].
  intros pages _.
  apply ProgressFacts.in_bounds_bind; [apply in_bounds_constant; discriminate|].
  intros _ _. apply ProgressFacts.in_bounds_bind.
  - rewrite for_loop_for_of. apply ProgressFacts.in_bounds_for_each.
    intros i s Hi. apply in_seq in Hi.
    destruct (Z.of_nat i <? number_or startPage 1 - 1);
      [apply ProgressFacts.in_bounds_ret|].
    apply ProgressFacts.in_bounds_bind.
    + apply ProgressFacts.in_bounds_report, offset_ratio_in_range;
        try lia; discriminate.
    + intros _ _. destruct (nth_error s i); [|apply ProgressFacts.in_bounds_throw].
      apply ProgressFacts.in_bounds_bind; [apply in_bounds_draw|].
      intros; apply ProgressFacts.in_bounds_ret.
  - intros pages' _.
    apply ProgressFacts.in_bounds_bind; [apply in_bounds_constant; discriminate|].
    intros; apply ProgressFacts.in_bounds_save.
Qed.

Variable g : Style -> string -> page Content -> page Content.

Hypothesis drawText_returns : forall style text p,
  drawText style text p = Returned (g style text p).

Lemma addPageNumbers_result (ps : list (page Content)) format startPage style cb :
  result (addPageNumbers drawText (readable_file ps) format startPage style cb)
  = Returned (readable_file
                (mapi_from (numbered (g style) format startPage (List.length ps)) 0 ps)).
Proof.
  unfold addPageNumbers, readable_file. cbn [load].
  rewrite result_bind, result_report, bind_ret, getPages_readable, bind_ret.
  cbv iota beta. rewrite result_bind, result_report. cbv iota beta.
  rewrite result_bind, for_loop_for_of.
  rewrite (for_of_fold_when
             (fun pages => List.length pages = List.length ps)
             (fun pages i =>
                match nth_error pages i with
                | Some x => update_at i (fun _ => numbered (g style) format startPage
                                                           (List.length ps) i x) pages
                | None => pages
                end)); [|reflexivity|].
  - pose proof (fold_left_update_at
                  (numbered (g style) format startPage (List.length ps)) ps [])
      as Hfold.
    cbn [List.app List.length] in Hfold. rewrite Hfold.
    rewrite result_bind, result_report. reflexivity.
  - intros i pages Hi Hlen. apply in_seq in Hi.
    destruct (nth_error pages i) as [x|] eqn:E;
      [|apply nth_error_None in E; lia].
    unfold numbered at 1 2.
    destruct (Z.of_nat i <? number_or startPage 1 - 1) eqn:Hskip.
    + split.
      * cbn [result ret snd]. f_equal. clear -E.
        revert i E. induction pages as [|y pages IH]; intros [|i] E;
          try discriminate E; cbn [update_at nth_error] in *.
        -- now injection E as ->.
        -- f_equal. now apply IH.
      * now rewrite update_at_length.
    + split.
      * rewrite result_bind, result_report. cbv iota beta.
        rewrite result_bind. unfold draw at 1. cbn [result snd].
        rewrite drawText_returns. reflexivity.
      * now rewrite update_at_length.
Qed.

End WithContent.

End DrawingFacts.

(** The text [addPageNumbers] draws on page [i] (from 0) of [total] pages.
    In a format without braces before the placeholders, [{page}] becomes
    the page number [i + 1] and [{total}] the page count.  Only the first
    occurrence of a placeholder is replaced.  A format without
    placeholders is drawn as it is on every page, and a missing or empty
    format counts as [{page}]. *)
Theorem page_number_text (a b c rest format : string) (i total : nat) :
  (all_units not_brace a = true -> all_units not_brace b = true ->
   pageText (a ++ "{page}" ++ b ++ "{total}" ++ c) i total
   = a ++ str (Z.of_nat i + 1) ++ b ++ str (Z.of_nat total) ++ c)
  /\ (all_units not_brace a = true -> JSText.includes "{total}" rest = false ->
      pageText (a ++ "{page}" ++ rest) i total = a ++ str (Z.of_nat i + 1) ++ rest)
  /\ (JSText.includes "{page}" format = false ->
      JSText.includes "{total}" format = false ->
      pageText format i total = format)
  /\ pageText (string_or None "{page}") i total = str (Z.of_nat i + 1)
  /\ pageText (string_or (Some "") "{page}") i total = str (Z.of_nat i + 1)
  /\ pageText "{page}/{page}" i total = str (Z.of_nat i + 1) ++ "/{page}".
Proof.
  split; [apply DrawingFacts.pageText_both|].
  split; [apply DrawingFacts.pageText_page_only|].
  split; [apply DrawingFacts.pageText_plain|].
  assert (pageText "{page}" i total = str (Z.of_nat i + 1)) as Hdefault.
  { rewrite <- (DrawingFacts.append_empty_r (str (Z.of_nat i + 1))).
    exact (DrawingFacts.pageText_page_only "" "" i total eq_refl eq_refl). }
  split; [exact Hdefault|]. split; [exact Hdefault|].
  exact (DrawingFacts.pageText_page_only "" "/{page}" i total eq_refl eq_refl).
Qed.



(** The percents [addWatermark], [addPageNumbers], [linearize] and [unlock]
    pass to the progress callback lie in [0, 100], on every input, whatever
    the drawing does and however the operation ends. *)
Theorem drawing_progress_within_bounds {Content Style : Type}
        (drawText : Style -> string -> page Content -> outcome (page Content))
        (f : pdfFile Content) (text password : string) (format : option string)
        (startPage : option Z) (style : Style) (cb : bool) :
  Forall Percent.in_range (Async.percents (addWatermark drawText f text style cb))
  /\ Forall Percent.in_range
            (Async.percents (addPageNumbers drawText f format startPage style cb))
  /\ Forall Percent.in_range (Async.percents (linearize f cb))
  /\ Forall Percent.in_range (Async.percents (unlock f password cb)).
Proof.
  repeat split; apply ProgressFacts.percents_in_range.
  - apply DrawingFacts.addWatermark_in_bounds.
  - apply DrawingFacts.addPageNumbers_in_bounds.
  - unfold linearize.
    repeat (first [ apply ProgressFacts.in_bounds_bind; [|intros ? _]
                  | apply DrawingFacts.in_bounds_constant; discriminate
                  | apply ProgressFacts.in_bounds_load
                  | apply ProgressFacts.in_bounds_copyPages
                  | apply ProgressFacts.in_bounds_save
                  | apply ProgressFacts.in_bounds_ret ]).
  - unfold unlock.
    apply ProgressFacts.in_bounds_bind;
      [apply DrawingFacts.in_bounds_constant; discriminate|intros _ _].
    apply ProgressFacts.in_bounds_try_catch;
      [|intros; apply ProgressFacts.in_bounds_throw].
    repeat (first [ apply ProgressFacts.in_bounds_bind; [|intros ? _]
                  | apply DrawingFacts.in_bounds_constant; discriminate
                  | apply ProgressFacts.in_bounds_load
                  | apply ProgressFacts.in_bounds_copyPages
                  | apply ProgressFacts.in_bounds_save
                  | apply ProgressFacts.in_bounds_ret ]).
Qed.

(** [validatePDF] never throws and reports nothing.  It calls a file valid
    exactly when the file loads with at least one page; its page count is
    that of the loaded document, and 0 for a file that does not load, whose
    error message it returns. *)
Theorem validatePDF_verdict {Content : Type} (f : pdfFile Content) :
  exists v,
    validatePDF f = Async.ret v
    /\ (valid v = true <-> exists doc, f = Parsed doc /\ doc <> [])
    /\ (error v = None <-> exists doc, f = Parsed doc)
    /\ (forall doc, f = Parsed doc -> pageCount v = Z.of_nat (List.length doc))
    /\ (forall message, f = Malformed message ->
          v = mkValidation false 0 (Some message)).
Proof.
  destruct f as [doc|message]; eexists; (split; [reflexivity|]);
    cbn [valid error pageCount].
  - split; [|split; [|split]].
    + unfold getPageCount. split.
      * intros H. exists doc. split; [reflexivity|].
        intros ->. discriminate H.
      * intros (doc' & [= <-] & Hne). destruct doc; [congruence|reflexivity].
    + split; [intros _; now exists doc|reflexivity].
    + now intros doc' [= <-].
    + discriminate.
  - split; [|split; [|split]].
    + split; [discriminate|]. now intros (doc & Hdoc & _).
    + split; [discriminate|]. now intros (doc & Hdoc).
    + discriminate.
    + now intros m [= <-].
Qed.

(** ** What the user is shown *)

Module DisplayFacts.

Lemma seconds_bounds (d lo hi : Z) :
  lo * 1000 <= d < hi * 1000 -> lo <= d / 1000 < hi.
Proof.
  intros [Hlo Hhi]. split.
  - apply Z.div_le_lower_bound; lia.
  - apply Z.div_lt_upper_bound; lia.
Qed.

Lemma unit_count (seconds unit_ limit : Z) :
  0 < unit_ -> unit_ <= seconds < limit * unit_ ->
  1 <= seconds / unit_ <= limit - 1
  /\ seconds / unit_ * unit_ <= seconds < (seconds / unit_ + 1) * unit_.
Proof.
  intros Hu [Hlo Hhi].
  pose proof (Z.div_mod seconds unit_ ltac:(lia)) as Hdm.
  pose proof (Z.mod_pos_bound seconds unit_ Hu) as Hm.
  assert (1 <= seconds / unit_) by (apply Z.div_le_lower_bound; lia).
  assert (seconds / unit_ < limit) by (apply Z.div_lt_upper_bound; lia).
  nia.
Qed.

Lemma clamp_bounds (q : Q) :
  let w := if Qle_bool 100 (if Qle_bool 0 q then q else 0) then 100%Q
           else (if Qle_bool 0 q then q else 0%Q) in
  (0 <= w /\ w <= 100)%Q /\ ((0 <= q /\ q <= 100)%Q -> (w == q)%Q).
Proof.
  cbn zeta.
  destruct (Qle_bool 0 q) eqn:H0.
  - apply Qle_bool_iff in H0.
    destruct (Qle_bool 100 q) eqn:H1.
    + apply Qle_bool_iff in H1. split; [split; [discriminate|apply Qle_refl]|].
      intros [_ Hq]. now apply Qle_antisym.
    + split; [|reflexivity]. split; [exact H0|].
      apply Qnot_lt_le. intros Hlt. apply Qlt_le_weak, Qle_bool_iff in Hlt. congruence.
  - change (Qle_bool 100 0) with false. cbv iota.
    split; [split; [apply Qle_refl|discriminate]|].
    intros [Hq _]. apply Qle_bool_iff in Hq. congruence.
Qed.

Lemma round_bounds (q : Q) :
  (0 <= q /\ q <= 100)%Q -> 0 <= Qfloor (q + (1 # 2)) <= 100.
Proof.
  intros [H0 H1]. split.
  - change 0 with (Qfloor 0). apply Qfloor_resp_le.
    apply (Qle_trans _ (0 + 0)); [discriminate|]. apply Qplus_le_compat; [exact H0|discriminate].
  - change 100 with (Qfloor (100 + (1 # 2))). apply Qfloor_resp_le.
    apply Qplus_le_compat; [exact H1|apply Qle_refl].
Qed.

End DisplayFacts.

(** The age [getTimeAgo] shows for a date that lies [d] milliseconds back:
    "Just now" below one minute, also for a date in the future; then whole
    minutes from 1 to 59, whole hours from 1 to 23 and whole days from 1 to
    6, rounded down; and the date in the locale's format from a week on.
    So it never shows a count of 0, nor 60 minutes, 24 hours or 7 days. *)
Theorem getTimeAgo_counts (toLocaleDateString : option Z -> string) (now time : Z) :
  let d := now - time in
  let shown := getTimeAgo toLocaleDateString now (Some time) in
  (d < 60000 -> shown = "Just now")
  /\ (60000 <= d < 3600000 ->
      exists n, 1 <= n <= 59 /\ n * 60000 <= d < (n + 1) * 60000
                /\ shown = str n ++ "m ago")
  /\ (3600000 <= d < 86400000 ->
      exists n, 1 <= n <= 23 /\ n * 3600000 <= d < (n + 1) * 3600000
                /\ shown = str n ++ "h ago")
  /\ (86400000 <= d < 604800000 ->
      exists n, 1 <= n <= 6 /\ n * 86400000 <= d < (n + 1) * 86400000
                /\ shown = str n ++ "d ago")
  /\ (604800000 <= d -> shown = toLocaleDateString (Some time)).
Proof.
  intros d shown. subst shown. unfold getTimeAgo. fold d.
  pose proof (Z.div_mod d 1000 ltac:(lia)) as Hdm.
  pose proof (Z.mod_pos_bound d 1000 ltac:(lia)) as Hm.
  set (seconds := d / 1000) in *.
  repeat split.
  - intros Hd. destruct (Z.ltb_spec seconds 60); [reflexivity|lia].
  - intros Hd. exists (seconds / 60).
    destruct (DisplayFacts.unit_count seconds 60 60 ltac:(lia) ltac:(lia)) as [Hn Hs].
    split; [lia|]. split; [lia|].
    destruct (Z.ltb_spec seconds 60); [lia|].
    destruct (Z.ltb_spec seconds 3600); [reflexivity|lia].
  - intros Hd. exists (seconds / 3600).
    destruct (DisplayFacts.unit_count seconds 3600 24 ltac:(lia) ltac:(lia)) as [Hn Hs].
    split; [lia|]. split; [lia|].
    destruct (Z.ltb_spec seconds 60); [lia|].
    destruct (Z.ltb_spec seconds 3600); [lia|].
    destruct (Z.ltb_spec seconds 86400); [reflexivity|lia].
  - intros Hd. exists (seconds / 86400).
    destruct (DisplayFacts.unit_count seconds 86400 7 ltac:(lia) ltac:(lia)) as [Hn Hs].
    split; [lia|]. split; [lia|].
    destruct (Z.ltb_spec seconds 60); [lia|].
    destruct (Z.ltb_spec seconds 3600); [lia|].
    destruct (Z.ltb_spec seconds 86400); [lia|].
    destruct (Z.ltb_spec seconds 604800); [reflexivity|lia].
  - intros Hd.
    destruct (Z.ltb_spec seconds 60); [lia|].
    destruct (Z.ltb_spec seconds 3600); [lia|].
    destruct (Z.ltb_spec seconds 86400); [lia|].
    destruct (Z.ltb_spec seconds 604800); [lia|reflexivity].
Qed.


(** ** [addText] *)

Module AddTextFacts.

Import Async AsyncFacts DrawingFacts.

Lemma fold_left_ext {A S} (f f' : S -> A -> S) (l : list A) : forall s,
  (forall s x, f s x = f' s x) -> fold_left f l s = fold_left f' l s.
Proof.
  induction l as [|x l IH]; intros s H; [reflexivity|].
  cbn [fold_left]. rewrite H. now apply IH.
Qed.

Lemma fold_left_map {A B S} (f : S -> B -> S) (h : A -> B) (l : list A) : forall s,
  fold_left f (map h l) s = fold_left (fun s x => f s (h x)) l s.
Proof. induction l as [|x l IH]; intros s; [reflexivity|]. cbn [map fold_left]. apply IH. Qed.

Lemma mapi_from_map {A B} (h : A -> B) (l : list A) : forall k,
  mapi_from (fun _ x => h x) k l = map h l.
Proof. induction l as [|x l IH]; intros k; [reflexivity|]. cbn [mapi_from map]. now rewrite IH. Qed.

Lemma update_at_same {A} (l : list A) : forall i x,
  nth_error l i = Some x -> update_at i (fun _ => x) l = l.
Proof.
  induction l as [|y l IH]; intros [|i] x E; try discriminate E;
    cbn [update_at nth_error] in *.
  - now injection E as ->.
  - f_equal. now apply IH.
Qed.

Lemma update_at_const {A} (h : A -> A) (l : list A) : forall i x,
  nth_error l i = Some x -> update_at i (fun _ => h x) l = update_at i h l.
Proof.
  induction l as [|y l IH]; intros [|i] x E; try discriminate E;
    cbn [update_at nth_error] in *.
  - now injection E as ->.
  - f_equal. now apply IH.
Qed.

Section WithContent.

Context {Content Style : Type}.

Variable drawText : Style -> string -> page Content -> outcome (page Content).

Lemma addText_in_bounds (f : pdfFile Content) text pages_ style cb :
  in_bounds (addText drawText f text pages_ style cb).
Proof.
  unfold addText.
  apply ProgressFacts.in_bounds_bind; [apply in_bounds_constant; discriminate|].
  intros _ _. apply ProgressFacts.in_bounds_bind; [apply ProgressFacts.in_bounds_load|].
  intros pdfDoc _. apply ProgressFacts.in_bounds_bind; [apply in_bounds_getPages|].
  intros pages _.
  apply ProgressFacts.in_bounds_bind; [apply in_bounds_constant; discriminate|].
  intros _ _. apply ProgressFacts.in_bounds_bind.
  - apply ProgressFacts.in_bounds_for_each. intros x s _.
    destruct (js_ge x (Int 0) && js_lt x (Int (Z.of_nat (List.length s))))%bool;
      [|apply ProgressFacts.in_bounds_ret].
    destruct x as [|index]; [apply ProgressFacts.in_bounds_throw|].
    destruct (nth_error s (Z.to_nat index)); [|apply ProgressFacts.in_bounds_throw].
    apply ProgressFacts.in_bounds_bind; [apply in_bounds_draw|].
    intros; apply ProgressFacts.in_bounds_ret.
  - intros pages' _.
    apply ProgressFacts.in_bounds_bind; [apply in_bounds_constant; discriminate|].
    intros _ _. apply ProgressFacts.in_bounds_bind; [apply ProgressFacts.in_bounds_save|].
    intros bytes _.
    apply ProgressFacts.in_bounds_bind; [apply in_bounds_constant; discriminate|].
    intros; apply ProgressFacts.in_bounds_ret.
Qed.

Variable g : Style -> string -> page Content -> page Content.

Hypothesis drawText_returns : forall style text p,
  drawText style text p = Returned (g style text p).

Lemma text_body_result style text pageIndex (pages : list (page Content)) :
  result
    (if (js_ge pageIndex (Int 0)
         && js_lt pageIndex (Int (Z.of_nat (List.length pages))))%bool then
       match pageIndex with
       | Int index =>
           match nth_error pages (Z.to_nat index) with
           | Some page =>
               drawn <- draw drawText style text page ;;
               ret (update_at (Z.to_nat index) (fun _ => drawn) pages)
           | None => throw "undefined page"
           end
       | NaN => throw "undefined page"
       end
     else ret pages)
  = Returned (text_step (g style text) pages pageIndex)
  /\ List.length (text_step (g style text) pages pageIndex) = List.length pages.
Proof.
  unfold text_step. destruct pageIndex as [|index]; [split; reflexivity|].
  cbn [js_ge js_le js_lt].
  destruct (Z.leb_spec 0 index) as [H0|H0], (Z.ltb_spec index (Z.of_nat (List.length pages)))
    as [H1|H1]; cbn [andb]; try (split; reflexivity).
  destruct (nth_error pages (Z.to_nat index)) as [x|] eqn:E;
    [|apply nth_error_None in E; lia].
  split; [|apply update_at_length].
  rewrite result_bind. unfold draw at 1. cbn [result snd].
  rewrite drawText_returns. cbn [result ret snd]. f_equal.
  now apply update_at_const.
Qed.

Lemma text_loop_result style text targetPages (pages : list (page Content)) :
  result (for_of targetPages (fun pageIndex pages =>
      if (js_ge pageIndex (Int 0)
          && js_lt pageIndex (Int (Z.of_nat (List.length pages))))%bool then
        match pageIndex with
        | Int index =>
            match nth_error pages (Z.to_nat index) with
            | Some page =>
                drawn <- draw drawText style text page ;;
                ret (update_at (Z.to_nat index) (fun _ => drawn) pages)
            | None => throw "undefined page"
            end
        | NaN => throw "undefined page"
        end
      else ret pages) pages)
  = Returned (fold_left (text_step (g style text)) targetPages pages).
Proof.
  apply (for_of_fold_when (fun _ => True)); [exact I|].
  intros x s _ _. split; [|exact I]. apply text_body_result.
Qed.

Lemma fold_text_step_all style text (rest : list (page Content)) : forall pre,
  fold_left (text_step (g style text))
            (map (fun i => Int (Z.of_nat i)) (seq (List.length pre) (List.length rest)))
            (pre ++ rest)%list
  = (pre ++ map (g style text) rest)%list.
Proof.
  induction rest as [|x rest IH]; intros pre; [reflexivity|].
  cbn [List.length seq map fold_left]. unfold text_step at 2.
  rewrite length_app. cbn [List.length].
  destruct (Z.leb_spec 0 (Z.of_nat (List.length pre))) as [_|H]; [|lia].
  destruct (Z.ltb_spec (Z.of_nat (List.length pre))
                       (Z.of_nat (List.length pre + S (List.length rest)))) as [_|H];
    [|lia].
  cbn [andb]. rewrite Nat2Z.id, update_at_app.
  specialize (IH (pre ++ [g style text x])%list).
  rewrite <- !app_assoc, length_app, Nat.add_1_r in IH. exact IH.
Qed.

Lemma addText_result (ps : list (page Content)) text pages_ style cb :
  result (addText drawText (readable_file ps) text pages_ style cb)
  = Returned
      (readable_file
         (fold_left (text_step (g style text))
                    (if String.eqb pages_ "all"
                     then map (fun i => Int (Z.of_nat i)) (seq 0 (List.length ps))
                     else [js_sub (JSString.parseInt pages_) (Int 1)])
                    ps)).
Proof.
  unfold addText, readable_file. cbn [load].
  rewrite result_bind, result_report, bind_ret, getPages_readable, bind_ret.
  cbv iota beta. rewrite result_bind, result_report. cbv iota beta.
  rewrite result_bind, text_loop_result. cbv iota beta.
  rewrite result_bind, result_report. cbv iota beta. unfold save.
  rewrite bind_ret, result_bind, result_report. reflexivity.
Qed.

End WithContent.

End AddTextFacts.



(** ** Text extraction *)

Module TextFacts.

Import Async AsyncFacts StringFacts DrawingFacts.

Lemma split_from_not_nil sep s : forall skip, split_from sep skip s <> [].
Proof.
  induction s as [|c s IH]; intros skip; cbn [split_from]; [discriminate|].
  destruct skip as [|k]; [|apply IH].
  destruct (JSText.startsWith sep (String c s)); [discriminate|].
  destruct (split_from sep 0 s); discriminate.
Qed.

Lemma split_from_skip sep (t : string) s :
  split_from sep (String.length t) (t ++ s) = split_from sep 0 s.
Proof. induction t as [|c t IH]; [reflexivity|exact IH]. Qed.

Lemma split_from_found c sep s :
  split_from (String c sep) 0 (String c sep ++ s)
  = EmptyString :: split_from (String c sep) 0 s.
Proof.
  cbn [append split_from].
  change (String c (sep ++ s)) with (String c sep ++ s).
  rewrite startsWith_app.
  replace (String.length (String c sep) - 1)%nat with (String.length sep)
    by (cbn [String.length]; lia).
  now rewrite split_from_skip.
Qed.

Lemma prepend_empty pieces : pieces <> [] -> prepend "" pieces = pieces.
Proof. now destruct pieces. Qed.

Lemma prepend_prepend u v pieces :
  prepend u (prepend v pieces) = prepend (u ++ v) pieces.
Proof.
  destruct pieces as [|p ps]; cbn [prepend]; [reflexivity|].
  now rewrite append_assoc.
Qed.

Lemma split_from_unit sep c s :
  JSText.startsWith sep (String c s) = false ->
  split_from sep 0 (String c s) = prepend (String c "") (split_from sep 0 s).
Proof.
  intros H. cbn [split_from]. rewrite H.
  pose proof (split_from_not_nil sep s 0).
  now destruct (split_from sep 0 s).
Qed.

Lemma startsWith_before sep c : forall u r,
  JSString.includes c sep = false ->
  JSText.startsWith sep u = false ->
  JSText.startsWith sep (u ++ String c r) = false.
Proof.
  induction sep as [|a sep IH]; intros u r Hc Hu; [discriminate Hu|].
  cbn [JSString.includes] in Hc.
  destruct (Ascii.eqb a c) eqn:Hac; [discriminate|].
  destruct u as [|b u]; cbn [append JSText.startsWith] in *.
  - now rewrite Hac.
  - destruct (Ascii.eqb a b); [|reflexivity]. cbn [andb] in *. now apply IH.
Qed.

(** A text without the separator, followed by a unit that is not in the
    separator, is the beginning of a piece. *)
Lemma split_from_prefix sep c r : forall u,
  JSString.includes c sep = false ->
  JSText.includes sep u = false ->
  split_from sep 0 (u ++ String c r) = prepend u (split_from sep 0 (String c r)).
Proof.
  intros u Hc. induction u as [|d u IH]; intros Hu.
  - cbn [append]. symmetry. apply prepend_empty, split_from_not_nil.
  - cbn [JSText.includes] in Hu. apply orb_false_iff in Hu as [Hd Hu].
    cbn [append]. rewrite split_from_unit.
    + rewrite (IH Hu), prepend_prepend. reflexivity.
    + exact (startsWith_before sep c (String d u) r Hc Hd).
Qed.

(** A text without the first unit of the separator, followed by the
    separator, is a piece. *)
Lemma split_from_plain c sep rest : forall a,
  all_units (fun d => negb (Ascii.eqb d c)) a = true ->
  split_from (String c sep) 0 (a ++ String c sep ++ rest)
  = a :: split_from (String c sep) 0 rest.
Proof.
  induction a as [|d a IH]; intros Ha.
  - exact (split_from_found c sep rest).
  - cbn [all_units] in Ha. apply andb_prop in Ha as [Hd Ha].
    apply negb_true_iff in Hd.
    change (String d a ++ String c sep ++ rest)
      with (String d (a ++ String c sep ++ rest)).
    rewrite split_from_unit.
    + now rewrite (IH Ha).
    + cbn [JSText.startsWith]. now rewrite Ascii.eqb_sym, Hd.
Qed.

Lemma concat_cons (x : string) (xs : list string) :
  String.concat "" (x :: xs) = x ++ String.concat "" xs.
Proof.
  destruct xs as [|y ys]; [now rewrite append_empty_r|reflexivity].
Qed.

Lemma concat_app (l1 l2 : list string) :
  String.concat "" (l1 ++ l2) = String.concat "" l1 ++ String.concat "" l2.
Proof.
  induction l1 as [|x l1 IH]; [reflexivity|].
  cbn [List.app]. now rewrite !concat_cons, IH, append_assoc.
Qed.

Lemma mapi_from_app {A B} (h : nat -> A -> B) (l1 l2 : list A) : forall k,
  mapi_from h k (l1 ++ l2)
  = (mapi_from h k l1 ++ mapi_from h (k + List.length l1) l2)%list.
Proof.
  induction l1 as [|x l1 IH]; intros k; cbn [List.app mapi_from List.length].
  - now rewrite Nat.add_0_r.
  - rewrite IH, Nat.add_succ_r. reflexivity.
Qed.

Lemma digit_not c d :
  is_decimal_digit d = false -> is_decimal_digit c = true -> negb (Ascii.eqb c d) = true.
Proof.
  intros Hd Hc. destruct (Ascii.eqb_spec c d) as [->|_]; [congruence|reflexivity].
Qed.

Lemma str_digits z : 0 <= z -> all_units is_decimal_digit (str z) = true.
Proof.
  intros Hz. unfold str, JSString.ToString.
  destruct z as [|p|p]; [reflexivity| |lia].
  cbn [Z.to_int NilZero.string_of_int NilZero.string_of_uint].
  pose proof (numeral_text_digits (Pos.to_uint p)) as Hd. unfold numeral_text in Hd.
  unfold NilZero.string_of_uint. now destruct (Pos.to_uint p).
Qed.

Lemma str_without d z :
  is_decimal_digit d = false -> 0 <= z ->
  all_units (fun c => negb (Ascii.eqb c d)) (str z) = true.
Proof.
  intros Hd Hz. apply (all_units_weaken is_decimal_digit); [|now apply str_digits].
  intros c. now apply digit_not.
Qed.

(** The pieces of the extracted text. *)
Lemma split_blocks (texts : list (list string)) : forall i,
  Forall (fun items => JSText.includes "---" (String.concat " " items) = false) texts ->
  split_on "---" (String.concat "" (mapi_from page_block i texts)) = marker_pieces i texts.
Proof.
  unfold split_on.
  induction texts as [|items rest IH]; intros i Hclean; [reflexivity|].
  inversion Hclean as [|? ? Hitems Hrest]; subst.
  cbn [mapi_from marker_pieces]. rewrite concat_cons.
  set (REST := String.concat "" (mapi_from page_block (S i) rest)).
  set (joined := String.concat " " items) in *.
  replace (page_block i items ++ REST)
    with (String "010"
            ("---" ++ ((" Page " ++ str (Z.of_nat i) ++ " ")
                       ++ "---" ++ ((newline ++ joined) ++ String "010" REST)))).
  2:{ unfold page_block, page_marker, newline. fold joined.
      repeat first [rewrite !append_assoc | progress cbn [append]]. reflexivity. }
  rewrite split_from_unit by reflexivity.
  rewrite (split_from_found "-" "--").
  cbn [prepend]. change (String "010" "" ++ "") with newline. f_equal.
  rewrite (split_from_plain "-" "--").
  2:{ rewrite !all_units_app, str_without by (reflexivity || lia). reflexivity. }
  f_equal.
  rewrite split_from_prefix; [|reflexivity|].
  2:{ unfold newline. cbn [append JSText.includes JSText.startsWith Ascii.eqb Bool.eqb andb orb].
      exact Hitems. }
  rewrite split_from_unit by reflexivity.
  rewrite prepend_prepend. subst REST. rewrite (IH (S i) Hrest).
  unfold newline. now rewrite append_assoc.
Qed.

Lemma marker_pieces_not_nil texts i : marker_pieces i texts <> [].
Proof. destruct texts; discriminate. Qed.

Lemma prepend_length u pieces :
  pieces <> [] -> List.length (prepend u pieces) = List.length pieces.
Proof. now destruct pieces. Qed.

Lemma prepend_later u pieces j :
  nth_error (prepend u pieces) (S j) = nth_error pieces (S j).
Proof. destruct pieces; [now destruct j|reflexivity]. Qed.

Lemma marker_pieces_length texts : forall i,
  List.length (marker_pieces i texts) = (2 * List.length texts + 1)%nat.
Proof.
  induction texts as [|items rest IH]; intros i; [reflexivity|].
  cbn [marker_pieces List.length].
  rewrite prepend_length by apply marker_pieces_not_nil. rewrite IH. lia.
Qed.

Lemma marker_pieces_head texts i :
  exists tail rest, marker_pieces i texts = tail :: rest
                    /\ (tail = "" \/ tail = newline).
Proof.
  destruct texts as [|items rest]; cbn [marker_pieces]; eexists; eexists; eauto.
Qed.

Lemma marker_pieces_nth texts : forall i k items,
  nth_error texts k = Some items ->
  nth_error (marker_pieces i texts) (2 * k + 1)
  = Some (" Page " ++ str (Z.of_nat (i + k)) ++ " ")
  /\ exists tail,
       nth_error (marker_pieces i texts) (2 * k + 2)
       = Some (newline ++ String.concat " " items ++ newline ++ tail)
       /\ (tail = "" \/ tail = newline).
Proof.
  induction texts as [|first rest IH]; intros i k items Hk; [now destruct k|].
  destruct k as [|k].
  - cbn [nth_error] in Hk. injection Hk as ->.
    cbn [marker_pieces Nat.mul Nat.add nth_error]. rewrite Nat.add_0_r.
    split; [reflexivity|].
    destruct (marker_pieces_head rest (S i)) as (tail & more & -> & Htail).
    exists tail. cbn [prepend nth_error]. split; [|exact Htail].
    now rewrite !append_assoc.
  - cbn [nth_error] in Hk. destruct (IH (S i) k items Hk) as [H1 (tail & H2 & Htail)].
    replace (2 * S k + 1)%nat with (S (S (S (2 * k)))) by lia.
    replace (2 * S k + 2)%nat with (S (S (S (S (2 * k))))) by lia.
    cbn [marker_pieces].
    change (nth_error (?a :: ?b :: ?l) (S (S ?j))) with (nth_error l j).
    rewrite !prepend_later.
    replace (S (S (2 * k))) with (2 * k + 2)%nat by lia.
    replace (S (2 * k)) with (2 * k + 1)%nat by lia.
    replace (i + S k)%nat with (S i + k)%nat by lia.
    split; [exact H1|]. exists tail. now split.
Qed.

(** What the extraction loop returns. *)
Lemma fold_blocks (rest : list (list string)) : forall pre acc,
  fold_left (fun fullText i => fullText ++ page_block i (nth (i - 1) (pre ++ rest) []))
            (seq (S (List.length pre)) (List.length rest)) acc
  = acc ++ String.concat "" (mapi_from page_block (S (List.length pre)) rest).
Proof.
  induction rest as [|items rest IH]; intros pre acc.
  - cbn [List.length seq fold_left mapi_from String.concat].
    now rewrite append_empty_r.
  - cbn [List.length seq fold_left mapi_from]. rewrite concat_cons.
    rewrite Nat.sub_1_r. cbn [Nat.pred].
    rewrite app_nth2, Nat.sub_diag by lia. cbn [nth].
    specialize (IH (pre ++ [items])%list (acc ++ page_block (S (List.length pre)) items)).
    rewrite <- app_assoc, length_app, Nat.add_1_r in IH. cbn [List.app] in IH.
    rewrite IH. now rewrite append_assoc.
Qed.

Lemma extractTextFromPDF_result (texts : list (list string)) :
  result (extractTextFromPDF (Opened (map Drawn texts))) = Returned (fullText texts).
Proof.
  unfold extractTextFromPDF. cbn [loadPDFForRendering]. rewrite bind_ret.
  unfold numPages. rewrite length_map, for_loop_for_of.
  rewrite (for_of_fold
             (fun fullText i => fullText ++ page_block i (nth (i - 1) texts []))).
  - pose proof (fold_blocks texts [] "") as Hfold.
    cbn [List.app List.length append] in Hfold. now rewrite Hfold.
  - intros i s Hi. apply in_seq in Hi.
    destruct i as [|j]; [lia|]. cbn [getTextItems]. rewrite nth_error_map.
    destruct (nth_error texts j) as [items|] eqn:E;
      [|apply nth_error_None in E; lia].
    cbn [option_map]. rewrite bind_ret. cbn [result ret snd]. f_equal.
    rewrite Nat.sub_1_r. cbn [Nat.pred]. rewrite (nth_error_nth _ _ _ E).
    unfold page_block, page_marker. now rewrite !append_assoc.
Qed.

Lemma for_loop_silent {S} (body : nat -> S -> async S) count : forall i s,
  (forall j s, events (body j s) = []) -> events (for_loop count i body s) = [].
Proof.
  induction count as [|count IH]; intros i s H; [reflexivity|].
  cbn [for_loop]. rewrite events_bind, H. cbn [List.app].
  destruct (result (body i s)); [now apply IH|reflexivity].
Qed.

Lemma extractTextFromPDF_events file : events (extractTextFromPDF file) = [].
Proof.
  unfold extractTextFromPDF. destruct file as [pdf|message]; [|reflexivity].
  cbn [loadPDFForRendering]. rewrite bind_ret. apply for_loop_silent.
  intros i s. rewrite events_bind.
  assert (events (getTextItems pdf i) = []) as ->.
  { unfold getTextItems. destruct i as [|j]; [reflexivity|].
    now destruct (nth_error pdf j) as [[]|]. }
  now destruct (result (getTextItems pdf i)).
Qed.

(** A piece between two separators is a piece after the first. *)
Lemma in_split_tail c m B : forall A,
  all_units (fun d => negb (Ascii.eqb d c)) m = true ->
  In m (tl (JSString.split c (A ++ String c (m ++ String c B)))).
Proof.
  intros A Hm. induction A as [|a A IH].
  - cbn [append JSString.split]. rewrite Ascii.eqb_refl. cbn [tl].
    rewrite (split_app_sep c m B Hm). now left.
  - cbn [append JSString.split]. destruct (Ascii.eqb a c).
    + cbn [tl]. revert IH.
      destruct (JSString.split c (A ++ String c (m ++ String c B))); cbn [tl];
        [contradiction|]. intros IH. now right.
    + revert IH.
      destruct (JSString.split c (A ++ String c (m ++ String c B))); cbn [tl];
        [contradiction|]. trivial.
Qed.

Lemma page_marker_line k :
  all_units (fun d => negb (Ascii.eqb d "010")) (page_marker k) = true.
Proof.
  unfold page_marker. rewrite !all_units_app, str_without by (reflexivity || lia).
  reflexivity.
Qed.

Lemma page_marker_not_blank k :
  negb (String.eqb (JSString.trim (page_marker k)) "") = true.
Proof.
  unfold page_marker, JSString.trim. cbn [append JSString.trimStart].
  change (JSString.is_white_space "-") with false. cbv iota.
  cbn [JSString.trimEnd]. change (JSString.is_white_space "-") with false.
  now destruct (JSString.trimEnd _).
Qed.

Lemma marker_in_lines (texts : list (list string)) k items :
  nth_error texts k = Some items ->
  In (page_marker (S k)) (text_lines (fullText texts)).
Proof.
  intros Hk. apply nth_error_split in Hk as (l1 & l2 & -> & Hlen).
  unfold text_lines, fullText. apply filter_In. split; [|apply page_marker_not_blank].
  rewrite mapi_from_app. cbn [mapi_from]. rewrite concat_app, concat_cons.
  rewrite Hlen. cbn [Nat.add].
  set (A := String.concat "" (mapi_from page_block 1 l1)).
  set (B := String.concat "" (mapi_from page_block (S (S k)) l2)).
  replace (A ++ page_block (S k) items ++ B)
    with (A ++ String "010" (page_marker (S k)
                             ++ String "010" (String.concat " " items ++ newline ++ B))).
  2:{ unfold page_block, newline.
      repeat first [rewrite !append_assoc | progress cbn [append]]. reflexivity. }
  pose proof (in_split_tail "010" (page_marker (S k))
                (String.concat " " items ++ newline ++ B) A (page_marker_line (S k)))
    as Hin.
  destruct (JSString.split "010" _) as [|p ps]; [contradiction|]. now right.
Qed.

Lemma lines_not_blank text line :
  In line (text_lines text) -> JSString.trim line <> "".
Proof.
  unfold text_lines. intros [_ H]%filter_In.
  apply negb_true_iff in H. now apply String.eqb_neq.
Qed.

End TextFacts.

(** [toHTML] cuts the extracted text at every [---], and the markers
    [--- Page i ---] that [extractTextFromPDF] writes hold two of them
    each.  So for a document of N pages none of which has [---] in its own
    text, the HTML has 2N + 1 sections headed "Page 1" to "Page 2N + 1":
    the first is empty, section 2k + 2 holds the words "Page k + 1", and
    section 2k + 3 holds the text of page k + 1.  [toText] returns the
    extracted text as it is. *)
Theorem toHTML_sections (texts : list (list string)) (cb : bool)
        (Hclean : Forall (fun items =>
                            JSText.includes "---" (String.concat " " items) = false)
                         texts) :
  let text := fullText texts in
  let pieces := split_on "---" text in
  Async.result (toText (Opened (map Drawn texts)) cb) = Returned text
  /\ Async.result (toHTML (Opened (map Drawn texts)) cb)
     = Returned (html_head ++ String.concat "" (mapi_from html_block 0 pieces)
                 ++ html_tail)
  /\ List.length pieces = (2 * List.length texts + 1)%nat
  /\ nth_error pieces 0 = Some (match texts with [] => "" | _ => newline end)
  /\ forall k items, nth_error texts k = Some items ->
       nth_error pieces (2 * k + 1) = Some (" Page " ++ str (Z.of_nat k + 1) ++ " ")
       /\ exists tail,
            nth_error pieces (2 * k + 2)
            = Some (newline ++ String.concat " " items ++ newline ++ tail)
            /\ (tail = "" \/ tail = newline).
Proof.
  intros text pieces.
  assert (pieces = marker_pieces 1 texts) as Hpieces
    by exact (TextFacts.split_blocks texts 1 Hclean).
  split; [|split; [|split; [|split]]].
  - unfold toText.
    rewrite AsyncFacts.result_bind, AsyncFacts.result_report. cbv iota beta.
    rewrite AsyncFacts.result_bind, TextFacts.extractTextFromPDF_result. cbv iota beta.
    now rewrite AsyncFacts.result_bind, AsyncFacts.result_report.
  - unfold toHTML.
    rewrite AsyncFacts.result_bind, AsyncFacts.result_report. cbv iota beta.
    rewrite AsyncFacts.result_bind, TextFacts.extractTextFromPDF_result. cbv iota beta.
    rewrite AsyncFacts.result_bind, AsyncFacts.result_report. cbv iota beta.
    now rewrite AsyncFacts.result_bind, AsyncFacts.result_report.
  - rewrite Hpieces. apply TextFacts.marker_pieces_length.
  - rewrite Hpieces. now destruct texts.
  - intros k items Hk.
    pose proof (TextFacts.marker_pieces_nth texts 1 k items Hk) as Hnth.
    rewrite <- Hpieces in Hnth.
    replace (Z.of_nat (1 + k)) with (Z.of_nat k + 1) in Hnth by lia. exact Hnth.
Qed.

(** One page with the items "Hello" and "world": three sections. *)
Lemma toHTML_sections_witness :
  List.length (split_on "---" (fullText [["Hello"; "world"]])) = 3%nat
  /\ nth_error (split_on "---" (fullText [["Hello"; "world"]])) 1 = Some " Page 1 ".
Proof.
  assert (Forall (fun items => JSText.includes "---" (String.concat " " items) = false)
                 [["Hello"; "world"]]) as Hclean by (repeat constructor).
  pose proof (toHTML_sections [["Hello"; "world"]] true Hclean) as H.
  cbn zeta in H. destruct H as (_ & _ & Hlen & _ & Hnth).
  split; [exact Hlen|].
  exact (proj1 (Hnth O ["Hello"; "world"] eq_refl)).
Defined.

(** [toWord] and [toExcel] make a paragraph, or a row, of each line of the
    extracted text that is not blank.  The marker line [--- Page i ---] of
    every page is among them, whatever the pages contain; so the Word
    document and the sheet hold these markers besides the text of the
    pages.  The percents [toText] and [toHTML] report lie in [0, 100]. *)
Theorem page_markers_become_lines (texts : list (list string))
        (file : viewFile) (cb : bool) :
  (forall k items, nth_error texts k = Some items ->
     let marker := "--- Page " ++ str (Z.of_nat k + 1) ++ " ---" in
     In marker (text_lines (fullText texts))
     /\ In [marker] (excel_data (fullText texts))
     /\ In (word_paragraph marker) (map word_paragraph (text_lines (fullText texts))))
  /\ (forall line, In line (text_lines (fullText texts)) -> JSString.trim line <> "")
  /\ Forall Percent.in_range (Async.percents (toText file cb))
  /\ Forall Percent.in_range (Async.percents (toHTML file cb)).
Proof.
  split; [|split; [|split]].
  - intros k items Hk marker.
    assert (In marker (text_lines (fullText texts))) as Hin.
    { pose proof (TextFacts.marker_in_lines texts k items Hk) as H.
      unfold page_marker in H.
      replace (Z.of_nat (S k)) with (Z.of_nat k + 1) in H by lia. exact H. }
    split; [exact Hin|]. split.
    + unfold excel_data. apply in_map_iff. now exists marker.
    + now apply in_map.
  - intros line. apply TextFacts.lines_not_blank.
  - apply ProgressFacts.percents_in_range. unfold toText.
    apply ProgressFacts.in_bounds_bind;
      [apply DrawingFacts.in_bounds_constant; discriminate|intros _ _].
    apply ProgressFacts.in_bounds_bind.
    { unfold Async.in_bounds. rewrite TextFacts.extractTextFromPDF_events. constructor. }
    intros text _.
    apply ProgressFacts.in_bounds_bind;
      [apply DrawingFacts.in_bounds_constant; discriminate|intros _ _].
    apply ProgressFacts.in_bounds_ret.
  - apply ProgressFacts.percents_in_range. unfold toHTML.
    apply ProgressFacts.in_bounds_bind;
      [apply DrawingFacts.in_bounds_constant; discriminate|intros _ _].
    apply ProgressFacts.in_bounds_bind.
    { unfold Async.in_bounds. rewrite TextFacts.extractTextFromPDF_events. constructor. }
    intros text _.
    apply ProgressFacts.in_bounds_bind;
      [apply DrawingFacts.in_bounds_constant; discriminate|intros _ _].
    apply ProgressFacts.in_bounds_bind;
      [apply DrawingFacts.in_bounds_constant; discriminate|intros _ _].
    apply ProgressFacts.in_bounds_ret.
Qed.

(** ** What [process] records *)

Module ProcessFacts.

Lemma number_or_zero n : number_or (Some n) 0 = n.
Proof. now destruct n. Qed.

End ProcessFacts.



(** ** Operations that draw the pages with pdf.js *)

Module RenderingFacts.

Import Async AsyncFacts DrawingFacts.

Lemma in_bounds_relay {A} cb (scale : percent -> percent) (m : async A) :
  (forall v, Percent.in_range v -> Percent.in_range (scale v)) ->
  in_bounds m -> in_bounds (relay cb scale m).
Proof.
  intros Hscale. unfold in_bounds, relay. cbn [events fst].
  induction 1 as [|[v text|arguments] l He _ IH]; cbn [flat_map]; [constructor| |].
  - destruct cb; cbn [List.app]; [constructor; [now apply Hscale|exact IH]|exact IH].
  - constructor; [exact I|exact IH].
Qed.

Lemma result_relay {A} cb scale (m : async A) : result (relay cb scale m) = result m.
Proof. reflexivity. Qed.

Lemma scaled_in_range v :
  Percent.in_range v -> Percent.in_range (Percent.plus 10 (Percent.times v (6 # 10))).
Proof.
  destruct v as [q| |]; cbn [Percent.in_range Percent.plus Percent.times];
    [|contradiction|contradiction].
  intros [H0 H1].
  assert (0 <= q * (6 # 10))%Q as Hlo by (apply Qmult_le_0_compat; [exact H0|discriminate]).
  assert (q * (6 # 10) <= 100 * (6 # 10))%Q as Hhi
    by (apply Qmult_le_compat_r; [exact H1|discriminate]).
  split.
  - apply (Qle_trans _ (10 + 0)); [discriminate|]. now apply Qplus_le_r.
  - apply (Qle_trans _ (10 + 100 * (6 # 10))); [|discriminate]. now apply Qplus_le_r.
Qed.

Lemma page_ratio_in_range (i n : nat) :
  (1 <= i <= n)%nat ->
  Percent.in_range (Percent.times (Percent.ratio (Z.of_nat i) (Z.of_nat n)) 100).
Proof. intros Hi. apply ProgressFacts.ratio_percent_in_range; lia. Qed.

(** A loop that appends one element for each page. *)
Lemma fold_pages {A B} (h : nat -> A -> B) (d : A) (rest : list A) :
  forall pre (acc : list B),
  fold_left (fun acc i => (acc ++ [h i (nth (i - 1) (pre ++ rest) d)])%list)
            (seq (S (List.length pre)) (List.length rest)) acc
  = (acc ++ mapi_from h (S (List.length pre)) rest)%list.
Proof.
  induction rest as [|x rest IH]; intros pre acc.
  - cbn [List.length seq fold_left mapi_from]. now rewrite List.app_nil_r.
  - cbn [List.length seq fold_left mapi_from].
    rewrite Nat.sub_1_r. cbn [Nat.pred].
    rewrite app_nth2, Nat.sub_diag by lia. cbn [nth].
    specialize (IH (pre ++ [x])%list (acc ++ [h (S (List.length pre)) x])%list).
    rewrite <- !app_assoc, length_app, Nat.add_1_r in IH. exact IH.
Qed.

Lemma fold_files {A B} (h : nat -> A -> list B) (rest : list A) :
  forall pre (acc : list B),
  fold_left (fun acc i => match nth_error (pre ++ rest) i with
                          | Some x => (acc ++ h i x)%list
                          | None => acc
                          end)
            (seq (List.length pre) (List.length rest)) acc
  = (acc ++ List.concat (mapi_from h (List.length pre) rest))%list.
Proof.
  induction rest as [|x rest IH]; intros pre acc.
  - cbn [List.length seq fold_left mapi_from List.concat]. now rewrite List.app_nil_r.
  - cbn [List.length seq fold_left mapi_from List.concat].
    rewrite nth_error_app2, Nat.sub_diag by lia. cbn [nth_error].
    specialize (IH (pre ++ [x])%list (acc ++ h (List.length pre) x)%list).
    rewrite <- !app_assoc, length_app, Nat.add_1_r in IH. exact IH.
Qed.

Section WithContent.

Context {Content Image : Type}.

Variable rasterize : list string -> string -> outcome Image.
Variable image_page : Image -> Content.

Lemma in_bounds_getTextItems pdf i : in_bounds (getTextItems pdf i).
Proof.
  unfold getTextItems. destruct i as [|j]; [apply ProgressFacts.in_bounds_throw|].
  destruct (nth_error pdf j) as [[items|message]|];
    [apply ProgressFacts.in_bounds_ret|apply ProgressFacts.in_bounds_throw
    |apply ProgressFacts.in_bounds_throw].
Qed.

Lemma in_bounds_loadPDFForRendering file : in_bounds (loadPDFForRendering file).
Proof.
  destruct file; [apply ProgressFacts.in_bounds_ret|apply ProgressFacts.in_bounds_throw].
Qed.

Lemma convertPDFToImages_in_bounds file format cb :
  in_bounds (convertPDFToImages rasterize file format cb).
Proof.
  unfold convertPDFToImages.
  apply ProgressFacts.in_bounds_bind; [apply in_bounds_loadPDFForRendering|].
  intros pdf _. rewrite for_loop_for_of. apply ProgressFacts.in_bounds_for_each.
  intros i s Hi. apply in_seq in Hi.
  apply ProgressFacts.in_bounds_bind;
    [apply ProgressFacts.in_bounds_report, page_ratio_in_range; lia|].
  intros _ _. apply ProgressFacts.in_bounds_bind; [apply in_bounds_getTextItems|].
  intros page _. apply ProgressFacts.in_bounds_bind; [constructor|].
  intros; apply ProgressFacts.in_bounds_ret.
Qed.

Lemma compressPDF_in_bounds file cb :
  in_bounds (compressPDF rasterize image_page file cb).
Proof.
  unfold compressPDF.
  apply ProgressFacts.in_bounds_bind; [apply in_bounds_loadPDFForRendering|].
  intros pdf _.
  apply ProgressFacts.in_bounds_bind; [|intros; apply ProgressFacts.in_bounds_save].
  rewrite for_loop_for_of. apply ProgressFacts.in_bounds_for_each.
  intros i s Hi. apply in_seq in Hi.
  apply ProgressFacts.in_bounds_bind;
    [apply ProgressFacts.in_bounds_report, page_ratio_in_range; lia|].
  intros _ _. apply ProgressFacts.in_bounds_bind; [apply in_bounds_getTextItems|].
  intros page _. apply ProgressFacts.in_bounds_bind; [constructor|].
  intros; apply ProgressFacts.in_bounds_ret.
Qed.

Lemma toPowerPoint_in_bounds file cb :
  in_bounds (toPowerPoint rasterize file cb).
Proof.
  unfold toPowerPoint.
  apply ProgressFacts.in_bounds_bind; [apply in_bounds_constant; discriminate|].
  intros _ _. apply ProgressFacts.in_bounds_bind.
  { apply in_bounds_relay; [exact scaled_in_range|apply convertPDFToImages_in_bounds]. }
  intros images _.
  apply ProgressFacts.in_bounds_bind; [apply in_bounds_constant; discriminate|].
  intros _ _. apply ProgressFacts.in_bounds_bind.
  - rewrite for_loop_for_of. apply ProgressFacts.in_bounds_for_each.
    intros i s Hi. apply in_seq in Hi.
    apply ProgressFacts.in_bounds_bind.
    + apply ProgressFacts.in_bounds_report, offset_ratio_in_range;
        try lia; discriminate.
    + intros _ _. destruct (nth_error images i);
        [apply ProgressFacts.in_bounds_ret|apply ProgressFacts.in_bounds_throw].
  - intros zip _.
    apply ProgressFacts.in_bounds_bind; [apply in_bounds_constant; discriminate|].
    intros _ _.
    apply ProgressFacts.in_bounds_bind; [apply in_bounds_constant; discriminate|].
    intros; apply ProgressFacts.in_bounds_ret.
Qed.

Variable g : list string -> string -> Image.

Hypothesis rasterize_returns : forall page format,
  rasterize page format = Returned (g page format).

Lemma page_loop_result {B} (h : nat -> list string -> B) (format : string)
      (before : nat -> async unit) (make : nat -> Image -> B)
      (texts : list (list string)) :
  (forall i, result (before i) = Returned tt) ->
  (forall i items, make i (g items format) = h i items) ->
  result (for_loop (List.length texts) 1 (fun i acc =>
            before i ;;;
            page <- getTextItems (map Drawn texts) i ;;
            image <- ([], rasterize page format) ;;
            ret (acc ++ [make i image])%list) [])
  = Returned (mapi_from h 1 texts).
Proof.
  intros Hbefore Hmake. rewrite for_loop_for_of.
  rewrite (for_of_fold (fun acc i => (acc ++ [h i (nth (i - 1) texts [])])%list)).
  - pose proof (fold_pages h [] texts [] []) as Hfold.
    cbn [List.app List.length] in Hfold. now rewrite Hfold.
  - intros i s Hi. apply in_seq in Hi.
    rewrite result_bind, Hbefore. cbv iota beta.
    destruct i as [|j]; [lia|]. cbn [getTextItems]. rewrite nth_error_map.
    destruct (nth_error texts j) as [items|] eqn:E;
      [|apply nth_error_None in E; lia].
    cbn [option_map]. rewrite bind_ret, result_bind. cbn [result snd].
    rewrite rasterize_returns. cbn [result ret snd].
    rewrite Nat.sub_1_r. cbn [Nat.pred]. rewrite (nth_error_nth _ _ _ E).
    now rewrite Hmake.
Qed.

Lemma convertPDFToImages_result texts format cb :
  result (convertPDFToImages rasterize (Opened (map Drawn texts)) format cb)
  = Returned (mapi_from (fun i items => mkPageImage (Z.of_nat i) (g items format))
                        1 texts).
Proof.
  unfold convertPDFToImages. cbn [loadPDFForRendering]. rewrite bind_ret.
  unfold numPages. rewrite length_map.
  apply (page_loop_result
           (fun i items => mkPageImage (Z.of_nat i) (g items format)) format
           (fun i => report cb _ _) (fun i image => mkPageImage (Z.of_nat i) image)).
  - intros i. apply result_report.
  - reflexivity.
Qed.

Lemma compressPDF_result texts cb :
  result (compressPDF rasterize image_page (Opened (map Drawn texts)) cb)
  = Returned (readable_file
                (map (fun items => mkPage (image_page (g items "image/jpeg")) 0) texts)).
Proof.
  unfold compressPDF. cbn [loadPDFForRendering]. rewrite bind_ret, result_bind.
  unfold numPages. rewrite length_map. unfold addPage, create.
  rewrite (page_loop_result
             (fun _ items => Readable (mkPage (image_page (g items "image/jpeg")) 0))
             "image/jpeg" (fun i => report cb _ _)
             (fun _ image => Readable (mkPage (image_page image) 0))).
  - cbv iota. unfold save, readable_file. cbn [result ret snd].
    now rewrite AddTextFacts.mapi_from_map, map_map.
  - intros i. apply result_report.
  - reflexivity.
Qed.

Lemma toPowerPoint_result texts cb :
  let images := mapi_from (fun i items => mkPageImage (Z.of_nat i) (g items "image/jpeg"))
                          1 texts in
  result (toPowerPoint rasterize (Opened (map Drawn texts)) cb)
  = Returned
      ([ ("[Content_Types].xml", Xml (createPPTXContentTypes (List.length texts)));
         ("_rels/.rels", Xml createPPTXRels);
         ("ppt/presentation.xml", Xml (createPPTXPresentation (List.length texts))) ]
       ++ List.concat (mapi_from slide_files 0 images))%list.
Proof.
  intros images. unfold toPowerPoint.
  rewrite result_bind, result_report. cbv iota beta.
  rewrite result_bind, result_relay, convertPDFToImages_result. cbv iota beta.
  fold images.
  assert (List.length images = List.length texts) as Hlen
    by apply PickFacts.mapi_from_length.
  rewrite result_bind, result_report. cbv iota beta.
  rewrite result_bind, for_loop_for_of.
  rewrite (for_of_fold (fun zip i => match nth_error images i with
                                     | Some shown => (zip ++ slide_files i shown)%list
                                     | None => zip
                                     end)).
  - pose proof (fold_files slide_files images []) as Hfold.
    cbn [List.app List.length] in Hfold. rewrite Hfold. cbv iota beta.
    rewrite result_bind, result_report. cbv iota beta.
    rewrite result_bind, result_report. cbv iota beta.
    cbn [result ret snd]. now rewrite Hlen.
  - intros i s Hi. rewrite result_bind, result_report. cbv iota beta.
    now destruct (nth_error images i) eqn:E;
      [|apply in_seq in Hi; apply nth_error_None in E; lia].
Qed.

End WithContent.

End RenderingFacts.




(** ** The page expression typed for the extract tool *)

Module TypedPagesFacts.

Lemma typed_pages (tokens : list token) :
  tokens <> [] -> Forall token_ok tokens ->
  exists pages,
    parsePageRange (expression_text tokens) = map Int pages
    /\ StronglySorted Z.lt pages
    /\ forall p, In p pages <-> Exists (fun t => denotes t p) tokens.
Proof.
  intros Hne Hok.
  unfold parsePageRange. rewrite (ParserFacts.split_expression tokens Hne).
  destruct (ParserFacts.parse_parts_tokens tokens [] Hok (NoDup_nil Z))
    as (zs & Hfold & Hnd & Hin).
  change (@nil number) with (map Int []). rewrite Hfold.
  destruct (NumberFacts.sort_ascending_Int zs) as (pages & -> & Hsorted & Hperm).
  exists pages. split; [reflexivity|]. split.
  - apply NumberFacts.sorted_distinct_strict; [assumption|].
    now apply (Permutation_NoDup Hperm).
  - intros p. split.
    + intros Hp. apply Permutation_sym in Hperm.
      apply (Permutation_in _ Hperm), Hin in Hp. destruct Hp as [[]|Hp]. exact Hp.
    + intros Hp. apply (Permutation_in _ Hperm), Hin. now right.
Qed.

Lemma strict_NoDup (l : list Z) : StronglySorted Z.lt l -> NoDup l.
Proof.
  induction 1 as [|x l _ IH Hall]; constructor; [|exact IH].
  intros Hx. rewrite Forall_forall in Hall. specialize (Hall x Hx). lia.
Qed.

Lemma map_Int_NoDup (l : list Z) : NoDup l -> NoDup (map Int l).
Proof.
  induction 1 as [|x l Hnot _ IH]; simpl; constructor; [|exact IH].
  intros Hx. apply in_map_iff in Hx as (y & Hy & Hin).
  injection Hy as ->. contradiction.
Qed.

Lemma to_nat_sorted (l : list Z) :
  Forall (fun z => 0 <= z) l -> StronglySorted Z.lt l ->
  StronglySorted lt (map Z.to_nat l).
Proof.
  intros Hpos Hs. induction Hs as [|x l _ IH Hall]; simpl; [constructor|].
  inversion Hpos as [|? ? Hx Hl]; subst.
  constructor; [exact (IH Hl)|].
  rewrite Forall_forall in *. intros n Hn.
  apply in_map_iff in Hn as (y & <- & Hy).
  specialize (Hall y Hy). specialize (Hl y Hy). lia.
Qed.

End TypedPagesFacts.

Section TypedPages.

Context {Content : Type}.

Import Async.


End TypedPages.


(** ** The time stamp of the file names *)

Module TimestampFacts.

Lemma replace_units_append f (a b : string) :
  replace_units f (a ++ b) = (replace_units f a ++ replace_units f b)%string.
Proof.
  induction a as [|c a IH]; [reflexivity|].
  cbn [append replace_units]. rewrite IH. now rewrite DrawingFacts.append_assoc.
Qed.

Lemma replace_length (s : string) :
  String.length (replace_units timestamp_unit s) = String.length s.
Proof.
  induction s as [|c s IH]; [reflexivity|].
  cbn [replace_units].
  change (timestamp_unit c) with (if timestamp_separator c then Some "-" else None).
  destruct (timestamp_separator c); cbn [append String.length]; now rewrite IH.
Qed.

Lemma append_length (a b : string) :
  String.length (a ++ b) = (String.length a + String.length b)%nat.
Proof. induction a as [|c a IH]; [reflexivity|]. cbn. now rewrite IH. Qed.

Lemma substring_prefix (a b : string) :
  substring 0 (String.length a) (a ++ b) = a.
Proof.
  induction a as [|c a IH]; [now destruct b|].
  cbn [append String.length substring]. now rewrite IH.
Qed.

Lemma substring_length (n : nat) (s : string) :
  String.length (substring 0 n s) = Nat.min n (String.length s).
Proof.
  revert n. induction s as [|c s IH]; intros [|n]; try reflexivity.
  cbn [substring String.length]. now rewrite IH.
Qed.

Lemma replace_plain (s : string) :
  all_units (fun c => negb (timestamp_separator c)) (replace_units timestamp_unit s) = true.
Proof.
  induction s as [|c s IH]; [reflexivity|].
  cbn [replace_units].
  change (timestamp_unit c) with (if timestamp_separator c then Some "-" else None).
  destruct (timestamp_separator c) eqn:E; cbn [append all_units]; rewrite IH.
  - reflexivity.
  - now rewrite E.
Qed.

Lemma substring_all P (n : nat) (s : string) :
  all_units P s = true -> all_units P (substring 0 n s) = true.
Proof.
  revert n. induction s as [|c s IH]; intros [|n] H; try reflexivity.
  cbn [all_units] in H. apply andb_prop in H as [Hc Hs].
  cbn [substring all_units]. now rewrite Hc, IH.
Qed.

End TimestampFacts.

(** X29.  [getTimestamp] replaces every colon and full stop of the ISO date
    by a hyphen and cuts the last five units off: the time stamp contains
    neither a colon nor a full stop and is five units shorter than the ISO
    date (empty when that has at most five), and it depends on nothing but
    the part before them.  The last five units of an ISO date are the full
    stop, the milliseconds and the Z, so the time stamp, and with it the
    name of the file a tool produces, is the same at all times of one
    second. *)
Theorem getTimestamp_cuts_milliseconds (toISOString : Z -> string)
        (now : Z) (body tail : string)
        (Hiso : toISOString now = (body ++ tail)%string)
        (Htail : String.length tail = 5%nat) :
  getTimestamp toISOString now = replace_units timestamp_unit body
  /\ (forall later, all_units (fun c => negb (timestamp_separator c))
                              (getTimestamp toISOString later) = true
                    /\ String.length (getTimestamp toISOString later)
                       = (String.length (toISOString later) - 5)%nat)
  /\ forall later tail', toISOString later = (body ++ tail')%string ->
                         String.length tail' = 5%nat ->
                         getTimestamp toISOString later = getTimestamp toISOString now.
Proof.
  assert (forall t tl, toISOString t = (body ++ tl)%string -> String.length tl = 5%nat ->
                       getTimestamp toISOString t = replace_units timestamp_unit body) as Hcut.
  { intros t tl Ht Hl. unfold getTimestamp, slice_off. rewrite Ht.
    rewrite TimestampFacts.replace_length, TimestampFacts.append_length, Hl.
    rewrite TimestampFacts.replace_units_append.
    replace (String.length body + 5 - 5)%nat
      with (String.length (replace_units timestamp_unit body))
      by (rewrite TimestampFacts.replace_length; lia).
    apply TimestampFacts.substring_prefix. }
  split; [exact (Hcut now tail Hiso Htail)|]. split.
  - intros later. unfold getTimestamp, slice_off. split.
    + apply TimestampFacts.substring_all, TimestampFacts.replace_plain.
    + rewrite TimestampFacts.substring_length, !TimestampFacts.replace_length. lia.
  - intros later tail' Hl Ht.
    now rewrite (Hcut later tail' Hl Ht), (Hcut now tail Hiso Htail).
Qed.

Lemma getTimestamp_cuts_milliseconds_witness :
  getTimestamp (fun _ => "2024-01-15T10:30:45.123Z") 0 = "2024-01-15T10-30-45".
Proof.
  exact (proj1 (getTimestamp_cuts_milliseconds
                  (fun _ => "2024-01-15T10:30:45.123Z") 0
                  "2024-01-15T10:30:45" ".123Z" eq_refl eq_refl)).
Defined.
